(** * procom: a point-to-point relay between local streams and a socket

    A shallow embedding of [source/socket.c] and [source/procom.c].

    The program talks to the operating system through libc calls.  Each call
    is modelled as a step of a state monad over a [world]: the world holds
    the answers the environment is going to give (so every behaviour of the
    environment is some world) and a chronological [trace] of the calls the
    program made together with their results.  Pointers to descriptors
    ([int*]) become values passed in and returned. *)

From Stdlib Require Import ZArith List String Bool Arith Lia.
From Stdlib Require Import Strings.Byte.
Import ListNotations.

Open Scope string_scope.
Open Scope list_scope.
Open Scope Z_scope.

(** ** Bytes and buffers *)

Definition NUL : byte := x00.
Definition NEWLINE : byte := x0a.

(** [symbol == '\0' || symbol == '\n'] *)
Definition is_terminator (symbol : byte) : bool :=
  Byte.eqb symbol NUL || Byte.eqb symbol NEWLINE.

(** [memset(buffer, '\0', n)] on a fresh [char buffer[n]]. *)
Definition memset_zero (n : nat) : list byte := repeat NUL n.

(** [buffer[index] = symbol]; [None] is a store outside the array. *)
Fixpoint store (buffer : list byte) (index : nat) (symbol : byte)
  : option (list byte) :=
  match buffer, index with
  | [], _ => None
  | _ :: rest, O => Some (symbol :: rest)
  | b :: rest, S i => option_map (cons b) (store rest i symbol)
  end.

(** ** The environment *)

Inductive thread : Type := stdin_thread | stdout_thread.

Inductive signal : Type := SIGINT | SIGPIPE | SIGUSR1.

Definition AF_INET : Z := 2.

(** The [sin_addr] field: either what [inet_addr] made of the text, or what
    [getsockname] left there for the descriptor. *)
Inductive in_addr : Type :=
| inet_addr (address : string)
| sockname (sockfd : Z).

Record sockaddr_in : Type := {
  sin_family : Z;
  sin_port : Z;
  sin_addr : in_addr
}.

(** [htons] on a little-endian host: the low 16 bits, bytes swapped. *)
Definition htons (port : Z) : Z :=
  let p := port mod 65536 in
  Z.lor (Z.shiftl (Z.land p 255) 8) (Z.shiftr p 8).

(** Calls whose only answer is an integer. *)
Inductive call : Type :=
| sys_socket
| sys_getsockname (sockfd : Z)
| sys_bind (sockfd : Z) (addr : sockaddr_in)
| sys_listen (sockfd backlog : Z)
| sys_connect (sockfd : Z) (addr : sockaddr_in)
| sys_accept (servfd : Z)
| sys_close (fd : Z)
| sys_send (sockfd : Z) (symbol : byte)
| sys_pthread_kill (target : thread) (sig : signal)
| sys_sigaction (sig : signal)
| call_buffer_write (fd : Z) (buffer : list byte) (size : nat).

(** What one [recv(sockfd, &symbol, 1, 0)] can deliver. *)
Inductive recv_event : Type :=
| RecvByte (b : byte)   (* returns 1, the byte is stored in [symbol] *)
| RecvEof               (* returns 0 *)
| RecvError.            (* returns -1 *)

Inductive event : Type :=
| Called (c : call) (answer : Z)
| Received (sockfd : Z) (e : recv_event)
| BufferRead (fd : Z) (size : nat) (answer : Z) (data : list byte).

Record world : Type := {
  os_results : list Z;                  (* answers to [call]s, in call order *)
  incoming : list recv_event;           (* what successive [recv]s deliver *)
  fifo_reads : list (Z * list byte);    (* what successive [buffer_read]s deliver *)
  trace : list event;                   (* calls made so far, oldest first *)
  console : list string                 (* debug messages printed so far *)
}.

(** ** The monad: state, plus the two ways a model run can break off *)

Inductive result (A : Type) : Type :=
| Ok (a : A) (w : world)
| Fault          (* an array access outside its bounds *)
| OutOfFuel.     (* a loop bound of the model was reached *)

Arguments Ok {A} a w.
Arguments Fault {A}.
Arguments OutOfFuel {A}.

Definition M (A : Type) : Type := world -> result A.

Definition ret {A : Type} (a : A) : M A := fun w => Ok a w.

Definition bind {A B : Type} (m : M A) (k : A -> M B) : M B :=
  fun w =>
    match m w with
    | Ok a w' => k a w'
    | Fault => Fault
    | OutOfFuel => OutOfFuel
    end.

Definition fault {A : Type} : M A := fun _ => Fault.

Definition out_of_fuel {A : Type} : M A := fun _ => OutOfFuel.

Declare Scope io_scope.
Delimit Scope io_scope with io.
Notation "x <- m ;; k" := (bind m (fun x => k))
  (at level 100, m at next level, right associativity) : io_scope.
Notation "' pat <- m ;; k" := (bind m (fun x => match x with pat => k end))
  (at level 100, pat pattern, m at next level, right associativity) : io_scope.
Notation "m ;; k" := (bind m (fun _ => k))
  (at level 100, right associativity) : io_scope.
Open Scope io_scope.

(** [if(cond) stmt;] *)
Definition when (cond : bool) (m : M unit) : M unit :=
  if cond then m else ret tt.

(** ** Primitive calls *)

(** An integer-valued call: the environment's next answer, and a failure
    ([-1]) once it has no more answers. *)
Definition next_result (w : world) : Z := hd (-1) (os_results w).

Definition sys (c : call) : M Z :=
  fun w =>
    Ok (next_result w)
       {| os_results := tl (os_results w);
          incoming := incoming w;
          fifo_reads := fifo_reads w;
          trace := trace w ++ [Called c (next_result w)];
          console := console w |}.

(** [recv(sockfd, &symbol, 1, 0)]: the status and the content of [symbol]
    afterwards.  A drained connection is at end of file. *)
Definition next_incoming (w : world) : recv_event := hd RecvEof (incoming w).

Definition recv (sockfd : Z) (symbol : byte) : M (Z * byte) :=
  fun w =>
    let e := next_incoming w in
    Ok (match e with
        | RecvByte b => (1, b)
        | RecvEof => (0, symbol)
        | RecvError => (-1, symbol)
        end)
       {| os_results := os_results w;
          incoming := tl (incoming w);
          fifo_reads := fifo_reads w;
          trace := trace w ++ [Received sockfd e];
          console := console w |}.

(** [info_print] and [error_print] (debug.h) only write to the terminal. *)
Definition info_print (message : string) : M unit :=
  fun w =>
    Ok tt {| os_results := os_results w;
             incoming := incoming w;
             fifo_reads := fifo_reads w;
             trace := trace w;
             console := console w ++ [message] |}.

Definition error_print (message : string) : M unit := info_print message.

(** [buffer_read] and [buffer_write] belong to this repository but their
    file is not among the sources.  They are taken as calls into the
    environment: [buffer_read] answers with a return value and with bytes
    that it leaves at the start of the buffer (at most [size] of them, the
    buffer keeps its length); [buffer_write] answers with a return value. *)
Definition next_fifo_read (w : world) : Z * list byte :=
  hd (0, []) (fifo_reads w).

Definition overlay (data buffer : list byte) : list byte :=
  firstn (List.length buffer) (data ++ skipn (List.length data) buffer).

Definition buffer_read (fd : Z) (buffer : list byte) (size : nat)
  : M (Z * list byte) :=
  fun w =>
    let '(r, data) := next_fifo_read w in
    Ok (r, overlay (firstn size data) buffer)
       {| os_results := os_results w;
          incoming := incoming w;
          fifo_reads := tl (fifo_reads w);
          trace := trace w ++ [BufferRead fd size r data];
          console := console w |}.

Definition buffer_write (fd : Z) (buffer : list byte) (size : nat) : M Z :=
  sys (call_buffer_write fd buffer size).

(** ** socket.c *)

Definition sockaddr_create (sockfd : Z) (address : string) (port : Z)
    (debug : bool) : M sockaddr_in :=
  addr <- (if (String.length address =? 0)%nat then
             r <- sys (sys_getsockname sockfd) ;;
             when (r =? -1)
               (when debug (error_print "Failed to get sock name: %s")) ;;
             ret (sockname sockfd)
           else ret (inet_addr address)) ;;
  ret {| sin_family := AF_INET; sin_port := htons port; sin_addr := addr |}.

Definition socket_bind (sockfd : Z) (address : string) (port : Z)
    (debug : bool) : M Z :=
  addr <- sockaddr_create sockfd address port debug ;;
  when debug (info_print "Binding socket (%s:%d)") ;;
  r <- sys (sys_bind sockfd addr) ;;
  if r =? -1 then
    when debug (error_print "Failed to bind socket (%s:%d): %s") ;;
    ret (-1)
  else
    when debug (info_print "Binded socket (%s:%d)") ;;
    ret 0.

Definition socket_listen (sockfd backlog : Z) (debug : bool) : M Z :=
  when debug (info_print "Start listen to socket") ;;
  r <- sys (sys_listen sockfd backlog) ;;
  if r =? -1 then
    when debug (error_print "Failed to listen to socket: %s") ;;
    ret (-1)
  else
    when debug (info_print "Listening to socket") ;;
    ret 0.

Definition socket_create (debug : bool) : M Z :=
  when debug (info_print "Creating socket") ;;
  sockfd <- sys sys_socket ;;
  if sockfd =? -1 then
    when debug (error_print "Failed to create socket: %s") ;;
    ret (-1)
  else
    when debug (info_print "Created socket (%d)") ;;
    ret sockfd.

(** [socket_close(int* sockfd, bool debug)]: the status and the value of
    [*sockfd] afterwards. *)
Definition socket_close (sockfd : Z) (debug : bool) : M (Z * Z) :=
  if sockfd =? -1 then ret (0, sockfd)
  else
    when debug (info_print "Closing socket (%d)") ;;
    r <- sys (sys_close sockfd) ;;
    if r =? -1 then
      when debug (error_print "Failed to close socket: %s") ;;
      ret (-1, sockfd)
    else
      when debug (info_print "Closed socket") ;;
      ret (0, -1).

Definition server_socket_create (address : string) (port : Z) (debug : bool)
  : M Z :=
  servfd <- socket_create debug ;;
  if servfd =? -1 then ret (-1)
  else
    b <- socket_bind servfd address port debug ;;
    l <- (if b =? -1 then ret (-1) else socket_listen servfd 1 debug) ;;
    if l =? -1 then
      socket_close servfd debug ;;
      ret (-1)
    else ret servfd.

Definition socket_connect (sockfd : Z) (address : string) (port : Z)
    (debug : bool) : M Z :=
  addr <- sockaddr_create sockfd address port debug ;;
  when debug (info_print "Connecting socket (%s:%d)") ;;
  r <- sys (sys_connect sockfd addr) ;;
  if r =? -1 then
    when debug (error_print "Failed to connect socket (%s:%d): %s") ;;
    ret (-1)
  else
    when debug (info_print "Connected socket (%s:%d)") ;;
    ret 0.

Definition client_socket_create (address : string) (port : Z) (debug : bool)
  : M Z :=
  sockfd <- socket_create debug ;;
  if sockfd =? -1 then ret (-1)
  else
    c <- socket_connect sockfd address port debug ;;
    if c =? -1 then
      socket_close sockfd debug ;;
      ret (-1)
    else ret sockfd.

Definition socket_accept (servfd : Z) (address : string) (port : Z)
    (debug : bool) : M Z :=
  _ <- sockaddr_create servfd address port debug ;;
  when debug (info_print "Accepting socket") ;;
  sockfd <- sys (sys_accept servfd) ;;
  if sockfd =? -1 then
    when debug (error_print "Failed to accept socket: %s") ;;
    ret (-1)
  else
    when debug (info_print "Accepted socket (%d)") ;;
    ret sockfd.

(** [client_or_server_socket_create(&sockfd, &servfd, ...)]: the status and
    the values of [*sockfd] and [*servfd] afterwards. *)
Definition client_or_server_socket_create (sockfd servfd : Z)
    (address : string) (port : Z) (debug : bool) : M (Z * Z * Z) :=
  sockfd <- client_socket_create address port debug ;;
  if negb (sockfd =? -1) then ret (0, sockfd, servfd)
  else
    servfd <- server_socket_create address port debug ;;
    if servfd =? -1 then ret (1, sockfd, servfd)
    else
      sockfd <- socket_accept servfd address port debug ;;
      if negb (sockfd =? -1) then ret (0, sockfd, servfd)
      else
        '(_, servfd) <- socket_close servfd debug ;;
        ret (2, sockfd, servfd).

(** The [for] loop of [socket_read]; [remaining] is [size - index], so the
    test [index < size] is the match on it. *)
Fixpoint socket_read_loop (remaining : nat) (sockfd : Z) (index : nat)
    (symbol : byte) (buffer : list byte) : M (Z * list byte) :=
  match remaining with
  | O => ret (Z.of_nat index, buffer)
  | S remaining' =>
      if Byte.eqb symbol NEWLINE then ret (Z.of_nat index, buffer)
      else
        '(status, symbol) <- recv sockfd symbol ;;
        if status =? -1 then ret (-1, buffer)
        else
          match store buffer index symbol with
          | None => fault
          | Some buffer =>
              if status =? 0 then ret (0, buffer)
              else socket_read_loop remaining' sockfd (S index) symbol buffer
          end
  end.

(** [socket_read(sockfd, buffer, size)]: the return value and the buffer. *)
Definition socket_read (sockfd : Z) (buffer : list byte) (size : nat)
  : M (Z * list byte) :=
  socket_read_loop size sockfd 0 NUL buffer.

(** The [for] loop of [socket_write]. *)
Fixpoint socket_write_loop (remaining : nat) (sockfd : Z)
    (buffer : list byte) (index : nat) : M Z :=
  match remaining with
  | O => ret (Z.of_nat index)
  | S remaining' =>
      match nth_error buffer index with
      | None => fault
      | Some symbol =>
          status <- sys (sys_send sockfd symbol) ;;
          if status =? -1 then ret (-1)
          else if status =? 0 then ret 0
          else if is_terminator symbol then ret (Z.of_nat index)
          else socket_write_loop remaining' sockfd buffer (S index)
      end
  end.

Definition socket_write (sockfd : Z) (buffer : list byte) (size : nat)
  : M Z :=
  socket_write_loop size sockfd buffer 0.

(** ** procom.c *)

(** [struct args], as the option parser leaves it.  A null [char*] is
    [None]; an unset port is [-1]. *)
Record struct_args : Type := {
  arg_list : list string;
  stdin_path : option string;
  stdout_path : option string;
  address : option string;
  port : Z;
  reverse : bool;
  debug : bool
}.

(** The global variables of procom.c. *)
Record state : Type := {
  stdin_running : bool;
  stdout_running : bool;
  sockfd : Z;
  servfd : Z;
  fifo_reverse : bool;
  stdin_fifo : Z;
  stdout_fifo : Z;
  args : struct_args
}.

Definition set_stdin_running (b : bool) (g : state) : state :=
  {| stdin_running := b; stdout_running := stdout_running g;
     sockfd := sockfd g; servfd := servfd g; fifo_reverse := fifo_reverse g;
     stdin_fifo := stdin_fifo g; stdout_fifo := stdout_fifo g;
     args := args g |}.

Definition set_stdout_running (b : bool) (g : state) : state :=
  {| stdin_running := stdin_running g; stdout_running := b;
     sockfd := sockfd g; servfd := servfd g; fifo_reverse := fifo_reverse g;
     stdin_fifo := stdin_fifo g; stdout_fifo := stdout_fifo g;
     args := args g |}.

Definition set_sockets (s v : Z) (g : state) : state :=
  {| stdin_running := stdin_running g; stdout_running := stdout_running g;
     sockfd := s; servfd := v; fifo_reverse := fifo_reverse g;
     stdin_fifo := stdin_fifo g; stdout_fifo := stdout_fifo g;
     args := args g |}.

Definition set_fifos (i o : Z) (g : state) : state :=
  {| stdin_running := stdin_running g; stdout_running := stdout_running g;
     sockfd := sockfd g; servfd := servfd g; fifo_reverse := fifo_reverse g;
     stdin_fifo := i; stdout_fifo := o;
     args := args g |}.

Definition set_address_port (a : option string) (p : Z) (g : state) : state :=
  {| stdin_running := stdin_running g; stdout_running := stdout_running g;
     sockfd := sockfd g; servfd := servfd g; fifo_reverse := fifo_reverse g;
     stdin_fifo := stdin_fifo g; stdout_fifo := stdout_fifo g;
     args := {| arg_list := arg_list (args g);
                stdin_path := stdin_path (args g);
                stdout_path := stdout_path (args g);
                address := a; port := p;
                reverse := reverse (args g); debug := debug (args g) |} |}.

(** [fd != -1] *)
Definition is_open (fd : Z) : bool := negb (fd =? -1).

Definition stdin_thread_read (g : state) (buffer : list byte) (size : nat)
  : M (Z * list byte) :=
  if is_open (stdin_fifo g) && is_open (sockfd g) then
    buffer_read (stdin_fifo g) buffer size
  else
    buffer_read 0 buffer size.

Definition stdin_thread_write (g : state) (buffer : list byte) (size : nat)
  : M Z :=
  if is_open (stdin_fifo g) && is_open (sockfd g) then
    when (debug (args g))
      (info_print "Forwared message [stdin fifo] => [socket]") ;;
    socket_write (sockfd g) buffer size
  else if is_open (stdout_fifo g) then
    buffer_write (stdout_fifo g) buffer size
  else if is_open (sockfd g) then
    socket_write (sockfd g) buffer size
  else
    buffer_write 1 buffer size.

Definition stdout_thread_read (g : state) (buffer : list byte) (size : nat)
  : M (Z * list byte) :=
  if is_open (stdin_fifo g) && is_open (sockfd g) then
    socket_read (sockfd g) buffer size
  else if is_open (sockfd g) then
    socket_read (sockfd g) buffer size
  else if is_open (stdin_fifo g) then
    buffer_read (stdin_fifo g) buffer size
  else ret (-1, buffer).

Definition stdout_thread_write (g : state) (buffer : list byte) (size : nat)
  : M Z :=
  if is_open (stdout_fifo g) && is_open (sockfd g) then
    when (debug (args g))
      (info_print "Forwared message [socket] => [stdout fifo]") ;;
    buffer_write (stdout_fifo g) buffer size
  else
    buffer_write 1 buffer size.

(** [sizeof(buffer)] for [char buffer[1024]]. *)
Definition BUFFER_SIZE : nat := 1024.

(** The two routines run the same [while] loop, each over its own read and
    write function:
[[
    while(thread_read(buffer, sizeof(buffer) - 1) > 0)
    {
      thread_write(buffer, sizeof(buffer) - 1);
      memset(buffer, '\0', sizeof(buffer));
    }
]]
    [transfer_step] is one test of the loop condition, with the body when
    it holds; the answer tells whether the loop goes on.  The loop has no
    bound of its own; the model runs it for at most [fuel] iterations. *)
Definition transfer_step
    (thread_read : list byte -> nat -> M (Z * list byte))
    (thread_write : list byte -> nat -> M Z)
    (buffer : list byte) : M bool :=
  '(n, buffer) <- thread_read buffer (BUFFER_SIZE - 1)%nat ;;
  if 0 <? n then
    _ <- thread_write buffer (BUFFER_SIZE - 1)%nat ;;
    ret true
  else ret false.

Fixpoint transfer_loop
    (thread_read : list byte -> nat -> M (Z * list byte))
    (thread_write : list byte -> nat -> M Z)
    (fuel : nat) (buffer : list byte) : M unit :=
  match fuel with
  | O => out_of_fuel
  | S fuel' =>
      again <- transfer_step thread_read thread_write buffer ;;
      if again then
        transfer_loop thread_read thread_write fuel' (memset_zero BUFFER_SIZE)
      else ret tt
  end.

(** [stdout_routine]: the globals as the routine leaves them. *)
Definition stdout_routine (fuel : nat) (g : state) : M state :=
  if (stdin_fifo g =? -1) && (sockfd g =? -1) then ret g
  else
    when (debug (args g)) (info_print "start of stdout routine") ;;
    let g := set_stdout_running true g in
    transfer_loop (stdout_thread_read g) (stdout_thread_write g)
      fuel (memset_zero BUFFER_SIZE) ;;
    when (debug (args g)) (info_print "killing stdin routine...") ;;
    _ <- sys (sys_pthread_kill stdin_thread SIGUSR1) ;;
    let g := set_stdout_running false g in
    when (debug (args g)) (info_print "end of stdout routine") ;;
    ret g.

Definition stdin_routine (fuel : nat) (g : state) : M state :=
  when (debug (args g)) (info_print "start of stdin routine") ;;
  let g := set_stdin_running true g in
  transfer_loop (stdin_thread_read g) (stdin_thread_write g)
    fuel (memset_zero BUFFER_SIZE) ;;
  when (debug (args g)) (info_print "killing stdout routine...") ;;
  _ <- sys (sys_pthread_kill stdout_thread SIGUSR1) ;;
  let g := set_stdin_running false g in
  when (debug (args g)) (info_print "end of stdin routine") ;;
  ret g.

(** [signals_handler_setup]: three [sigaction] calls, results ignored. *)
Definition signals_handler_setup : M unit :=
  _ <- sys (sys_sigaction SIGPIPE) ;;
  _ <- sys (sys_sigaction SIGINT) ;;
  _ <- sys (sys_sigaction SIGUSR1) ;;
  ret tt.

(** A collaborator that returns: it answers and leaves a world behind. *)
Definition returning (A : Type) : Type := world -> A * world.

Definition run {A : Type} (f : returning A) : M A :=
  fun w => let '(a, w') := f w in Ok a w'.

Section Main.

(** Declared in procom.h and its companions, which are not among the
    sources: the two defaults, the FIFO opener and closers, and the
    function that starts both threads and waits for them.  The FIFO
    functions answer with a status and the descriptors they leave behind;
    starting the threads can leave any globals behind. *)
Variable DEFAULT_ADDRESS : string.
Variable DEFAULT_PORT : Z.
Variable stdin_stdout_fifo_open :
  Z -> option string -> Z -> option string -> bool -> bool ->
  returning (Z * Z * Z).
Variable stdin_stdout_thread_start : state -> bool -> returning state.
Variable stdin_fifo_close : Z -> bool -> returning (Z * Z).
Variable stdout_fifo_close : Z -> bool -> returning (Z * Z).

(** [try_socket_create]: the status and the globals afterwards. *)
Definition try_socket_create (g : state) : M (Z * state) :=
  if match address (args g) with None => true | Some _ => false end
     && (port (args g) =? -1)
  then ret (0, g)
  else
    let a := match address (args g) with
             | None => DEFAULT_ADDRESS
             | Some a => a
             end in
    let p := if port (args g) =? -1 then DEFAULT_PORT else port (args g) in
    let g := set_address_port (Some a) p g in
    '(status, s, v) <-
      client_or_server_socket_create (sockfd g) (servfd g) a p
        (debug (args g)) ;;
    let g := set_sockets s v g in
    if negb (status =? 0) then ret (1, g) else ret (0, g).

(** [main], after [argp_parse] has filled [args] and [fifo_reverse]:
    the exit status and the globals at exit.  The final [free] of the
    argument array touches nothing that is modelled. *)
Definition main (g : state) : M (Z * state) :=
  signals_handler_setup ;;
  '(created, g) <- try_socket_create g ;;
  g <- (if created =? 0 then
          '(opened, i, o) <-
            run (stdin_stdout_fifo_open (stdin_fifo g) (stdin_path (args g))
                   (stdout_fifo g) (stdout_path (args g))
                   (fifo_reverse g) (debug (args g))) ;;
          let g := set_fifos i o g in
          if opened =? 0 then
            run (stdin_stdout_thread_start g (debug (args g)))
          else ret g
        else ret g) ;;
  '(_, o) <- run (stdout_fifo_close (stdout_fifo g) (debug (args g))) ;;
  let g := set_fifos (stdin_fifo g) o g in
  '(_, i) <- run (stdin_fifo_close (stdin_fifo g) (debug (args g))) ;;
  let g := set_fifos i (stdout_fifo g) g in
  '(_, s) <- socket_close (sockfd g) (debug (args g)) ;;
  let g := set_sockets s (servfd g) g in
  '(_, v) <- socket_close (servfd g) (debug (args g)) ;;
  let g := set_sockets (sockfd g) v g in
  ret (0, g).

End Main.

(** ** Vocabulary of the specification *)

(** *** Endpoints (spec, sections 3 and 4.2) *)

Inductive source : Type := Terminal_input | FIFO_in | Socket_source.

Inductive sink : Type := Terminal_output | FIFO_out | Socket_sink.

(** How the program reaches each endpoint: the terminal is descriptor 0 for
    input and 1 for output, both through the buffer functions, as the FIFOs
    are; the socket has its own read and write. *)
Definition read_from (g : state) (e : source) (buffer : list byte)
    (size : nat) : M (Z * list byte) :=
  match e with
  | Terminal_input => buffer_read 0 buffer size
  | FIFO_in => buffer_read (stdin_fifo g) buffer size
  | Socket_source => socket_read (sockfd g) buffer size
  end.

Definition write_to (g : state) (e : sink) (buffer : list byte) (size : nat)
  : M Z :=
  match e with
  | Terminal_output => buffer_write 1 buffer size
  | FIFO_out => buffer_write (stdout_fifo g) buffer size
  | Socket_sink => socket_write (sockfd g) buffer size
  end.

(** The selection table of section 4.2, word for word. *)
Definition table_upload_source (fifo_in fifo_out socket : bool) : source :=
  if fifo_in && socket then FIFO_in else Terminal_input.

Definition table_upload_sink (fifo_in fifo_out socket : bool) : sink :=
  if fifo_in && socket then Socket_sink
  else if fifo_out then FIFO_out
  else if socket then Socket_sink
  else Terminal_output.

(** [None]: the download loop does not run. *)
Definition table_download_source (fifo_in fifo_out socket : bool)
  : option source :=
  if socket then Some Socket_source
  else if fifo_in && negb socket then Some FIFO_in
  else None.

Definition table_download_sink (fifo_in fifo_out socket : bool) : sink :=
  if fifo_out && socket then FIFO_out else Terminal_output.

(** What a run did to the environment, the debug console left aside. *)
Definition effect {A : Type} (r : result A)
  : option (A * (list Z * list recv_event * list (Z * list byte))
              * list event) :=
  match r with
  | Ok a w => Some (a, (os_results w, incoming w, fifo_reads w), trace w)
  | Fault => None
  | OutOfFuel => None
  end.

(** *** Lines *)

(** The unit the spec puts on the wire: the segment up to and including its
    first null or newline byte, the whole segment when it has none. *)
Fixpoint wire_unit (segment : list byte) : list byte :=
  match segment with
  | [] => []
  | b :: rest => if is_terminator b then [b] else b :: wire_unit rest
  end.

(** The bytes in front of the first null or newline byte. *)
Fixpoint payload (segment : list byte) : list byte :=
  match segment with
  | [] => []
  | b :: rest => if is_terminator b then [] else b :: payload rest
  end.

(** What the spec says one read takes from a stream: the bytes up to and
    including the first newline or null byte, and no more than [size]. *)
Fixpoint spec_read_span (size : nat) (stream : list byte) : list byte :=
  match size, stream with
  | O, _ => []
  | _, [] => []
  | S size', b :: rest =>
      if is_terminator b then [b] else b :: spec_read_span size' rest
  end.

(** What the spec has a relay step forward of a line: the line, cut at the
    1023-byte boundary when it is longer. *)
Definition spec_truncated (line : list byte) : list byte := firstn 1023 line.

(** The same with the newline as the only stop. *)
Fixpoint read_span (size : nat) (stream : list byte) : list byte :=
  match size, stream with
  | O, _ => []
  | _, [] => []
  | S size', b :: rest =>
      if Byte.eqb b NEWLINE then [b] else b :: read_span size' rest
  end.

(** [line] ends a read of at most [size] bytes: it ends in the first newline
    it has, or it has no newline and fills the [size] bytes. *)
Fixpoint is_read_unit (size : nat) (line : list byte) : bool :=
  match size, line with
  | O, [] => true
  | O, _ :: _ => false
  | S _, [] => false
  | S size', b :: rest =>
      if Byte.eqb b NEWLINE then
        match rest with [] => true | _ :: _ => false end
      else is_read_unit size' rest
  end.

(** *** Reading traces *)

(** The answer of a call that did not fail: [send] is tested against [-1]
    and [0], the other calls against [-1]. *)
Definition send_went_through (status : Z) : Prop := status <> -1 /\ status <> 0.

Definition sends (sockfd : Z) (symbols : list byte) (answers : list Z)
  : list event :=
  map (fun p => Called (sys_send sockfd (fst p)) (snd p))
      (combine symbols answers).

Definition receptions (sockfd : Z) (symbols : list byte) : list event :=
  map (fun b => Received sockfd (RecvByte b)) symbols.

(** The bytes handed to [send] on a socket, in order. *)
Fixpoint sent_bytes (sockfd : Z) (events : list event) : list byte :=
  match events with
  | [] => []
  | Called (sys_send fd symbol) _ :: rest =>
      if fd =? sockfd then symbol :: sent_bytes sockfd rest
      else sent_bytes sockfd rest
  | _ :: rest => sent_bytes sockfd rest
  end.

Definition is_bind (e : event) : bool :=
  match e with Called (sys_bind _ _) _ => true | _ => false end.

Definition is_listen (e : event) : bool :=
  match e with Called (sys_listen _ _) _ => true | _ => false end.

Definition is_accept (e : event) : bool :=
  match e with Called (sys_accept _) _ => true | _ => false end.

(** An event of the server role. *)
Definition is_server_call (e : event) : bool :=
  is_bind e || is_listen e || is_accept e.

(** A [bind] or a [listen] that answered [-1]. *)
Definition bind_or_listen_failed (e : event) : bool :=
  match e with
  | Called (sys_bind _ _) r => r =? -1
  | Called (sys_listen _ _) r => r =? -1
  | _ => false
  end.

(** A [listen] that did not answer [-1]. *)
Definition listen_succeeded (e : event) : bool :=
  match e with
  | Called (sys_listen _ _) r => negb (r =? -1)
  | _ => false
  end.

(** A [listen] with another backlog than 1. *)
Definition listen_backlog_not_1 (e : event) : bool :=
  match e with
  | Called (sys_listen _ backlog) _ => negb (backlog =? 1)
  | _ => false
  end.

(** A read of a transfer loop's source that ends the loop: a [buffer_read]
    with a result that is not positive, or a [recv] at end of file or in
    error, which make [socket_read] return 0 or -1. *)
Definition read_failed (e : event) : bool :=
  match e with
  | BufferRead _ _ r _ => r <=? 0
  | Received _ RecvEof => true
  | Received _ RecvError => true
  | _ => false
  end.

(** *** Closing again and again *)

(** [n] calls of [socket_close] on the same handle, one after the other:
    their statuses, and the handle at the end. *)
Fixpoint socket_close_times (n : nat) (sockfd : Z) (debug : bool)
  : M (list Z * Z) :=
  match n with
  | O => ret ([], sockfd)
  | S n' =>
      '(status, sockfd) <- socket_close sockfd debug ;;
      '(statuses, sockfd) <- socket_close_times n' sockfd debug ;;
      ret (status :: statuses, sockfd)
  end.

(** ** Vocabulary of the proofs *)

(** A computation that comes back with a value from every world. *)
Definition returns {A : Type} (m : M A) : Prop :=
  forall w, exists a w', m w = Ok a w'.

(** A world at the start of a run: the answers the environment will give,
    nothing called and nothing printed yet. *)
Definition world_with (os : list Z) (rx : list recv_event)
    (fifo : list (Z * list byte)) : world :=
  {| os_results := os; incoming := rx; fifo_reads := fifo;
     trace := []; console := [] |}.

(** The world after calls that took their answers from the front of
    [os_results], leaving [rest]. *)
Definition after_calls (w : world) (events : list event) (rest : list Z)
  : world :=
  {| os_results := rest;
     incoming := incoming w;
     fifo_reads := fifo_reads w;
     trace := trace w ++ events;
     console := console w |}.

(** The world after receptions that took [incoming] down to [rest]. *)
Definition after_receptions (w : world) (events : list event)
    (rest : list recv_event) : world :=
  {| os_results := os_results w;
     incoming := rest;
     fifo_reads := fifo_reads w;
     trace := trace w ++ events;
     console := console w |}.

(** The address structure [sockaddr_create] builds for a descriptor. *)
Definition sockaddr_for (address : string) (port : Z) (sockfd : Z)
  : sockaddr_in :=
  {| sin_family := AF_INET;
     sin_port := htons port;
     sin_addr := if (String.length address =? 0)%nat then sockname sockfd
                 else inet_addr address |}.

(** [w'] is [w] after the calls [events]; the socket stream and the FIFO
    reads are untouched. *)
Definition advances (w w' : world) (events : list event) : Prop :=
  trace w' = trace w ++ events
  /\ incoming w' = incoming w
  /\ fifo_reads w' = fifo_reads w.

(** The calls [sockaddr_create] makes: none, or one [getsockname]. *)
Inductive naming (sockfd : Z) : list event -> Prop :=
| naming_given : naming sockfd []
| naming_asked (g : Z) : naming sockfd [Called (sys_getsockname sockfd) g].

(** The runs of [client_socket_create]: its result and its calls. *)
Inductive client_run (address : string) (port : Z) : Z -> list event -> Prop :=
| client_no_socket :
    client_run address port (-1) [Called sys_socket (-1)]
| client_refused (s : Z) (pre : list event) (r : Z) :
    s <> -1 -> naming s pre ->
    client_run address port (-1)
      (Called sys_socket s
         :: pre ++ [Called (sys_connect s (sockaddr_for address port s)) (-1);
                    Called (sys_close s) r])
| client_connected (s : Z) (pre : list event) (c : Z) :
    s <> -1 -> c <> -1 -> naming s pre ->
    client_run address port s
      (Called sys_socket s
         :: pre ++ [Called (sys_connect s (sockaddr_for address port s)) c]).

(** The runs of [server_socket_create]. *)
Inductive server_run (address : string) (port : Z) : Z -> list event -> Prop :=
| server_no_socket :
    server_run address port (-1) [Called sys_socket (-1)]
| server_bind_failed (s : Z) (pre : list event) (r : Z) :
    s <> -1 -> naming s pre ->
    server_run address port (-1)
      (Called sys_socket s
         :: pre ++ [Called (sys_bind s (sockaddr_for address port s)) (-1);
                    Called (sys_close s) r])
| server_listen_failed (s : Z) (pre : list event) (b r : Z) :
    s <> -1 -> b <> -1 -> naming s pre ->
    server_run address port (-1)
      (Called sys_socket s
         :: pre ++ [Called (sys_bind s (sockaddr_for address port s)) b;
                    Called (sys_listen s 1) (-1);
                    Called (sys_close s) r])
| server_listening (s : Z) (pre : list event) (b l : Z) :
    s <> -1 -> b <> -1 -> l <> -1 -> naming s pre ->
    server_run address port s
      (Called sys_socket s
         :: pre ++ [Called (sys_bind s (sockaddr_for address port s)) b;
                    Called (sys_listen s 1) l]).

(** The runs of [socket_accept]. *)
Inductive accept_run (servfd : Z) : Z -> list event -> Prop :=
| accept_answered (pre : list event) (r : Z) :
    naming servfd pre ->
    accept_run servfd r (pre ++ [Called (sys_accept servfd) r]).

(** The runs of [socket_close]: status, handle afterwards, calls. *)
Inductive close_run (fd : Z) : Z * Z -> list event -> Prop :=
| close_nothing : fd = -1 -> close_run fd (0, fd) []
| close_failed : fd <> -1 -> close_run fd (-1, fd) [Called (sys_close fd) (-1)]
| close_done (r : Z) :
    fd <> -1 -> r <> -1 -> close_run fd (0, -1) [Called (sys_close fd) r].

(** The runs of [client_or_server_socket_create], in two parts: the calls of
    the client attempt, and the calls after it. *)
Inductive resolution_run (address : string) (port : Z) (servfd0 : Z)
  : Z -> Z * Z * Z -> list event -> list event -> Prop :=
| resolved_as_client (s : Z) (attempt : list event) :
    s <> -1 -> client_run address port s attempt ->
    resolution_run address port servfd0 s (0, s, servfd0) attempt []
| resolved_no_server (attempt later : list event) :
    client_run address port (-1) attempt ->
    server_run address port (-1) later ->
    resolution_run address port servfd0 (-1) (1, -1, -1) attempt later
| resolved_as_server (attempt serving accepting : list event) (l s : Z) :
    client_run address port (-1) attempt ->
    l <> -1 -> server_run address port l serving ->
    s <> -1 -> accept_run l s accepting ->
    resolution_run address port servfd0 (-1) (0, s, l) attempt
      (serving ++ accepting)
| resolved_accept_failed (attempt serving accepting closing : list event)
    (l status v : Z) :
    client_run address port (-1) attempt ->
    l <> -1 -> server_run address port l serving ->
    accept_run l (-1) accepting ->
    close_run l (status, v) closing ->
    resolution_run address port servfd0 (-1) (2, -1, v) attempt
      (serving ++ accepting ++ closing).

(** A [connect], whatever its answer. *)
Definition is_connect (e : event) : bool :=
  match e with Called (sys_connect _ _) _ => true | _ => false end.

(** A [connect] or a [bind] is to [address:port]. *)
Definition addressed_to (address : string) (port : Z) (e : event) : Prop :=
  match e with
  | Called (sys_connect fd addr) _ => addr = sockaddr_for address port fd
  | Called (sys_bind fd addr) _ => addr = sockaddr_for address port fd
  | _ => True
  end.

(** What the environment still has to deliver to reads. *)
Definition pending (w : world) : nat :=
  (List.length (incoming w) + List.length (fifo_reads w))%nat.

(** A run of calls none of which is a failed read. *)
Definition quiet (events : list event) : Prop :=
  existsb read_failed events = false.

(** A run of calls that ends in the first failed read. *)
Definition ends_in_failed_read (events : list event) : Prop :=
  exists (before : list event) (e : event),
    events = before ++ [e] /\ read_failed e = true /\ quiet before.

(** One read of a transfer loop, on the loop's buffer: it comes back; when
    it returns a positive number none of its calls was a failed read and
    the environment has less to deliver; otherwise its last call was a
    failed read, and the only one. *)
Definition read_step_ok
    (thread_read : list byte -> nat -> M (Z * list byte)) : Prop :=
  forall (buffer : list byte) (w : world),
    List.length buffer = BUFFER_SIZE ->
    exists (n : Z) (buffer' : list byte) (w' : world) (events : list event),
      thread_read buffer 1023%nat w = Ok (n, buffer') w'
      /\ trace w' = trace w ++ events
      /\ List.length buffer' = BUFFER_SIZE
      /\ (((0 <? n) = true /\ quiet events /\ (pending w' < pending w)%nat)
          \/ ((0 <? n) = false /\ ends_in_failed_read events)).

(** One write of a transfer loop: it comes back, and it reads nothing. *)
Definition write_step_ok (thread_write : list byte -> nat -> M Z) : Prop :=
  forall (buffer : list byte) (w : world),
    List.length buffer = BUFFER_SIZE ->
    exists (r : Z) (w' : world) (events : list event),
      thread_write buffer 1023%nat w = Ok r w'
      /\ trace w' = trace w ++ events
      /\ quiet events
      /\ pending w' = pending w.

(** Globals of a session with the given descriptors, threads not started. *)
Definition session (stdin_fd stdout_fd sock serv : Z) (verbose : bool)
  : state :=
  {| stdin_running := false; stdout_running := false;
     sockfd := sock; servfd := serv; fifo_reverse := false;
     stdin_fifo := stdin_fd; stdout_fifo := stdout_fd;
     args := {| arg_list := []; stdin_path := None; stdout_path := None;
                address := None; port := -1; reverse := false;
                debug := verbose |} |}.

(** ** The rest of procom.c *)

Section Coordinator.

(** The two FIFO closers are declared in a header that is not among the
    sources; as in [main] they are taken as functions that return a status
    and the descriptor they leave in the handle. *)
Variable stdin_fifo_close : Z -> bool -> returning (Z * Z).
Variable stdout_fifo_close : Z -> bool -> returning (Z * Z).

(** [fifos_socket_close]: the globals afterwards. *)
Definition fifos_socket_close (g : state) : M state :=
  '(_, o) <- run (stdout_fifo_close (stdout_fifo g) (debug (args g))) ;;
  let g := set_fifos (stdin_fifo g) o g in
  '(_, i) <- run (stdin_fifo_close (stdin_fifo g) (debug (args g))) ;;
  let g := set_fifos i (stdout_fifo g) g in
  '(_, s) <- socket_close (sockfd g) (debug (args g)) ;;
  let g := set_sockets s (servfd g) g in
  '(_, v) <- socket_close (servfd g) (debug (args g)) ;;
  let g := set_sockets (sockfd g) v g in
  ret g.

(** [if(running) pthread_kill(thread, SIGUSR1);] *)
Definition kill_if (running : bool) (target : thread) : M unit :=
  if running then _ <- sys (sys_pthread_kill target SIGUSR1) ;; ret tt
  else ret tt.

Definition sigint_handler (signum : Z) (g : state) : M state :=
  when (debug (args g)) (info_print "Keyboard interrupt") ;;
  g <- fifos_socket_close g ;;
  kill_if (stdin_running g) stdin_thread ;;
  kill_if (stdout_running g) stdout_thread ;;
  ret g.

Definition sigpipe_handler (signum : Z) (g : state) : M state :=
  when (debug (args g)) (error_print "Pipe has been broken") ;;
  g <- fifos_socket_close g ;;
  kill_if (stdin_running g) stdin_thread ;;
  kill_if (stdout_running g) stdout_thread ;;
  ret g.

Definition sigusr1_handler (signum : Z) (g : state) : M state :=
  fifos_socket_close g.

End Coordinator.

Section Options.

(** From libc and from glibc's argp.h: the text-to-integer conversion, the
    outcome of [realloc] (whether growing the given array to the given
    number of entries succeeds), the two special keys and the two error
    codes. *)
Variable atoi : string -> Z.
Variable realloc_succeeds : list string -> nat -> bool.
Variable ARGP_KEY_ARG : Z.
Variable ARGP_KEY_END : Z.
Variable ARGP_ERR_UNKNOWN : Z.
Variable ENOMEM : Z.

(** A character constant used as a [case] label. *)
Definition key_of (c : byte) : Z := Z.of_N (Byte.to_N c).

Definition set_args (a : struct_args) (g : state) : state :=
  {| stdin_running := stdin_running g; stdout_running := stdout_running g;
     sockfd := sockfd g; servfd := servfd g; fifo_reverse := fifo_reverse g;
     stdin_fifo := stdin_fifo g; stdout_fifo := stdout_fifo g;
     args := a |}.

Definition set_fifo_reverse (b : bool) (g : state) : state :=
  {| stdin_running := stdin_running g; stdout_running := stdout_running g;
     sockfd := sockfd g; servfd := servfd g; fifo_reverse := b;
     stdin_fifo := stdin_fifo g; stdout_fifo := stdout_fifo g;
     args := args g |}.

(** The array after a successful [realloc] to [n] entries: the entries it
    had, cut or filled up to [n] (what fills it up is indeterminate; the
    empty text stands for it). *)
Definition resized (n : nat) (array : list string) : list string :=
  firstn n array ++ repeat "" (n - List.length array).

(** [opt_parse(key, arg, state)].  [arg_num] is [state->arg_num]; the
    [args] and [arg_count] fields of [struct args] are the array [arg_list]
    and the number passed along with the globals.  The answer is the error
    code, the globals and [arg_count]. *)
Definition opt_parse (key : Z) (arg : string) (arg_num : nat)
    (g : state) (arg_count : nat) : Z * state * nat :=
  let a := args g in
  if key =? key_of "i" then
    let g := if match stdout_path a with Some _ => true | None => false end
             then set_fifo_reverse true g else g in
    (0, set_args {| arg_list := arg_list a; stdin_path := Some arg;
                    stdout_path := stdout_path a; address := address a;
                    port := port a; reverse := reverse a;
                    debug := debug a |} g, arg_count)
  else if key =? key_of "o" then
    (0, set_args {| arg_list := arg_list a; stdin_path := stdin_path a;
                    stdout_path := Some arg; address := address a;
                    port := port a; reverse := reverse a;
                    debug := debug a |} g, arg_count)
  else if key =? key_of "a" then
    (0, set_args {| arg_list := arg_list a; stdin_path := stdin_path a;
                    stdout_path := stdout_path a; address := Some arg;
                    port := port a; reverse := reverse a;
                    debug := debug a |} g, arg_count)
  else if key =? key_of "p" then
    let p := atoi arg in
    (0, set_args {| arg_list := arg_list a; stdin_path := stdin_path a;
                    stdout_path := stdout_path a; address := address a;
                    port := if negb (p =? 0) then p else port a;
                    reverse := reverse a; debug := debug a |} g, arg_count)
  else if key =? key_of "r" then
    (0, set_args {| arg_list := arg_list a; stdin_path := stdin_path a;
                    stdout_path := stdout_path a; address := address a;
                    port := port a; reverse := true;
                    debug := debug a |} g, arg_count)
  else if key =? key_of "d" then
    (0, set_args {| arg_list := arg_list a; stdin_path := stdin_path a;
                    stdout_path := stdout_path a; address := address a;
                    port := port a; reverse := reverse a;
                    debug := true |} g, arg_count)
  else if key =? ARGP_KEY_ARG then
    if realloc_succeeds (arg_list a) (arg_num + 1) then
      (0, set_args {| arg_list := resized arg_num (arg_list a) ++ [arg];
                      stdin_path := stdin_path a;
                      stdout_path := stdout_path a; address := address a;
                      port := port a; reverse := reverse a;
                      debug := debug a |} g, (arg_num + 1)%nat)
    else
      (ENOMEM, set_args {| arg_list := []; stdin_path := stdin_path a;
                           stdout_path := stdout_path a;
                           address := address a; port := port a;
                           reverse := reverse a; debug := debug a |} g,
       arg_count)
  else if key =? ARGP_KEY_END then (0, g, arg_count)
  else (ARGP_ERR_UNKNOWN, g, arg_count).

(** A series of calls of [opt_parse], each with its key, its text and its
    [arg_num], whatever the caller makes of the error codes: the globals
    and [arg_count] after the last one. *)
Fixpoint opt_parse_each (calls : list (Z * string * nat)) (g : state)
    (arg_count : nat) : state * nat :=
  match calls with
  | [] => (g, arg_count)
  | (key, arg, arg_num) :: rest =>
      let '(_, g, arg_count) := opt_parse key arg arg_num g arg_count in
      opt_parse_each rest g arg_count
  end.

End Options.

(** [args.stdout_path] is not null. *)
Definition stdout_given (g : state) : bool :=
  match stdout_path (args g) with Some _ => true | None => false end.

(** Among the keys of a series of calls there is an ['i'] behind an ['o'];
    [seen] tells whether an ['o'] has come already. *)
Fixpoint stdin_after_stdout (seen : bool) (keys : list Z) : bool :=
  match keys with
  | [] => false
  | key :: rest =>
      if key =? key_of "i" then seen || stdin_after_stdout seen rest
      else if key =? key_of "o" then stdin_after_stdout true rest
      else stdin_after_stdout seen rest
  end.

(** The calls for positional arguments numbered from [first] on. *)
Fixpoint positional_calls (key : Z) (first : nat) (texts : list string)
  : list (Z * string * nat) :=
  match texts with
  | [] => []
  | text :: rest => (key, text, first) :: positional_calls key (S first) rest
  end.

(** ** Stand-ins for the absent collaborators, for worked examples *)

(** A FIFO opener that answers [status] and leaves [i] and [o]. *)
Definition opener (status i o : Z)
  : Z -> option string -> Z -> option string -> bool -> bool ->
    returning (Z * Z * Z) :=
  fun _ _ _ _ _ _ w => ((status, i, o), w).

(** A thread starter that comes back with the stdin flag at [mark]. *)
Definition starter (mark : bool) : state -> bool -> returning state :=
  fun g _ w => (set_stdin_running mark g, w).

(** A FIFO closer that succeeds. *)
Definition closer : Z -> bool -> returning (Z * Z) :=
  fun _ _ w => ((0, -1), w).

(** The globals at the start, with an address and a port given. *)
Definition session_to (a : string) (p : Z) : state :=
  set_address_port (Some a) p (session (-1) (-1) (-1) (-1) false).

(** ** More vocabulary for traces *)

Definition is_close (e : event) : bool :=
  match e with Called (sys_close _) _ => true | _ => false end.

Definition is_buffer_read (e : event) : bool :=
  match e with BufferRead _ _ _ _ => true | _ => false end.

(** The reads a loop makes of a series of answers: those up to and
    including the first that is not positive; when all are positive, the
    read after the last finds nothing and answers 0. *)
Fixpoint reads_until_failure (reads : list (Z * list byte))
  : list (Z * list byte) :=
  match reads with
  | [] => [(0, [])]
  | (r, data) :: rest =>
      if 0 <? r then (r, data) :: reads_until_failure rest else [(r, data)]
  end.

(** The loops' buffer with [line] at its start: [line] and null bytes up
    to [BUFFER_SIZE]. *)
Definition line_buffer (line : list byte) : list byte :=
  line ++ repeat NUL (BUFFER_SIZE - List.length line).

(** The buffers handed to [buffer_write], in order. *)
Fixpoint written_buffers (events : list event) : list (list byte) :=
  match events with
  | [] => []
  | Called (call_buffer_write _ buffer _) _ :: rest =>
      buffer :: written_buffers rest
  | _ :: rest => written_buffers rest
  end.

(** The descriptor the upload loop reads and the one the download loop
    writes, as the code picks them. *)
Definition upload_fd (g : state) : Z :=
  if is_open (stdin_fifo g) && is_open (sockfd g) then stdin_fifo g else 0.

Definition download_fd (g : state) : Z :=
  if is_open (stdout_fifo g) && is_open (sockfd g) then stdout_fifo g else 1.

(** * Properties *)

(** ** Basic facts *)

Lemma bind_ok {A B : Type} (m : M A) (k : A -> M B) (w w' : world) (a : A) :
  m w = Ok a w' -> bind m k w = k a w'.
Proof. intros H. unfold bind. rewrite H. reflexivity. Qed.

Lemma returns_ret {A : Type} (a : A) : returns (ret a).
Proof. intros w. exists a, w. reflexivity. Qed.

Lemma returns_bind {A B : Type} (m : M A) (k : A -> M B) :
  returns m -> (forall a, returns (k a)) -> returns (bind m k).
Proof.
  intros Hm Hk w. destruct (Hm w) as (a & w1 & E).
  destruct (Hk a w1) as (b & w2 & E2).
  exists b, w2. rewrite (bind_ok _ _ _ _ _ E). exact E2.
Qed.

Lemma returns_sys (c : call) : returns (sys c).
Proof. intros w. unfold sys. eauto. Qed.

Lemma returns_info_print (s : string) : returns (info_print s).
Proof. intros w. unfold info_print. eauto. Qed.

Lemma returns_error_print (s : string) : returns (error_print s).
Proof. apply returns_info_print. Qed.

Lemma returns_when (c : bool) (m : M unit) : returns m -> returns (when c m).
Proof. intros H. destruct c; [exact H | apply returns_ret]. Qed.

Lemma returns_if {A : Type} (c : bool) (m1 m2 : M A) :
  returns m1 -> returns m2 -> returns (if c then m1 else m2).
Proof. destruct c; auto. Qed.

Lemma returns_run {A : Type} (f : returning A) : returns (run f).
Proof. intros w. unfold run. destruct (f w) as [a w']. eauto. Qed.

Create HintDb returns_db.
#[local] Hint Resolve returns_ret returns_sys returns_info_print
  returns_error_print returns_when returns_run : returns_db.

Ltac returns_tac :=
  repeat first
    [ apply returns_bind; [ | intros ? ]
    | apply returns_if
    | match goal with |- returns (match ?x with _ => _ end) => destruct x end
    | solve [ auto with returns_db ] ].

Lemma returns_sockaddr_create fd a p d : returns (sockaddr_create fd a p d).
Proof. unfold sockaddr_create. returns_tac. Qed.
#[local] Hint Resolve returns_sockaddr_create : returns_db.

Lemma returns_socket_bind fd a p d : returns (socket_bind fd a p d).
Proof. unfold socket_bind. returns_tac. Qed.

Lemma returns_socket_listen fd b d : returns (socket_listen fd b d).
Proof. unfold socket_listen. returns_tac. Qed.

Lemma returns_socket_create d : returns (socket_create d).
Proof. unfold socket_create. returns_tac. Qed.

Lemma returns_socket_connect fd a p d : returns (socket_connect fd a p d).
Proof. unfold socket_connect. returns_tac. Qed.

Lemma returns_socket_accept fd a p d : returns (socket_accept fd a p d).
Proof. unfold socket_accept. returns_tac. Qed.

Lemma returns_socket_close fd d : returns (socket_close fd d).
Proof. unfold socket_close. returns_tac. Qed.
#[local] Hint Resolve returns_socket_bind returns_socket_listen
  returns_socket_create returns_socket_connect returns_socket_accept
  returns_socket_close : returns_db.

Lemma returns_server_socket_create a p d : returns (server_socket_create a p d).
Proof. unfold server_socket_create. returns_tac. Qed.

Lemma returns_client_socket_create a p d : returns (client_socket_create a p d).
Proof. unfold client_socket_create. returns_tac. Qed.
#[local] Hint Resolve returns_server_socket_create
  returns_client_socket_create : returns_db.

Lemma returns_client_or_server_socket_create s v a p d :
  returns (client_or_server_socket_create s v a p d).
Proof. unfold client_or_server_socket_create. returns_tac. Qed.
#[local] Hint Resolve returns_client_or_server_socket_create : returns_db.

Lemma returns_signals_handler_setup : returns signals_handler_setup.
Proof. unfold signals_handler_setup. returns_tac. Qed.
#[local] Hint Resolve returns_signals_handler_setup : returns_db.

(** ** Closing is idempotent *)

Lemma socket_close_closed (debug : bool) (w : world) :
  socket_close (-1) debug w = Ok (0, -1) w.
Proof. reflexivity. Qed.

Lemma socket_close_times_closed (n : nat) (debug : bool) (w : world) :
  socket_close_times n (-1) debug w = Ok (repeat 0 n, -1) w.
Proof.
  induction n as [|n IH]; [reflexivity|].
  cbn [socket_close_times].
  rewrite (bind_ok _ _ _ _ _ (socket_close_closed debug w)).
  cbn beta iota. rewrite (bind_ok _ _ _ _ _ IH). reflexivity.
Qed.

Lemma socket_close_success_sentinel fd debug w fd' w' :
  socket_close fd debug w = Ok (0, fd') w' -> fd' = -1.
Proof.
  unfold socket_close. destruct (Z.eqb_spec fd (-1)) as [->|Hfd].
  - intros H. inversion H. reflexivity.
  - unfold bind, when, sys, info_print, error_print, ret.
    destruct debug; cbn;
      destruct (next_result _ =? -1); cbn; intros H; inversion H; reflexivity.
Qed.

(** C7.  Once [socket_close] has closed a handle (it answered success, which
    leaves the handle at the sentinel -1), any number of further calls, with
    either debug setting, all answer success, leave the handle at -1 and do
    nothing to the environment: no system call, no message. *)
Theorem socket_close_idempotent
    (fd : Z) (debug : bool) (w w' : world) (fd' : Z) :
  socket_close fd debug w = Ok (0, fd') w' ->
  fd' = -1 /\
  forall (n : nat) (debug' : bool),
    socket_close_times n fd' debug' w' = Ok (repeat 0 n, -1) w'.
Proof.
  intros H. apply socket_close_success_sentinel in H. subst fd'.
  split; [reflexivity|]. intros n debug'. apply socket_close_times_closed.
Qed.

Lemma socket_close_idempotent_witness :
  socket_close 7 true (world_with [0] [] []) =
    Ok (0, -1)
       {| os_results := []; incoming := []; fifo_reads := [];
          trace := [Called (sys_close 7) 0];
          console := ["Closing socket (%d)"; "Closed socket"] |}
  /\ forall (n : nat) (debug' : bool),
       socket_close_times n (-1) debug'
         {| os_results := []; incoming := []; fifo_reads := [];
            trace := [Called (sys_close 7) 0];
            console := ["Closing socket (%d)"; "Closed socket"] |}
       = Ok (repeat 0 n, -1)
            {| os_results := []; incoming := []; fifo_reads := [];
               trace := [Called (sys_close 7) 0];
               console := ["Closing socket (%d)"; "Closed socket"] |}.
Proof.
  split; [reflexivity|].
  exact (proj2 (socket_close_idempotent 7 true (world_with [0] [] []) _ (-1)
                  eq_refl)).
Defined.

(** ** Source and sink selection *)

Lemma effect_when_print {A : Type} (c : bool) (s : string) (m : M A) (w : world) :
  (forall w1 w2, os_results w1 = os_results w2 -> incoming w1 = incoming w2 ->
     fifo_reads w1 = fifo_reads w2 -> trace w1 = trace w2 ->
     effect (m w1) = effect (m w2)) ->
  effect ((when c (info_print s) ;; m) w) = effect (m w).
Proof.
  intros Hm. destruct c; [|reflexivity].
  unfold bind, when, info_print. apply Hm; reflexivity.
Qed.

Lemma sys_console_blind (c : call) (w1 w2 : world) :
  os_results w1 = os_results w2 -> incoming w1 = incoming w2 ->
  fifo_reads w1 = fifo_reads w2 -> trace w1 = trace w2 ->
  effect (sys c w1) = effect (sys c w2).
Proof.
  intros H1 H2 H3 H4. unfold sys, next_result. cbn. rewrite H1, H2, H3, H4.
  reflexivity.
Qed.

Lemma socket_write_loop_console_blind remaining sockfd buffer :
  forall index w1 w2,
    os_results w1 = os_results w2 -> incoming w1 = incoming w2 ->
    fifo_reads w1 = fifo_reads w2 -> trace w1 = trace w2 ->
    effect (socket_write_loop remaining sockfd buffer index w1) =
    effect (socket_write_loop remaining sockfd buffer index w2).
Proof.
  induction remaining as [|remaining IH]; intros index w1 w2 H1 H2 H3 H4.
  - cbn. rewrite H1, H2, H3, H4. reflexivity.
  - cbn [socket_write_loop]. destruct (nth_error buffer index) as [symbol|];
      [|reflexivity].
    unfold bind, sys. cbn beta iota.
    assert (Hn : next_result w1 = next_result w2)
      by (unfold next_result; rewrite H1; reflexivity).
    rewrite Hn.
    destruct (next_result w2 =? -1);
      [cbn; rewrite H1, H2, H3, H4; reflexivity|].
    destruct (next_result w2 =? 0);
      [cbn; rewrite H1, H2, H3, H4; reflexivity|].
    destruct (is_terminator symbol);
      [cbn; rewrite H1, H2, H3, H4; reflexivity|].
    apply IH; cbn; congruence.
Qed.

(** C2.  In each of the eight configurations of open endpoints the four
    selections are those of the table: what the upload loop reads and writes
    and what the download loop reads and writes is, call for call and
    answer for answer, the read or write of the endpoint the table names;
    when the table names no download source, the download routine returns at
    once, having done nothing. *)
Theorem transfer_endpoints_follow_table
    (g : state) (buffer : list byte) (size : nat) (w : world) :
  let fifo_in := is_open (stdin_fifo g) in
  let fifo_out := is_open (stdout_fifo g) in
  let socket := is_open (sockfd g) in
  effect (stdin_thread_read g buffer size w) =
    effect (read_from g (table_upload_source fifo_in fifo_out socket)
              buffer size w)
  /\ effect (stdin_thread_write g buffer size w) =
       effect (write_to g (table_upload_sink fifo_in fifo_out socket)
                 buffer size w)
  /\ match table_download_source fifo_in fifo_out socket with
     | Some e =>
         effect (stdout_thread_read g buffer size w) =
           effect (read_from g e buffer size w)
     | None => forall fuel, stdout_routine fuel g w = Ok g w
     end
  /\ effect (stdout_thread_write g buffer size w) =
       effect (write_to g (table_download_sink fifo_in fifo_out socket)
                 buffer size w).
Proof.
  cbv zeta.
  unfold stdin_thread_read, stdin_thread_write, stdout_thread_read,
    stdout_thread_write, stdout_routine, table_upload_source,
    table_upload_sink, table_download_source, table_download_sink, is_open.
  destruct (stdin_fifo g =? -1), (stdout_fifo g =? -1), (sockfd g =? -1);
    cbn [negb andb orb read_from write_to];
    repeat split; try reflexivity;
    try (apply effect_when_print; intros; first
           [ apply socket_write_loop_console_blind; assumption
           | apply sys_console_blind; assumption ]).
Qed.

(** ** The exit status *)

Section MainProperties.

Variable DEFAULT_ADDRESS : string.
Variable DEFAULT_PORT : Z.
Variable stdin_stdout_fifo_open :
  Z -> option string -> Z -> option string -> bool -> bool ->
  returning (Z * Z * Z).
Variable stdin_stdout_thread_start : state -> bool -> returning state.
Variable stdin_fifo_close : Z -> bool -> returning (Z * Z).
Variable stdout_fifo_close : Z -> bool -> returning (Z * Z).

Lemma returns_try_socket_create (g : state) :
  returns (try_socket_create DEFAULT_ADDRESS DEFAULT_PORT g).
Proof. unfold try_socket_create. returns_tac. Qed.

Lemma main_status_is_zero (g : state) (w w' : world) (status : Z)
    (g' : state) :
  main DEFAULT_ADDRESS DEFAULT_PORT stdin_stdout_fifo_open
    stdin_stdout_thread_start stdin_fifo_close stdout_fifo_close g w
    = Ok (status, g') w' ->
  status = 0.
Proof.
  unfold main, bind, ret.
  repeat match goal with
         | |- context [match ?m ?x with _ => _ end] =>
             lazymatch type of (m x) with
             | result _ => destruct (m x) as [[] ?| |]
             end
         | |- context [let '(_, _) := ?p in _] => destruct p
         | |- context [if ?c then _ else _] => destruct c
         end;
    try discriminate.
  all: intros H; inversion H; reflexivity.
Qed.

(** C8.  Whatever the parsed options and the globals, whatever the
    environment answers (the socket cannot be set up, a FIFO cannot be
    opened, a close fails) and whatever the absent collaborators leave
    behind when they return, [main] returns, and it returns 0. *)
Theorem main_always_exits_with_success (g : state) (w : world) :
  exists (g' : state) (w' : world),
    main DEFAULT_ADDRESS DEFAULT_PORT stdin_stdout_fifo_open
      stdin_stdout_thread_start stdin_fifo_close stdout_fifo_close g w
    = Ok (0, g') w'.
Proof.
  assert (R : returns (main DEFAULT_ADDRESS DEFAULT_PORT
                         stdin_stdout_fifo_open stdin_stdout_thread_start
                         stdin_fifo_close stdout_fifo_close g)).
  { unfold main. pose proof returns_try_socket_create. returns_tac. }
  destruct (R w) as ([status g'] & w' & E).
  exists g', w'. rewrite E.
  apply main_status_is_zero in E. subst status. reflexivity.
Qed.

End MainProperties.

(** ** Writing to the socket *)

Lemma after_calls_nil (w : world) : after_calls w [] (os_results w) = w.
Proof. destruct w. unfold after_calls. cbn. rewrite app_nil_r. reflexivity. Qed.

Lemma after_calls_after_calls w e1 r1 e2 r2 :
  after_calls (after_calls w e1 r1) e2 r2 = after_calls w (e1 ++ e2) r2.
Proof. unfold after_calls. cbn. rewrite app_assoc. reflexivity. Qed.

Lemma sys_answers (c : call) (w : world) (a : Z) (rest : list Z) :
  os_results w = a :: rest ->
  sys c w = Ok a (after_calls w [Called c a] rest).
Proof.
  intros H. unfold sys, next_result, after_calls. rewrite H. reflexivity.
Qed.

Lemma nth_error_middle (pre : list byte) (b : byte) (post : list byte) :
  nth_error (pre ++ b :: post) (List.length pre) = Some b.
Proof. induction pre as [|x pre IH]; [reflexivity | exact IH]. Qed.

(** All the sends of a unit go through. *)
Lemma socket_write_loop_sends (sockfd : Z) (seg : list byte) :
  forall (pre post : list byte) (w : world) (answers rest : list Z),
    os_results w = answers ++ rest ->
    List.length answers = List.length (wire_unit seg) ->
    Forall send_went_through answers ->
    socket_write_loop (List.length seg) sockfd (pre ++ seg ++ post)
      (List.length pre) w
    = Ok (Z.of_nat (List.length pre + List.length (payload seg)))
         (after_calls w (sends sockfd (wire_unit seg) answers) rest).
Proof.
  induction seg as [|b seg IH]; intros pre post w answers rest Hos Hlen Hok.
  - cbn in Hlen. destruct answers; [|discriminate]. cbn in Hos. subst rest.
    cbn. unfold ret. rewrite Nat.add_0_r. rewrite after_calls_nil.
    reflexivity.
  - cbn [List.length socket_write_loop app].
    change (pre ++ b :: seg ++ post) with (pre ++ b :: (seg ++ post)).
    rewrite nth_error_middle.
    cbn [wire_unit payload] in *.
    destruct answers as [|a answers];
      [destruct (is_terminator b); discriminate|].
    inversion Hok as [|? ? [Ha1 Ha0] Hok']; subst.
    cbn [app] in Hos.
    rewrite (bind_ok _ _ _ _ _ (sys_answers _ _ _ _ Hos)).
    apply Z.eqb_neq in Ha1, Ha0. rewrite Ha1, Ha0.
    destruct (is_terminator b) eqn:Hb.
    + cbn in Hlen. destruct answers; [|discriminate].
      unfold ret. cbn. rewrite Nat.add_0_r. reflexivity.
    + cbn in Hlen. injection Hlen as Hlen.
      replace (pre ++ b :: seg ++ post) with ((pre ++ [b]) ++ seg ++ post)
        by (rewrite <- app_assoc; reflexivity).
      replace (S (List.length pre)) with (List.length (pre ++ [b]))
        by (rewrite length_app; cbn; lia).
      rewrite (IH (pre ++ [b]) post
                 (after_calls w [Called (sys_send sockfd b) a] (answers ++ rest))
                 answers rest eq_refl Hlen Hok').
      rewrite after_calls_after_calls. f_equal.
      rewrite length_app. cbn. f_equal. lia.
Qed.

(** A send fails in the middle of a unit. *)
Lemma socket_write_loop_send_fails (sockfd : Z) (seg : list byte) :
  forall (pre post : list byte) (w : world) (answers rest : list Z),
    os_results w = answers ++ -1 :: rest ->
    (List.length answers < List.length (wire_unit seg))%nat ->
    Forall send_went_through answers ->
    socket_write_loop (List.length seg) sockfd (pre ++ seg ++ post)
      (List.length pre) w
    = Ok (-1)
         (after_calls w (sends sockfd (wire_unit seg) (answers ++ [-1])) rest).
Proof.
  induction seg as [|b seg IH]; intros pre post w answers rest Hos Hlen Hok.
  - cbn in Hlen. lia.
  - cbn [List.length socket_write_loop app].
    change (pre ++ b :: seg ++ post) with (pre ++ b :: (seg ++ post)).
    rewrite nth_error_middle.
    cbn [wire_unit] in *.
    destruct answers as [|a answers].
    + cbn in Hos. rewrite (bind_ok _ _ _ _ _ (sys_answers _ _ _ _ Hos)).
      cbn. destruct (is_terminator b); unfold sends, ret; cbn;
        rewrite ?combine_nil; reflexivity.
    + inversion Hok as [|? ? [Ha1 Ha0] Hok']; subst.
      cbn [app] in Hos. rewrite (bind_ok _ _ _ _ _ (sys_answers _ _ _ _ Hos)).
      apply Z.eqb_neq in Ha1, Ha0. rewrite Ha1, Ha0.
      destruct (is_terminator b) eqn:Hb; [cbn in Hlen; lia|].
      cbn in Hlen.
      replace (pre ++ b :: seg ++ post) with ((pre ++ [b]) ++ seg ++ post)
        by (rewrite <- app_assoc; reflexivity).
      replace (S (List.length pre)) with (List.length (pre ++ [b]))
        by (rewrite length_app; cbn; lia).
      rewrite (IH (pre ++ [b]) post
                 (after_calls w [Called (sys_send sockfd b) a]
                    (answers ++ -1 :: rest))
                 answers rest eq_refl); [|lia|exact Hok'].
      rewrite after_calls_after_calls. reflexivity.
Qed.

Lemma sent_bytes_sends_prefix (sockfd : Z) (symbols : list byte) :
  forall answers : list Z,
    (List.length answers <= List.length symbols)%nat ->
    sent_bytes sockfd (sends sockfd symbols answers)
    = firstn (List.length answers) symbols.
Proof.
  induction symbols as [|b symbols IH]; intros [|a answers] H;
    try reflexivity.
  cbn in H. cbn. rewrite Z.eqb_refl. f_equal. apply IH. lia.
Qed.

Lemma sent_bytes_sends (sockfd : Z) (symbols : list byte) (answers : list Z) :
  List.length answers = List.length symbols ->
  sent_bytes sockfd (sends sockfd symbols answers) = symbols.
Proof.
  intros H. rewrite sent_bytes_sends_prefix by lia. rewrite H.
  apply firstn_all.
Qed.

Lemma sends_length (sockfd : Z) (symbols : list byte) (answers : list Z) :
  List.length answers = List.length symbols ->
  List.length (sends sockfd symbols answers) = List.length symbols.
Proof.
  intros H. unfold sends. rewrite length_map, length_combine. lia.
Qed.

(** The unit of a segment that has its first terminator at [pre]'s end. *)
Lemma wire_unit_terminated (pre : list byte) (t : byte) (post : list byte) :
  Forall (fun b => is_terminator b = false) pre ->
  is_terminator t = true ->
  wire_unit (pre ++ t :: post) = pre ++ [t]
  /\ payload (pre ++ t :: post) = pre.
Proof.
  intros Hpre Ht. induction Hpre as [|b pre Hb _ IH]; cbn.
  - rewrite Ht. split; reflexivity.
  - rewrite Hb. destruct IH as [-> ->]. split; reflexivity.
Qed.

Lemma wire_unit_unterminated (seg : list byte) :
  Forall (fun b => is_terminator b = false) seg ->
  wire_unit seg = seg /\ payload seg = seg.
Proof.
  intros H. induction H as [|b seg Hb _ IH]; cbn; [split; reflexivity|].
  rewrite Hb. destruct IH as [-> ->]. split; reflexivity.
Qed.

Lemma socket_write_as_loop sockfd buffer size :
  (size <= List.length buffer)%nat ->
  socket_write sockfd buffer size =
  socket_write_loop (List.length (firstn size buffer)) sockfd
    ([] ++ firstn size buffer ++ skipn size buffer) (List.length (@nil byte)).
Proof.
  intros H. unfold socket_write. cbn [app List.length].
  rewrite firstn_skipn, length_firstn, Nat.min_l by exact H. reflexivity.
Qed.

Lemma socket_write_all_sent
    (sockfd : Z) (buffer : list byte) (size : nat) (w : world)
    (answers rest : list Z) :
  (size <= List.length buffer)%nat ->
  Forall send_went_through answers ->
  os_results w = answers ++ rest ->
  List.length answers = List.length (wire_unit (firstn size buffer)) ->
  socket_write sockfd buffer size w
  = Ok (Z.of_nat (List.length (payload (firstn size buffer))))
       (after_calls w (sends sockfd (wire_unit (firstn size buffer)) answers)
          rest).
Proof.
  intros Hsize Hok Hos Hlen.
  rewrite (socket_write_as_loop _ _ _ Hsize).
  rewrite (socket_write_loop_sends sockfd _ [] _ w answers rest); auto.
Qed.

(** C4.  [socket_write] hands the bytes of the segment to [send] one at a
    time and in order, and what it hands over is the wire unit of the
    segment: the bytes up to and including the first null or newline byte
    (that byte is sent too), the whole segment when it has none.  When a
    send answers -1 the write stops there with -1, having tried exactly the
    bytes up to that one. *)
Theorem socket_write_sends_terminated_line
    (sockfd : Z) (buffer : list byte) (size : nat) (w : world)
    (answers rest : list Z) :
  (size <= List.length buffer)%nat ->
  Forall send_went_through answers ->
  let unit := wire_unit (firstn size buffer) in
  (os_results w = answers ++ rest ->
   List.length answers = List.length unit ->
   socket_write sockfd buffer size w
   = Ok (Z.of_nat (List.length (payload (firstn size buffer))))
        (after_calls w (sends sockfd unit answers) rest)
   /\ sent_bytes sockfd (sends sockfd unit answers) = unit)
  /\ (os_results w = answers ++ -1 :: rest ->
      (List.length answers < List.length unit)%nat ->
      socket_write sockfd buffer size w
      = Ok (-1) (after_calls w (sends sockfd unit (answers ++ [-1])) rest)
      /\ sent_bytes sockfd (sends sockfd unit (answers ++ [-1]))
         = firstn (S (List.length answers)) unit)
  /\ (forall (pre : list byte) (t : byte) (post : list byte),
        firstn size buffer = pre ++ t :: post ->
        Forall (fun b => is_terminator b = false) pre ->
        is_terminator t = true ->
        unit = pre ++ [t]).
Proof.
  intros Hsize Hok unit. repeat split.
  - apply socket_write_all_sent; assumption.
  - apply sent_bytes_sends. assumption.
  - rewrite (socket_write_as_loop _ _ _ Hsize).
    rewrite (socket_write_loop_send_fails sockfd _ [] _ w answers rest); auto.
  - rewrite sent_bytes_sends_prefix; rewrite length_app; cbn [List.length];
      [rewrite Nat.add_1_r; reflexivity | lia].
  - intros pre t post E Hpre Ht. unfold unit. rewrite E.
    apply wire_unit_terminated; assumption.
Qed.

Lemma socket_write_sends_terminated_line_witness :
  (socket_write 5 ["a"%byte; "b"%byte; NEWLINE; "c"%byte] 4
     (world_with [1; 1; 1; 9] [] [])
   = Ok 2
        (after_calls (world_with [1; 1; 1; 9] [] [])
           [Called (sys_send 5 "a"%byte) 1; Called (sys_send 5 "b"%byte) 1;
            Called (sys_send 5 NEWLINE) 1] [9]))
  /\ (socket_write 5 ["a"%byte; "b"%byte; NEWLINE; "c"%byte] 4
        (world_with [1; -1; 9] [] [])
      = Ok (-1)
           (after_calls (world_with [1; -1; 9] [] [])
              [Called (sys_send 5 "a"%byte) 1;
               Called (sys_send 5 "b"%byte) (-1)] [9])).
Proof.
  split.
  - refine (proj1 (proj1 (socket_write_sends_terminated_line 5
                            ["a"%byte; "b"%byte; NEWLINE; "c"%byte] 4
                            (world_with [1; 1; 1; 9] [] []) [1; 1; 1] [9]
                            _ _) eq_refl eq_refl)).
    + cbn. lia.
    + repeat constructor; discriminate.
  - refine (proj1 (proj1 (proj2 (socket_write_sends_terminated_line 5
                            ["a"%byte; "b"%byte; NEWLINE; "c"%byte] 4
                            (world_with [1; -1; 9] [] []) [1] [9]
                            _ _)) eq_refl _)).
    + cbn. lia.
    + repeat constructor; discriminate.
    + cbn. lia.
Defined.

(** C9.  When the segment has its first null or newline byte at index [i],
    a write whose sends all go through returns [i], the number of payload
    bytes, although it sent [i + 1] bytes, the terminator being the last:
    the return value is one less than the number of bytes sent. *)
Theorem socket_write_returns_terminator_index
    (sockfd : Z) (buffer : list byte) (size : nat) (w : world)
    (i : nat) (t : byte) (answers rest : list Z) :
  (size <= List.length buffer)%nat ->
  (i < size)%nat ->
  nth_error buffer i = Some t ->
  is_terminator t = true ->
  Forall (fun b => is_terminator b = false) (firstn i buffer) ->
  os_results w = answers ++ rest ->
  List.length answers = S i ->
  Forall send_went_through answers ->
  exists events : list event,
    socket_write sockfd buffer size w
    = Ok (Z.of_nat i) (after_calls w events rest)
    /\ sent_bytes sockfd events = firstn i buffer ++ [t]
    /\ List.length events = S i
    /\ Z.of_nat i = Z.of_nat (List.length events) - 1.
Proof.
  intros Hsize Hi Hnth Ht Hpre Hos Hlen Hok.
  assert (Hsplit : firstn size buffer
                   = firstn i buffer ++ t :: firstn (size - S i) (skipn (S i) buffer)).
  { rewrite <- (firstn_skipn i buffer) at 1.
    rewrite firstn_app, length_firstn.
    assert (Hib : (i < List.length buffer)%nat) by lia.
    rewrite Nat.min_l by lia.
    rewrite firstn_firstn, Nat.min_r by lia. f_equal.
    pose proof (firstn_skipn 1 (skipn i buffer)) as E.
    rewrite skipn_skipn in E. cbn [Nat.add] in E.
    rewrite <- E. clear E.
    assert (E1 : firstn 1 (skipn i buffer) = [t]).
    { clear - Hnth. revert buffer Hnth.
      induction i as [|i IH]; intros [|b buffer] H; try discriminate.
      - cbn in H. injection H as ->. reflexivity.
      - cbn in H. apply IH in H. exact H. }
    rewrite E1. cbn [app].
    replace (size - i)%nat with (S (size - S i)) by lia.
    reflexivity. }
  destruct (wire_unit_terminated _ _ (firstn (size - S i) (skipn (S i) buffer))
              Hpre Ht) as [Hunit Hpay].
  rewrite <- Hsplit in Hunit, Hpay.
  assert (Hli : List.length (firstn i buffer) = i)
    by (rewrite length_firstn; lia).
  assert (Hlu : List.length answers
                = List.length (wire_unit (firstn size buffer))).
  { rewrite Hunit, length_app, Hli. cbn. lia. }
  pose proof (socket_write_all_sent sockfd buffer size w answers rest
                Hsize Hok Hos Hlu) as Hrun.
  pose proof (sent_bytes_sends sockfd _ _ Hlu) as Hsent.
  exists (sends sockfd (wire_unit (firstn size buffer)) answers).
  rewrite Hrun, Hpay, Hli, Hsent, Hunit.
  rewrite sends_length by (rewrite <- Hunit; exact Hlu).
  rewrite length_app, Hli. cbn. repeat split; lia.
Qed.

Lemma socket_write_returns_terminator_index_witness :
  exists events : list event,
    socket_write 5 ["a"%byte; "b"%byte; NUL; "c"%byte] 4
      (world_with [1; 1; 1; 9] [] [])
    = Ok 2 (after_calls (world_with [1; 1; 1; 9] [] []) events [9])
    /\ sent_bytes 5 events = ["a"%byte; "b"%byte; NUL]
    /\ List.length events = 3%nat
    /\ 2 = Z.of_nat (List.length events) - 1.
Proof.
  refine (socket_write_returns_terminator_index 5
            ["a"%byte; "b"%byte; NUL; "c"%byte] 4
            (world_with [1; 1; 1; 9] [] []) 2 NUL [1; 1; 1] [9]
            _ _ eq_refl eq_refl _ eq_refl eq_refl _).
  - cbn. lia.
  - lia.
  - repeat constructor.
  - repeat constructor; discriminate.
Defined.

(** ** Reading from the socket *)

Lemma after_receptions_nil (w : world) :
  after_receptions w [] (incoming w) = w.
Proof.
  destruct w. unfold after_receptions. cbn. rewrite app_nil_r. reflexivity.
Qed.

Lemma after_receptions_twice w e1 r1 e2 r2 :
  after_receptions (after_receptions w e1 r1) e2 r2
  = after_receptions w (e1 ++ e2) r2.
Proof. unfold after_receptions. cbn. rewrite app_assoc. reflexivity. Qed.

Lemma recv_byte (sockfd : Z) (symbol b : byte) (w : world)
    (rest : list recv_event) :
  incoming w = RecvByte b :: rest ->
  recv sockfd symbol w
  = Ok (1, b) (after_receptions w [Received sockfd (RecvByte b)] rest).
Proof.
  intros H. unfold recv, next_incoming, after_receptions. rewrite H.
  reflexivity.
Qed.

Lemma store_middle (pre : list byte) (x b : byte) (post : list byte) :
  store (pre ++ x :: post) (List.length pre) b = Some (pre ++ b :: post).
Proof.
  induction pre as [|y pre IH]; [reflexivity|].
  cbn. rewrite IH. reflexivity.
Qed.

(** After a newline the loop condition fails whatever is left of the bound. *)
Lemma socket_read_loop_after_newline remaining sockfd index buffer w :
  socket_read_loop remaining sockfd index NEWLINE buffer w
  = Ok (Z.of_nat index, buffer) w.
Proof. destruct remaining; reflexivity. Qed.

Lemma socket_read_loop_reads (sockfd : Z) (line : list byte) :
  forall (size : nat) (pre old post : list byte) (symbol : byte) (w : world)
         (rest : list recv_event),
    is_read_unit size line = true ->
    Byte.eqb symbol NEWLINE = false ->
    incoming w = map RecvByte line ++ rest ->
    List.length old = List.length line ->
    socket_read_loop size sockfd (List.length pre) symbol
      (pre ++ old ++ post) w
    = Ok (Z.of_nat (List.length pre + List.length line), pre ++ line ++ post)
         (after_receptions w (receptions sockfd line) rest).
Proof.
  induction line as [|b line IH];
    intros size pre old post symbol w rest Hunit Hsym Hin Hold.
  - destruct size; [|discriminate].
    destruct old; [|discriminate]. cbn in Hin. subst rest.
    cbn. unfold ret. rewrite Nat.add_0_r, after_receptions_nil. reflexivity.
  - destruct size as [|size]; [discriminate|].
    destruct old as [|x old]; [discriminate|].
    cbn [socket_read_loop]. rewrite Hsym.
    cbn [map app] in Hin.
    rewrite (bind_ok _ _ _ _ _ (recv_byte sockfd symbol b w _ Hin)).
    cbn beta iota. cbn [Z.eqb Pos.eqb].
    change (pre ++ (x :: old) ++ post) with (pre ++ x :: (old ++ post)).
    rewrite store_middle.
    replace (pre ++ b :: old ++ post) with ((pre ++ [b]) ++ old ++ post)
      by (rewrite <- app_assoc; reflexivity).
    replace (S (List.length pre)) with (List.length (pre ++ [b]))
      by (rewrite length_app; cbn; lia).
    cbn [is_read_unit] in Hunit.
    destruct (Byte.eqb b NEWLINE) eqn:Hb.
    + apply Byte.byte_dec_bl in Hb. subst b.
      destruct line; [|discriminate]. destruct old; [|discriminate].
      rewrite socket_read_loop_after_newline.
      rewrite length_app. cbn. rewrite <- app_assoc. reflexivity.
    + cbn in Hold. injection Hold as Hold.
      rewrite (IH size (pre ++ [b]) old post b
                 (after_receptions w [Received sockfd (RecvByte b)]
                    (map RecvByte line ++ rest))
                 rest Hunit Hb eq_refl Hold).
      replace (List.length (pre ++ [b]) + List.length line)%nat
        with (List.length pre + List.length (b :: line))%nat
        by (rewrite length_app; cbn; lia).
      rewrite after_receptions_twice, <- app_assoc. reflexivity.
Qed.

Lemma read_span_prefix (size : nat) :
  forall stream : list byte,
    stream = read_span size stream
             ++ skipn (List.length (read_span size stream)) stream.
Proof.
  induction size as [|size IH]; intros [|b stream]; try reflexivity.
  cbn. destruct (Byte.eqb b NEWLINE); cbn; [reflexivity|].
  f_equal. apply IH.
Qed.

Lemma read_span_length (size : nat) :
  forall stream : list byte,
    (List.length (read_span size stream) <= size)%nat.
Proof.
  induction size as [|size IH]; intros [|b stream]; cbn; try lia.
  destruct (Byte.eqb b NEWLINE); cbn; [lia|].
  specialize (IH stream). lia.
Qed.

(** A stream with a newline, or one that fills the bound, ends a read. *)
Lemma read_span_is_read_unit (size : nat) :
  forall stream : list byte,
    In NEWLINE stream \/ (size <= List.length stream)%nat ->
    is_read_unit size (read_span size stream) = true.
Proof.
  induction size as [|size IH]; intros stream H.
  - destruct stream; reflexivity.
  - destruct stream as [|b stream].
    + destruct H as [[]|H]. cbn in H. lia.
    + cbn. destruct (Byte.eqb b NEWLINE) eqn:Hb; cbn; rewrite Hb;
        [reflexivity|].
      apply IH. destruct H as [[H|H]|H].
      * subst b. discriminate.
      * left. exact H.
      * right. cbn in H. lia.
Qed.

Lemma socket_read_line
    (sockfd : Z) (buffer : list byte) (size : nat) (stream : list byte)
    (rest : list recv_event) (w : world) :
  (size <= List.length buffer)%nat ->
  incoming w = map RecvByte stream ++ rest ->
  In NEWLINE stream \/ (size <= List.length stream)%nat ->
  socket_read sockfd buffer size w
  = Ok (Z.of_nat (List.length (read_span size stream)),
        read_span size stream
          ++ skipn (List.length (read_span size stream)) buffer)
       (after_receptions w (receptions sockfd (read_span size stream))
          (map RecvByte (skipn (List.length (read_span size stream)) stream)
             ++ rest)).
Proof.
  intros Hsize Hin Hends.
  pose proof (read_span_length size stream) as Hlen.
  pose proof (read_span_is_read_unit size stream Hends) as Hunit.
  unfold socket_read.
  rewrite <- (firstn_skipn (List.length (read_span size stream)) buffer) at 1.
  rewrite (read_span_prefix size stream) in Hin at 1.
  rewrite map_app, <- app_assoc in Hin.
  apply (socket_read_loop_reads sockfd _ size [] _ _ NUL w _ Hunit
           eq_refl Hin).
  rewrite length_firstn. lia.
Qed.

(** C3, as amended.  A read from the socket takes from the stream the bytes
    up to and including the first newline, and stops before that at [size]
    bytes when the newline has not come by then: it returns their number,
    which is at most [size] (1023 in the transfer loops), leaves them at the
    start of the buffer and leaves the rest of the stream unread.  A null
    byte in the stream does not end the read. *)
Theorem socket_read_stops_at_newline_or_bound
    (sockfd : Z) (buffer : list byte) (size : nat) (stream : list byte)
    (rest : list recv_event) (w : world) :
  (size <= List.length buffer)%nat ->
  incoming w = map RecvByte stream ++ rest ->
  In NEWLINE stream \/ (size <= List.length stream)%nat ->
  let line := read_span size stream in
  socket_read sockfd buffer size w
  = Ok (Z.of_nat (List.length line),
        line ++ skipn (List.length line) buffer)
       (after_receptions w (receptions sockfd line)
          (map RecvByte (skipn (List.length line) stream) ++ rest))
  /\ (List.length line <= size)%nat
  /\ (forall size' stream',
        read_span (S size') (NUL :: stream')
        = NUL :: read_span size' stream').
Proof.
  intros Hsize Hin Hends line. split; [|split].
  - apply socket_read_line; assumption.
  - apply read_span_length.
  - intros. reflexivity.
Qed.

Lemma socket_read_stops_at_newline_or_bound_witness :
  socket_read 5 (memset_zero 8) 7
    (world_with [] [RecvByte "a"%byte; RecvByte NUL; RecvByte "b"%byte;
                    RecvByte NEWLINE; RecvByte "c"%byte] [])
  = Ok (4, ["a"%byte; NUL; "b"%byte; NEWLINE; NUL; NUL; NUL; NUL])
       (after_receptions
          (world_with [] [RecvByte "a"%byte; RecvByte NUL; RecvByte "b"%byte;
                          RecvByte NEWLINE; RecvByte "c"%byte] [])
          [Received 5 (RecvByte "a"%byte); Received 5 (RecvByte NUL);
           Received 5 (RecvByte "b"%byte); Received 5 (RecvByte NEWLINE)]
          [RecvByte "c"%byte]).
Proof.
  refine (proj1 (socket_read_stops_at_newline_or_bound 5 (memset_zero 8) 7
                   ["a"%byte; NUL; "b"%byte; NEWLINE; "c"%byte] []
                   (world_with [] _ []) _ eq_refl _)).
  - cbn. lia.
  - left. cbn. auto.
Defined.

(** C3, as stated, fails: on the stream [a NUL b newline] the claim has the
    read return the two bytes up to the null byte, and the code returns all
    four. *)
Lemma socket_read_null_byte_counterexample :
  ~ (forall (sockfd : Z) (buffer : list byte) (size : nat)
            (stream : list byte) (w : world),
        (size <= List.length buffer)%nat ->
        incoming w = map RecvByte stream ->
        In NEWLINE stream ->
        exists (buffer' : list byte) (w' : world),
          socket_read sockfd buffer size w
          = Ok (Z.of_nat (List.length (spec_read_span size stream)), buffer')
               w').
Proof.
  intros claim.
  destruct (claim 5 (memset_zero BUFFER_SIZE) 1023%nat
              ["a"%byte; NUL; "b"%byte; NEWLINE]
              (world_with [] [RecvByte "a"%byte; RecvByte NUL;
                              RecvByte "b"%byte; RecvByte NEWLINE] []))
    as (buffer' & w' & E).
  - cbn. lia.
  - reflexivity.
  - cbn. auto.
  - vm_compute in E. discriminate E.
Qed.

Lemma not_terminator_not_newline (b : byte) :
  is_terminator b = false -> Byte.eqb b NEWLINE = false.
Proof. unfold is_terminator. intros H. apply orb_false_elim in H. tauto. Qed.

(** ** Role negotiation *)

Lemma advances_refl (w : world) : advances w w [].
Proof. unfold advances. rewrite app_nil_r. auto. Qed.

Lemma advances_trans (w1 w2 w3 : world) (e1 e2 : list event) :
  advances w1 w2 e1 -> advances w2 w3 e2 -> advances w1 w3 (e1 ++ e2).
Proof.
  unfold advances. intros (T1 & I1 & F1) (T2 & I2 & F2).
  rewrite T2, T1, I2, I1, F2, F1, app_assoc. auto.
Qed.

Lemma trace_starts (T : list event) : T = T ++ [].
Proof. symmetry. apply app_nil_r. Qed.

Lemma trace_grows (l T events : list event) (e : event) :
  l = T ++ events -> l ++ [e] = T ++ (events ++ [e]).
Proof. intros ->. symmetry. apply app_assoc. Qed.

Ltac advanced :=
  unfold advances; cbn;
  split;
    [ first [ reflexivity | repeat apply trace_grows; apply trace_starts ]
    | auto ].

Ltac decide_answers :=
  repeat match goal with
         | H : (_ =? _) = true |- _ => apply Z.eqb_eq in H
         | H : (_ =? _) = false |- _ => apply Z.eqb_neq in H
         end.

Lemma sockaddr_create_runs sockfd address port debug w :
  exists (w' : world) (pre : list event),
    sockaddr_create sockfd address port debug w
    = Ok (sockaddr_for address port sockfd) w'
    /\ advances w w' pre /\ naming sockfd pre.
Proof.
  unfold sockaddr_create, sockaddr_for, bind, ret, when, sys, error_print,
    info_print, next_result.
  destruct (String.length address =? 0)%nat; cbn.
  - destruct (hd (-1) (os_results w) =? -1), debug; cbn;
      eexists; exists [Called (sys_getsockname sockfd) (hd (-1) (os_results w))];
      (split; [reflexivity|]); (split; [advanced | constructor]).
  - exists w, []. split; [reflexivity|]. split; [apply advances_refl|].
    constructor.
Qed.

Lemma socket_create_runs debug w :
  exists (r : Z) (w' : world),
    socket_create debug w = Ok r w' /\ advances w w' [Called sys_socket r].
Proof.
  unfold socket_create, bind, ret, when, sys, error_print, info_print,
    next_result.
  destruct debug; cbn; destruct (hd (-1) (os_results w) =? -1) eqn:E; cbn;
    decide_answers; do 2 eexists; (split; [reflexivity|]);
    rewrite ?E; advanced.
Qed.

Lemma socket_connect_runs sockfd address port debug w :
  exists (r : Z) (w' : world) (pre : list event),
    socket_connect sockfd address port debug w
    = Ok (if r =? -1 then -1 else 0) w'
    /\ advances w w'
         (pre ++ [Called (sys_connect sockfd (sockaddr_for address port sockfd)) r])
    /\ naming sockfd pre.
Proof.
  unfold socket_connect.
  destruct (sockaddr_create_runs sockfd address port debug w)
    as (w1 & pre & E & A & N).
  rewrite (bind_ok _ _ _ _ _ E).
  unfold bind, ret, when, sys, error_print, info_print, next_result.
  exists (hd (-1) (os_results w1)).
  destruct debug; cbn;
    match goal with |- context [?x =? -1] => destruct (x =? -1) end; cbn;
    eexists; exists pre; (split; [reflexivity|]); (split; [|exact N]);
    (eapply advances_trans; [exact A | advanced]).
Qed.

Lemma socket_bind_runs sockfd address port debug w :
  exists (r : Z) (w' : world) (pre : list event),
    socket_bind sockfd address port debug w
    = Ok (if r =? -1 then -1 else 0) w'
    /\ advances w w'
         (pre ++ [Called (sys_bind sockfd (sockaddr_for address port sockfd)) r])
    /\ naming sockfd pre.
Proof.
  unfold socket_bind.
  destruct (sockaddr_create_runs sockfd address port debug w)
    as (w1 & pre & E & A & N).
  rewrite (bind_ok _ _ _ _ _ E).
  unfold bind, ret, when, sys, error_print, info_print, next_result.
  exists (hd (-1) (os_results w1)).
  destruct debug; cbn;
    match goal with |- context [?x =? -1] => destruct (x =? -1) end; cbn;
    eexists; exists pre; (split; [reflexivity|]); (split; [|exact N]);
    (eapply advances_trans; [exact A | advanced]).
Qed.

Lemma socket_listen_runs sockfd backlog debug w :
  exists (r : Z) (w' : world),
    socket_listen sockfd backlog debug w = Ok (if r =? -1 then -1 else 0) w'
    /\ advances w w' [Called (sys_listen sockfd backlog) r].
Proof.
  unfold socket_listen, bind, ret, when, sys, error_print, info_print,
    next_result.
  exists (hd (-1) (os_results w)).
  destruct debug; cbn; destruct (hd (-1) (os_results w) =? -1); cbn;
    eexists; (split; [reflexivity|]); advanced.
Qed.

Lemma socket_accept_runs servfd address port debug w :
  exists (r : Z) (w' : world) (events : list event),
    socket_accept servfd address port debug w = Ok r w'
    /\ advances w w' events /\ accept_run servfd r events.
Proof.
  unfold socket_accept.
  destruct (sockaddr_create_runs servfd address port debug w)
    as (w1 & pre & E & A & N).
  rewrite (bind_ok _ _ _ _ _ E).
  unfold bind, ret, when, sys, error_print, info_print, next_result.
  exists (hd (-1) (os_results w1)).
  destruct debug; cbn;
    match goal with |- context [?x =? -1] => destruct (x =? -1) eqn:R end;
    cbn; decide_answers; eexists;
    eexists (pre ++ [Called (sys_accept servfd) _]);
    (split; [first [reflexivity | rewrite R; reflexivity]|]);
    (split; [eapply advances_trans; [exact A | advanced]|]);
    try rewrite R; constructor; exact N.
Qed.

Lemma socket_close_runs fd debug w :
  exists (status fd' : Z) (w' : world) (events : list event),
    socket_close fd debug w = Ok (status, fd') w'
    /\ advances w w' events /\ close_run fd (status, fd') events.
Proof.
  unfold socket_close.
  destruct (fd =? -1) eqn:F; decide_answers.
  - exists 0, fd, w, []. split; [reflexivity|].
    split; [apply advances_refl | constructor; exact F].
  - unfold bind, ret, when, sys, error_print, info_print, next_result.
    destruct debug; cbn;
      destruct (hd (-1) (os_results w) =? -1) eqn:R;
      cbn; decide_answers; do 4 eexists;
      (split; [reflexivity|]); (split; [advanced|]);
      try rewrite R; constructor; assumption.
Qed.

Lemma client_socket_create_runs address port debug w :
  exists (fd : Z) (w' : world) (attempt : list event),
    client_socket_create address port debug w = Ok fd w'
    /\ advances w w' attempt
    /\ client_run address port fd attempt.
Proof.
  unfold client_socket_create.
  destruct (socket_create_runs debug w) as (s & w1 & E1 & A1).
  rewrite (bind_ok _ _ _ _ _ E1).
  destruct (s =? -1) eqn:S; decide_answers.
  - subst s. exists (-1), w1, [Called sys_socket (-1)].
    split; [reflexivity|]. split; [exact A1 | constructor].
  - destruct (socket_connect_runs s address port debug w1)
      as (c & w2 & pre & E2 & A2 & N).
    rewrite (bind_ok _ _ _ _ _ E2).
    destruct (c =? -1) eqn:C; decide_answers; cbn [Z.eqb Pos.eqb].
    + subst c.
      destruct (socket_close_runs s debug w2)
        as (st & fd' & w3 & closing & E3 & A3 & CR).
      rewrite (bind_ok _ _ _ _ _ E3).
      exists (-1), w3. eexists. split; [reflexivity|].
      split; [exact (advances_trans _ _ _ _ _ A1 (advances_trans _ _ _ _ _ A2 A3))|].
      inversion CR; subst; try contradiction; cbn [app];
        rewrite <- app_assoc; cbn [app]; constructor; assumption.
    + exists s, w2. eexists. split; [reflexivity|].
      split; [exact (advances_trans _ _ _ _ _ A1 A2)|].
      cbn [app]. constructor; assumption.
Qed.

Lemma server_socket_create_runs address port debug w :
  exists (fd : Z) (w' : world) (serving : list event),
    server_socket_create address port debug w = Ok fd w'
    /\ advances w w' serving
    /\ server_run address port fd serving.
Proof.
  unfold server_socket_create.
  destruct (socket_create_runs debug w) as (s & w1 & E1 & A1).
  rewrite (bind_ok _ _ _ _ _ E1).
  destruct (s =? -1) eqn:S; decide_answers.
  - subst s. exists (-1), w1, [Called sys_socket (-1)].
    split; [reflexivity|]. split; [exact A1 | constructor].
  - destruct (socket_bind_runs s address port debug w1)
      as (b & w2 & pre & E2 & A2 & N).
    rewrite (bind_ok _ _ _ _ _ E2).
    destruct (b =? -1) eqn:B; decide_answers; cbn [Z.eqb Pos.eqb].
    + subst b. unfold bind at 1, ret at 1. cbn [Z.eqb Pos.eqb].
      destruct (socket_close_runs s debug w2)
        as (st & fd' & w3 & closing & E3 & A3 & CR).
      rewrite (bind_ok _ _ _ _ _ E3).
      exists (-1), w3. eexists. split; [reflexivity|].
      split; [exact (advances_trans _ _ _ _ _ A1 (advances_trans _ _ _ _ _ A2 A3))|].
      inversion CR; subst; try contradiction; cbn [app];
        rewrite <- app_assoc; cbn [app]; constructor; assumption.
    + destruct (socket_listen_runs s 1 debug w2) as (l & w3 & E3 & A3).
      rewrite (bind_ok _ _ _ _ _ E3).
      destruct (l =? -1) eqn:L; decide_answers; cbn [Z.eqb Pos.eqb].
      * subst l.
        destruct (socket_close_runs s debug w3)
          as (st & fd' & w4 & closing & E4 & A4 & CR).
        rewrite (bind_ok _ _ _ _ _ E4).
        exists (-1), w4. eexists. split; [reflexivity|].
        split; [exact (advances_trans _ _ _ _ _ A1
                         (advances_trans _ _ _ _ _ A2
                            (advances_trans _ _ _ _ _ A3 A4)))|].
        inversion CR; subst; try contradiction; cbn [app];
          rewrite <- app_assoc; cbn [app]; constructor; assumption.
      * exists s, w3. eexists. split; [reflexivity|].
        split; [exact (advances_trans _ _ _ _ _ A1
                         (advances_trans _ _ _ _ _ A2 A3))|].
        cbn [app]. rewrite <- app_assoc. cbn [app].
        constructor; assumption.
Qed.

(** Every run of the negotiation is one of the four of [resolution_run]:
    the client attempt first, then what follows it. *)
Lemma client_or_server_socket_create_runs
    (sockfd0 servfd0 : Z) (address : string) (port : Z) (debug : bool)
    (w : world) :
  exists (client : Z) (w1 : world) (attempt : list event)
         (status s v : Z) (w' : world) (later : list event),
    client_socket_create address port debug w = Ok client w1
    /\ advances w w1 attempt
    /\ client_or_server_socket_create sockfd0 servfd0 address port debug w
       = Ok (status, s, v) w'
    /\ advances w1 w' later
    /\ resolution_run address port servfd0 client (status, s, v)
         attempt later.
Proof.
  unfold client_or_server_socket_create.
  destruct (client_socket_create_runs address port debug w)
    as (client & w1 & attempt & E1 & A1 & CR).
  exists client, w1, attempt.
  rewrite (bind_ok _ _ _ _ _ E1).
  destruct (client =? -1) eqn:C; decide_answers; cbn [negb].
  2:{ exists 0, client, servfd0, w1, []. split; [exact E1|].
      split; [exact A1|]. split; [reflexivity|].
      split; [apply advances_refl|]. constructor; assumption. }
  subst client.
  destruct (server_socket_create_runs address port debug w1)
    as (l & w2 & serving & E2 & A2 & SR).
  rewrite (bind_ok _ _ _ _ _ E2).
  destruct (l =? -1) eqn:L; decide_answers.
  { subst l. exists 1, (-1), (-1), w2, serving. split; [exact E1|].
    split; [exact A1|]. split; [reflexivity|]. split; [exact A2|].
    constructor; assumption. }
  destruct (socket_accept_runs l address port debug w2)
    as (s & w3 & accepting & E3 & A3 & AR).
  rewrite (bind_ok _ _ _ _ _ E3).
  destruct (s =? -1) eqn:S; decide_answers; cbn [negb].
  2:{ exists 0, s, l, w3, (serving ++ accepting). split; [exact E1|].
      split; [exact A1|]. split; [reflexivity|].
      split; [exact (advances_trans _ _ _ _ _ A2 A3)|].
      constructor; assumption. }
  subst s.
  destruct (socket_close_runs l debug w3)
    as (st & v & w4 & closing & E4 & A4 & CLR).
  rewrite (bind_ok _ _ _ _ _ E4). cbn beta iota.
  exists 2, (-1), v, w4, (serving ++ accepting ++ closing).
  split; [exact E1|]. split; [exact A1|]. split; [reflexivity|].
  split; [exact (advances_trans _ _ _ _ _ A2
                   (advances_trans _ _ _ _ _ A3 A4))|].
  econstructor; eassumption.
Qed.

Ltac invert_runs :=
  repeat match goal with
         | H : resolution_run _ _ _ _ _ _ _ |- _ => inversion H; clear H; subst
         | H : client_run _ _ _ _ |- _ => inversion H; clear H; subst
         | H : server_run _ _ _ _ |- _ => inversion H; clear H; subst
         | H : accept_run _ _ _ |- _ => inversion H; clear H; subst
         | H : close_run _ _ _ |- _ => inversion H; clear H; subst
         | H : naming _ _ |- _ => inversion H; clear H; subst
         end;
  try congruence.

Ltac answers_known :=
  repeat match goal with
         | H : ?x <> -1 |- _ => apply Z.eqb_neq in H
         end;
  repeat match goal with
         | H : (_ =? -1) = false |- _ => rewrite !H in *
         end.

(** The calls of the client attempt: a socket first; when that gave a
    descriptor, one connect, on it and to [address:port]; the attempt
    succeeds when both did. *)
Lemma client_run_calls
    (address : string) (port client : Z) (attempt : list event) :
  client_run address port client attempt ->
  exists (s0 c : Z) (rest : list event),
    attempt = Called sys_socket s0 :: rest
    /\ filter is_connect attempt
       = (if s0 =? -1 then []
          else [Called (sys_connect s0 (sockaddr_for address port s0)) c])
    /\ client = (if (s0 =? -1) || (c =? -1) then -1 else s0).
Proof.
  intros H. destruct H as [ | s pre r Hs Hn | s pre c Hs Hc Hn ].
  - exists (-1), 0, []. repeat split.
  - exists s, (-1). eexists. split; [reflexivity|].
    apply Z.eqb_neq in Hs. rewrite Hs.
    inversion Hn; subst; cbn; split; reflexivity.
  - exists s, c. eexists. split; [reflexivity|].
    apply Z.eqb_neq in Hs, Hc. rewrite Hs, Hc.
    inversion Hn; subst; cbn; split; reflexivity.
Qed.

(** The calls of [server_socket_create]: a socket first; when that gave a
    descriptor, a bind of it to [address:port]; when the bind went through,
    a listen on it with backlog 1; the listening socket is returned when
    all three went through. *)
Lemma server_run_calls
    (address : string) (port listening : Z) (serving : list event) :
  server_run address port listening serving ->
  exists (r b l : Z) (rest : list event),
    serving = Called sys_socket r :: rest
    /\ filter is_server_call serving
       = (if r =? -1 then []
          else Called (sys_bind r (sockaddr_for address port r)) b
               :: (if b =? -1 then [] else [Called (sys_listen r 1) l]))
    /\ listening = (if (r =? -1) || (b =? -1) || (l =? -1) then -1 else r).
Proof.
  intros H.
  destruct H as [ | s pre r Hs Hn | s pre b r Hs Hb Hn
                | s pre b l Hs Hb Hl Hn ].
  - exists (-1), 0, 0, []. repeat split.
  - exists s, (-1), 0. eexists. split; [reflexivity|].
    apply Z.eqb_neq in Hs. rewrite Hs.
    inversion Hn; subst; cbn; split; reflexivity.
  - exists s, b, (-1). eexists. split; [reflexivity|].
    apply Z.eqb_neq in Hs, Hb. rewrite Hs, Hb.
    inversion Hn; subst; cbn; split; reflexivity.
  - exists s, b, l. eexists. split; [reflexivity|].
    apply Z.eqb_neq in Hs, Hb, Hl. rewrite Hs, Hb, Hl.
    inversion Hn; subst; cbn; split; reflexivity.
Qed.

Lemma accept_run_calls (servfd s : Z) (accepting : list event) :
  accept_run servfd s accepting ->
  filter is_server_call accepting = [Called (sys_accept servfd) s].
Proof.
  intros H. destruct H as [pre r Hn].
  destruct Hn; reflexivity.
Qed.

Lemma close_run_calls (fd : Z) (out : Z * Z) (closing : list event) :
  close_run fd out closing -> filter is_server_call closing = [].
Proof. intros H. destruct H; reflexivity. Qed.

(** The calls of the server role behind a failed client attempt. *)
Lemma resolution_run_server_calls
    (address : string) (port servfd0 status s v : Z)
    (attempt later : list event) :
  resolution_run address port servfd0 (-1) (status, s, v) attempt later ->
  exists (r b l a : Z) (rest : list event),
    later = Called sys_socket r :: rest
    /\ filter is_server_call later
       = (if r =? -1 then []
          else Called (sys_bind r (sockaddr_for address port r)) b
               :: (if b =? -1 then []
                   else Called (sys_listen r 1) l
                        :: (if l =? -1 then []
                            else [Called (sys_accept r) a])))
    /\ ((r =? -1) || (b =? -1) || (l =? -1) = true -> status = 1)
    /\ ((r =? -1) || (b =? -1) || (l =? -1) = false ->
        s = a /\ status = (if a =? -1 then 2 else 0) /\ (a <> -1 -> v = r)).
Proof.
  intros R. inversion R; subst; try congruence;
    match goal with
    | HS : server_run _ _ _ _ |- _ =>
        destruct (server_run_calls _ _ _ _ HS)
          as (r' & b' & l' & rest' & E & F & L)
    end;
    destruct ((r' =? -1) || (b' =? -1) || (l' =? -1)) eqn:Hfail;
    try congruence.
  - exists r', b', l', 0, rest'. split; [exact E|]. rewrite Hfail. split.
    + rewrite F. destruct (r' =? -1); [reflexivity|].
      destruct (b' =? -1); [reflexivity|].
      cbn in Hfail. rewrite Hfail. reflexivity.
    + split; [reflexivity | discriminate].
  - subst r'. discriminate Hfail.
  - subst. apply orb_false_elim in Hfail. destruct Hfail as [Hfail Hlf].
    apply orb_false_elim in Hfail. destruct Hfail as [Hrf Hbf].
    match goal with
    | HA : accept_run _ _ _ |- _ =>
        pose proof (accept_run_calls _ _ _ HA) as FA
    end.
    exists r', b', l', s. eexists.
    split; [cbn [app]; reflexivity|].
    rewrite filter_app, F, FA, Hrf, Hbf, Hlf.
    split; [reflexivity|]. split; [discriminate|]. intros _.
    match goal with
    | Hs : s <> -1 |- _ => apply Z.eqb_neq in Hs; rewrite Hs
    end.
    repeat split.
  - subst. apply orb_false_elim in Hfail. destruct Hfail as [Hfail Hlf].
    apply orb_false_elim in Hfail. destruct Hfail as [Hrf Hbf].
    match goal with
    | HA : accept_run _ _ _, HC : close_run _ _ _ |- _ =>
        pose proof (accept_run_calls _ _ _ HA) as FA;
        pose proof (close_run_calls _ _ _ HC) as FC
    end.
    exists r', b', l', (-1). eexists.
    split; [cbn [app]; reflexivity|].
    rewrite !filter_app, F, FA, FC, Hrf, Hbf, Hlf.
    split; [reflexivity|]. split; [discriminate|]. intros _.
    repeat split. intros H. contradiction H. reflexivity.
Qed.

(** C1.  The negotiation starts with the client attempt
    ([client_socket_create]).  The attempt makes no server call: it starts
    with a socket and, when that gave a descriptor, makes exactly one
    connect, on that descriptor and to [address:port]; it hands the
    descriptor back when the connect went through, and -1 when the connect
    or the socket before it failed.  When the attempt succeeds that is all:
    status 0 with the connected socket, no further call.  Calls of the
    server role are made only after the attempt has failed.  They are then,
    in this order and with no connect among them: a new socket; when that
    gave a descriptor, a bind of it to [address:port]; when the bind went
    through, a listen on it with backlog 1; when the listen went through,
    one accept on it.  When the socket, the bind or the listen fails the
    status is 1, no descriptor is left in either handle and no accept is
    made.  When the listen succeeds exactly one accept is made, on the
    listening socket, before the function returns, and its answer is what
    is left in [*sockfd]: status 0 with a descriptor, status 2 with -1. *)
Theorem negotiation_is_client_first
    (sockfd0 servfd0 : Z) (address : string) (port : Z) (debug : bool)
    (w : world) :
  exists (client : Z) (w1 : world) (attempt : list event)
         (status s v : Z) (w' : world) (later : list event),
    client_socket_create address port debug w = Ok client w1
    /\ trace w1 = trace w ++ attempt
    /\ client_or_server_socket_create sockfd0 servfd0 address port debug w
       = Ok (status, s, v) w'
    /\ trace w' = trace w1 ++ later
    /\ existsb is_server_call attempt = false
    /\ (exists (s0 c : Z) (rest : list event),
          attempt = Called sys_socket s0 :: rest
          /\ filter is_connect attempt
             = (if s0 =? -1 then []
                else [Called (sys_connect s0 (sockaddr_for address port s0))
                        c])
          /\ client = (if (s0 =? -1) || (c =? -1) then -1 else s0))
    /\ existsb is_connect later = false
    /\ Forall (addressed_to address port) (attempt ++ later)
    /\ (client <> -1 ->
        later = [] /\ status = 0 /\ s = client /\ v = servfd0)
    /\ (client = -1 ->
        exists (r b l a : Z) (rest : list event),
          later = Called sys_socket r :: rest
          /\ filter is_server_call later
             = (if r =? -1 then []
                else Called (sys_bind r (sockaddr_for address port r)) b
                     :: (if b =? -1 then []
                         else Called (sys_listen r 1) l
                              :: (if l =? -1 then []
                                  else [Called (sys_accept r) a])))
          /\ ((r =? -1) || (b =? -1) || (l =? -1) = true -> status = 1)
          /\ ((r =? -1) || (b =? -1) || (l =? -1) = false ->
              s = a /\ status = (if a =? -1 then 2 else 0)
              /\ (a <> -1 -> v = r)))
    /\ existsb listen_backlog_not_1 later = false
    /\ (existsb bind_or_listen_failed later = true ->
        status = 1 /\ s = -1 /\ v = -1 /\ existsb is_accept later = false)
    /\ (existsb listen_succeeded later = true ->
        List.length (filter is_accept later) = 1%nat
        /\ (exists l ok, In (Called (sys_listen l 1) ok) later
                         /\ ok <> -1
                         /\ In (Called (sys_accept l) s) later)
        /\ (status = 0 <-> s <> -1)).
Proof.
  destruct (client_or_server_socket_create_runs sockfd0 servfd0 address port
              debug w)
    as (client & w1 & attempt & status & s & v & w' & later
        & E1 & (T1 & _) & E & (T & _) & R).
  exists client, w1, attempt, status, s, v, w', later.
  split; [exact E1|]. split; [exact T1|]. split; [exact E|].
  split; [exact T|]. clear E1 T1 E T w w1 w'.
  assert (HA : exists (s0 c : Z) (rest : list event),
             attempt = Called sys_socket s0 :: rest
             /\ filter is_connect attempt
                = (if s0 =? -1 then []
                   else [Called (sys_connect s0
                                   (sockaddr_for address port s0)) c])
             /\ client = (if (s0 =? -1) || (c =? -1) then -1 else s0))
    by (inversion R; subst; eapply client_run_calls; eassumption).
  assert (HB : client = -1 ->
               exists (r b l a : Z) (rest : list event),
                 later = Called sys_socket r :: rest
                 /\ filter is_server_call later
                    = (if r =? -1 then []
                       else Called (sys_bind r (sockaddr_for address port r))
                              b
                            :: (if b =? -1 then []
                                else Called (sys_listen r 1) l
                                     :: (if l =? -1 then []
                                         else [Called (sys_accept r) a])))
                 /\ ((r =? -1) || (b =? -1) || (l =? -1) = true ->
                     status = 1)
                 /\ ((r =? -1) || (b =? -1) || (l =? -1) = false ->
                     s = a /\ status = (if a =? -1 then 2 else 0)
                     /\ (a <> -1 -> v = r)))
    by (intros ->; eapply resolution_run_server_calls; exact R).
  split; [|split; [exact HA|]].
  2:{ split; [|split; [|split; [|split; [exact HB|]]]];
        clear HA HB; invert_runs.
      all: repeat match goal with
                  | |- _ /\ _ => split
                  end.
      all: try (intros; congruence).
      all: try (cbn; answers_known; cbn; reflexivity).
      all: try (cbn; repeat constructor).
      all: try (cbn; answers_known; cbn; intros; discriminate).
      all: try (intros _; repeat split; cbn; answers_known; cbn; reflexivity).
      all: try (intros ?; repeat split; try reflexivity; try congruence).
      all: try (do 2 eexists; split; [cbn; eauto 10|];
                split; [eassumption | cbn; eauto 10]). }
  clear HA HB; invert_runs; cbn; answers_known; cbn; reflexivity.
Qed.

(** ** Handles after a failed negotiation *)

(** C10, as amended.  When the negotiation fails, [*sockfd] is -1.  With
    status 1 (no listening server socket) [*servfd] is -1 too.  With status
    2 the accept on the listening socket has failed and the function has
    then called close on that socket, as its last call; [*servfd] is -1
    when that close went through, and still holds the listening descriptor
    when the close itself answered -1. *)
Theorem failed_negotiation_handles
    (sockfd0 servfd0 : Z) (address : string) (port : Z) (debug : bool)
    (w w' : world) (status s v : Z) :
  client_or_server_socket_create sockfd0 servfd0 address port debug w
  = Ok (status, s, v) w' ->
  status <> 0 ->
  s = -1
  /\ (status = 1 \/ status = 2)
  /\ (status = 1 -> v = -1)
  /\ (status = 2 ->
      exists (l r : Z) (before : list event),
        trace w' = trace w ++ before
                     ++ [Called (sys_accept l) (-1); Called (sys_close l) r]
        /\ l <> -1
        /\ v = if r =? -1 then l else -1).
Proof.
  intros Hrun Hstatus.
  destruct (client_or_server_socket_create_runs sockfd0 servfd0 address port
              debug w)
    as (client & w1 & attempt & status' & s' & v' & w'' & later
        & _ & (T1 & _) & E & (T & _) & R).
  rewrite Hrun in E. injection E as <- <- <- <-.
  rewrite T1 in T. clear T1 Hrun.
  inversion R as [ | | | ? serving accepting closing l st ? HC HL HS HA HCL ];
    subst; try congruence.
  - repeat split; auto. intros; discriminate.
  - inversion HA as [pre ? HN]; subst.
    repeat split; auto; try (intros; discriminate). intros _.
    inversion HCL as [ Hl | Hl | r Hl Hr ]; subst; try congruence.
    + match goal with
      | H : close_run ?fd _ _ |- _ =>
          exists fd, (-1), (attempt ++ serving ++ pre)
      end.
      split; [|split; [assumption | reflexivity]].
      rewrite T. rewrite <- !app_assoc. reflexivity.
    + match goal with
      | H : close_run ?fd _ _ |- _ =>
          exists fd, r, (attempt ++ serving ++ pre)
      end.
      split; [|split; [assumption|]].
      * rewrite T. rewrite <- !app_assoc. reflexivity.
      * apply Z.eqb_neq in Hr. rewrite Hr. reflexivity.
Qed.

Lemma failed_negotiation_handles_witness :
  exists w' : world,
    client_or_server_socket_create (-1) (-1) "127.0.0.1" 5000 false
      (world_with [3; -1; 0; 4; 0; 0; -1; -1] [] [])
    = Ok (2, -1, 4) w'
    /\ -1 = -1
    /\ (2 = 1 \/ 2 = 2)
    /\ (2 = 1 -> 4 = -1)
    /\ (2 = 2 ->
        exists (l r : Z) (before : list event),
          trace w' = [] ++ before
                       ++ [Called (sys_accept l) (-1); Called (sys_close l) r]
          /\ l <> -1
          /\ 4 = if r =? -1 then l else -1).
Proof.
  assert (E : exists w' : world,
             client_or_server_socket_create (-1) (-1) "127.0.0.1" 5000 false
               (world_with [3; -1; 0; 4; 0; 0; -1; -1] [] [])
             = Ok (2, -1, 4) w')
    by (eexists; vm_compute; reflexivity).
  destruct E as [w' E]. exists w'. split; [exact E|].
  refine (failed_negotiation_handles (-1) (-1) "127.0.0.1" 5000 false
            (world_with [3; -1; 0; 4; 0; 0; -1; -1] [] []) w' 2 (-1) 4 E _).
  discriminate.
Defined.

(** C10, as stated, fails: the client attempt is refused, the server socket
    4 is set up, the accept fails and so does the close of socket 4; the
    status is 2 and [*servfd] is 4, not -1. *)
Lemma failed_negotiation_counterexample :
  ~ (forall (sockfd0 servfd0 : Z) (address : string) (port : Z)
            (debug : bool) (w w' : world) (status s v : Z),
        client_or_server_socket_create sockfd0 servfd0 address port debug w
        = Ok (status, s, v) w' ->
        status <> 0 ->
        s = -1 /\ v = -1).
Proof.
  intros claim.
  assert (E : exists w' : world,
             client_or_server_socket_create (-1) (-1) "127.0.0.1" 5000 false
               (world_with [3; -1; 0; 4; 0; 0; -1; -1] [] [])
             = Ok (2, -1, 4) w')
    by (eexists; vm_compute; reflexivity).
  destruct E as [w' E].
  destruct (claim _ _ _ _ _ _ _ _ _ _ E) as [_ H]; discriminate.
Qed.

(** ** The end of a transfer loop *)

Lemma quiet_app (e1 e2 : list event) : quiet e1 -> quiet e2 -> quiet (e1 ++ e2).
Proof.
  unfold quiet. intros H1 H2. rewrite existsb_app, H1, H2. reflexivity.
Qed.

Lemma quiet_then_failed (e1 e2 : list event) :
  quiet e1 -> ends_in_failed_read e2 -> ends_in_failed_read (e1 ++ e2).
Proof.
  intros H1 (before & e & -> & He & Hq).
  exists (e1 ++ before), e. rewrite app_assoc.
  split; [reflexivity|]. split; [exact He | apply quiet_app; assumption].
Qed.

Lemma store_in_bounds (buffer : list byte) :
  forall (index : nat) (symbol : byte),
    (index < List.length buffer)%nat ->
    exists buffer' : list byte,
      store buffer index symbol = Some buffer'
      /\ List.length buffer' = List.length buffer.
Proof.
  induction buffer as [|b buffer IH]; intros index symbol H; cbn in H; [lia|].
  destruct index as [|index]; cbn.
  - eexists. split; reflexivity.
  - destruct (IH index symbol) as (buffer' & E & L); [lia|].
    rewrite E. cbn. eexists. split; [reflexivity|]. cbn. lia.
Qed.

(** What [socket_read]'s loop does from any point on: it comes back, with
    the buffer as long as before; either it ends by its own condition,
    after calls that all delivered a byte, or it returns 0 or -1 right after
    a reception that failed. *)
Lemma socket_read_loop_runs (sockfd : Z) :
  forall (remaining index : nat) (symbol : byte) (buffer : list byte)
         (w : world),
    (index + remaining <= List.length buffer)%nat ->
    exists (n : Z) (buffer' : list byte) (w' : world) (events : list event),
      socket_read_loop remaining sockfd index symbol buffer w
      = Ok (n, buffer') w'
      /\ trace w' = trace w ++ events
      /\ fifo_reads w' = fifo_reads w
      /\ List.length buffer' = List.length buffer
      /\ ((exists index' : nat,
             n = Z.of_nat index' /\ quiet events
             /\ ((index' = index /\ w' = w
                  /\ (remaining = 0%nat \/ symbol = NEWLINE))
                 \/ ((index < index')%nat
                     /\ (List.length (incoming w')
                         < List.length (incoming w))%nat)))
          \/ ((n = 0 \/ n = -1)
              /\ ends_in_failed_read events
              /\ (List.length (incoming w') <= List.length (incoming w))%nat)).
Proof.
  induction remaining as [|remaining IH]; intros index symbol buffer w Hb.
  - exists (Z.of_nat index), buffer, w, []. cbn. rewrite app_nil_r.
    repeat split. left. exists index. repeat split. left. auto.
  - cbn [socket_read_loop].
    destruct (Byte.eqb symbol NEWLINE) eqn:Hs.
    + apply Byte.byte_dec_bl in Hs.
      exists (Z.of_nat index), buffer, w, []. unfold ret. rewrite app_nil_r.
      repeat split. left. exists index. repeat split. left. auto.
    + unfold bind at 1, recv, next_incoming.
      destruct (incoming w) as [|e rx] eqn:Hin; cbn [hd tl];
        [|destruct e as [b| |]]; cbn beta iota; cbn [Z.eqb Pos.eqb].
      * (* drained: end of file *)
        destruct (store_in_bounds buffer index symbol) as (b' & E & L);
          [lia|].
        rewrite E. eexists 0, b', _, [Received sockfd RecvEof].
        unfold ret. split; [reflexivity|]. cbn. repeat split; auto.
        right. split; [auto|]. split; [|lia].
        exists [], (Received sockfd RecvEof). repeat split.
      * (* a byte *)
        destruct (store_in_bounds buffer index b) as (b' & E & L); [lia|].
        rewrite E.
        match goal with
        | |- context [socket_read_loop remaining sockfd (S index) b b' ?w1] =>
            destruct (IH (S index) b b' w1) as (n & b'' & w' & evs & R & T & F & L' & D);
              [lia|]
        end.
        rewrite R. cbn in T, F.
        exists n, b'', w', (Received sockfd (RecvByte b) :: evs).
        split; [reflexivity|].
        split; [rewrite T, <- app_assoc; reflexivity|].
        split; [exact F|]. split; [lia|].
        destruct D as [(index' & Hn & Hq & D) | (Hn & Hf & Hl)].
        -- left. exists index'. split; [exact Hn|]. split; [exact Hq|].
           right. destruct D as [(-> & -> & _) | (Hlt & Hl)]; cbn in *.
           ++ split; lia.
           ++ split; lia.
        -- right. split; [exact Hn|]. split.
           ++ apply (quiet_then_failed [Received sockfd (RecvByte b)] evs);
                [reflexivity | exact Hf].
           ++ cbn in Hl. cbn. lia.
      * (* end of file *)
        destruct (store_in_bounds buffer index symbol) as (b' & E & L);
          [lia|].
        rewrite E. eexists 0, b', _, [Received sockfd RecvEof].
        unfold ret. split; [reflexivity|]. cbn. repeat split; auto.
        right. split; [auto|]. split; [|lia].
        exists [], (Received sockfd RecvEof). repeat split.
      * (* error *)
        eexists (-1), buffer, _, [Received sockfd RecvError].
        unfold ret. split; [reflexivity|]. cbn. repeat split; auto.
        right. split; [auto|]. split; [|lia].
        exists [], (Received sockfd RecvError). repeat split.
Qed.

(** [socket_write]'s loop comes back, after sends only. *)
Lemma socket_write_loop_runs (sockfd : Z) (buffer : list byte) :
  forall (remaining index : nat) (w : world),
    (index + remaining <= List.length buffer)%nat ->
    exists (r : Z) (w' : world) (events : list event),
      socket_write_loop remaining sockfd buffer index w = Ok r w'
      /\ advances w w' events /\ quiet events.
Proof.
  induction remaining as [|remaining IH]; intros index w Hb.
  - exists (Z.of_nat index), w, []. split; [reflexivity|].
    split; [apply advances_refl | reflexivity].
  - cbn [socket_write_loop].
    destruct (nth_error buffer index) as [symbol|] eqn:Hn.
    2:{ apply nth_error_None in Hn. lia. }
    unfold bind at 1, sys, next_result.
    set (status := hd (-1) (os_results w)).
    set (w1 := {| os_results := tl (os_results w); incoming := incoming w;
                  fifo_reads := fifo_reads w;
                  trace := trace w ++ [Called (sys_send sockfd symbol) status];
                  console := console w |}).
    assert (A1 : advances w w1 [Called (sys_send sockfd symbol) status])
      by (unfold advances; cbn; auto).
    destruct (status =? -1);
      [exists (-1), w1, [Called (sys_send sockfd symbol) status];
       split; [reflexivity|]; split; [exact A1 | reflexivity]|].
    destruct (status =? 0);
      [exists 0, w1, [Called (sys_send sockfd symbol) status];
       split; [reflexivity|]; split; [exact A1 | reflexivity]|].
    destruct (is_terminator symbol);
      [exists (Z.of_nat index), w1, [Called (sys_send sockfd symbol) status];
       split; [reflexivity|]; split; [exact A1 | reflexivity]|].
    destruct (IH (S index) w1) as (r & w' & evs & R & A & Q); [lia|].
    exists r, w', ([Called (sys_send sockfd symbol) status] ++ evs).
    split; [exact R|]. split; [exact (advances_trans _ _ _ _ _ A1 A)|].
    apply quiet_app; [reflexivity | exact Q].
Qed.

Lemma memset_zero_length (n : nat) : List.length (memset_zero n) = n.
Proof. apply repeat_length. Qed.

(** With enough fuel the loop ends, and it ends in its first failed read. *)
Lemma transfer_loop_ends
    (thread_read : list byte -> nat -> M (Z * list byte))
    (thread_write : list byte -> nat -> M Z) :
  read_step_ok thread_read ->
  write_step_ok thread_write ->
  forall (fuel : nat) (buffer : list byte) (w : world),
    List.length buffer = BUFFER_SIZE ->
    (pending w < fuel)%nat ->
    exists (w' : world) (events : list event),
      transfer_loop thread_read thread_write fuel buffer w = Ok tt w'
      /\ trace w' = trace w ++ events
      /\ ends_in_failed_read events.
Proof.
  intros HR HW. induction fuel as [|fuel IH]; intros buffer w Hb Hp; [lia|].
  cbn [transfer_loop]. unfold transfer_step.
  change (BUFFER_SIZE - 1)%nat with 1023%nat.
  destruct (HR buffer w Hb) as (n & b1 & w1 & ev1 & R & T1 & L1 & D).
  unfold bind at 1 2. rewrite R.
  destruct D as [(Hn & Q1 & P1) | (Hn & F1)]; rewrite Hn.
  - destruct (HW b1 w1 L1) as (r & w2 & ev2 & W & T2 & Q2 & P2).
    unfold bind at 1. rewrite W. unfold ret at 1.
    destruct (IH (memset_zero BUFFER_SIZE) w2 (memset_zero_length _))
      as (w' & ev3 & E & T3 & F3); [lia|].
    exists w', (ev1 ++ ev2 ++ ev3). split; [exact E|].
    split; [rewrite T3, T2, T1, <- !app_assoc; reflexivity|].
    apply quiet_then_failed; [exact Q1|].
    apply quiet_then_failed; [exact Q2 | exact F3].
  - exists w1, ev1. unfold ret. auto.
Qed.

Lemma overlay_length (data buffer : list byte) :
  List.length (overlay data buffer) = List.length buffer.
Proof.
  unfold overlay. rewrite length_firstn, length_app, length_skipn. lia.
Qed.

Lemma buffer_read_step (fd : Z) : read_step_ok (buffer_read fd).
Proof.
  intros buffer w Hb. unfold buffer_read, next_fifo_read, pending.
  destruct (fifo_reads w) as [|[r data] rest] eqn:Hf; cbn [hd tl].
  - eexists 0, _, _, [BufferRead fd 1023 0 []].
    split; [reflexivity|]. cbn [trace]. split; [reflexivity|].
    split; [rewrite overlay_length; exact Hb|].
    right. split; [reflexivity|].
    exists [], (BufferRead fd 1023 0 []). repeat split.
  - eexists r, _, _, [BufferRead fd 1023 r data].
    split; [reflexivity|]. cbn [trace incoming fifo_reads].
    split; [reflexivity|].
    split; [rewrite overlay_length; exact Hb|].
    destruct (0 <? r) eqn:Hr.
    + left. split; [reflexivity|]. split; [|cbn; lia].
      unfold quiet. cbn. apply Z.ltb_lt in Hr.
      destruct (Z.leb_spec r 0); [lia | reflexivity].
    + right. split; [reflexivity|].
      exists [], (BufferRead fd 1023 r data). repeat split.
      cbn. apply Z.ltb_ge in Hr. apply Z.leb_le. exact Hr.
Qed.

Lemma socket_read_step (sockfd : Z) : read_step_ok (socket_read sockfd).
Proof.
  intros buffer w Hb. unfold socket_read.
  destruct (socket_read_loop_runs sockfd 1023 0 NUL buffer w)
    as (n & b' & w' & evs & R & T & F & L & D);
    [rewrite Hb; unfold BUFFER_SIZE; lia|].
  exists n, b', w', evs. split; [exact R|]. split; [exact T|].
  split; [lia|].
  destruct D as [(index' & Hn & Q & D) | (Hn & Hf & Hl)].
  - destruct D as [(_ & _ & [D|D]) | (Hlt & Hl)]; try discriminate.
    left. split; [subst n; apply Z.ltb_lt; lia|].
    split; [exact Q|]. unfold pending. rewrite F. lia.
  - right. split; [destruct Hn; subst n; reflexivity | exact Hf].
Qed.

Lemma buffer_write_step (fd : Z) : write_step_ok (buffer_write fd).
Proof.
  intros buffer w Hb. unfold buffer_write, sys.
  do 3 eexists. split; [reflexivity|]. cbn [trace].
  split; [reflexivity|]. split; reflexivity.
Qed.

Lemma socket_write_step (sockfd : Z) : write_step_ok (socket_write sockfd).
Proof.
  intros buffer w Hb. unfold socket_write.
  destruct (socket_write_loop_runs sockfd buffer 1023 0 w)
    as (r & w' & evs & R & (T & I & F) & Q);
    [rewrite Hb; unfold BUFFER_SIZE; lia|].
  exists r, w', evs. split; [exact R|]. split; [exact T|].
  split; [exact Q|]. unfold pending. rewrite I, F. reflexivity.
Qed.

(** A debug message changes the console and nothing else. *)
Lemma when_print (c : bool) (s : string) (w : world) :
  exists w1 : world,
    when c (info_print s) w = Ok tt w1
    /\ trace w1 = trace w
    /\ pending w1 = pending w.
Proof.
  destruct c; cbn; eexists; (split; [reflexivity|]); split; reflexivity.
Qed.

Lemma write_step_after_print (c : bool) (s : string)
    (thread_write : list byte -> nat -> M Z) :
  write_step_ok thread_write ->
  write_step_ok (fun buffer size =>
                   when c (info_print s) ;; thread_write buffer size).
Proof.
  intros HW buffer w Hb.
  destruct (when_print c s w) as (w1 & E & T & P).
  destruct (HW buffer w1 Hb) as (r & w' & evs & W & T' & Q & P').
  exists r, w', evs. rewrite (bind_ok _ _ _ _ _ E).
  split; [exact W|]. split; [congruence|]. split; [exact Q | congruence].
Qed.

Lemma stdin_thread_read_step (g : state) : read_step_ok (stdin_thread_read g).
Proof.
  unfold stdin_thread_read.
  destruct (is_open (stdin_fifo g) && is_open (sockfd g));
    apply buffer_read_step.
Qed.

Lemma stdin_thread_write_step (g : state) :
  write_step_ok (stdin_thread_write g).
Proof.
  unfold stdin_thread_write.
  destruct (is_open (stdin_fifo g) && is_open (sockfd g)).
  - apply (write_step_after_print _ _ (socket_write (sockfd g))).
    apply socket_write_step.
  - destruct (is_open (stdout_fifo g)); [apply buffer_write_step|].
    destruct (is_open (sockfd g));
      [apply socket_write_step | apply buffer_write_step].
Qed.

Lemma stdout_thread_read_step (g : state) :
  is_open (stdin_fifo g) || is_open (sockfd g) = true ->
  read_step_ok (stdout_thread_read g).
Proof.
  unfold stdout_thread_read. intros H.
  destruct (is_open (stdin_fifo g)), (is_open (sockfd g));
    try discriminate; cbn [andb];
    first [apply socket_read_step | apply buffer_read_step].
Qed.

Lemma stdout_thread_write_step (g : state) :
  write_step_ok (stdout_thread_write g).
Proof.
  unfold stdout_thread_write.
  destruct (is_open (stdout_fifo g) && is_open (sockfd g)).
  - apply (write_step_after_print _ _ (buffer_write (stdout_fifo g))).
    apply buffer_write_step.
  - apply buffer_write_step.
Qed.

Lemma stdin_routine_ends (fuel : nat) (g : state) (w : world) :
  (pending w < fuel)%nat ->
  exists (g' : state) (w' : world) (before : list event) (e : event) (k : Z),
    stdin_routine fuel g w = Ok g' w'
    /\ trace w' = trace w ++ before
                     ++ [e; Called (sys_pthread_kill stdout_thread SIGUSR1) k]
    /\ read_failed e = true
    /\ existsb read_failed before = false
    /\ stdin_running g' = false.
Proof.
  intros Hp. unfold stdin_routine.
  destruct (when_print (debug (args g)) "start of stdin routine" w)
    as (w1 & E1 & T1 & P1).
  rewrite (bind_ok _ _ _ _ _ E1). cbv zeta.
  destruct (transfer_loop_ends _ _
              (stdin_thread_read_step (set_stdin_running true g))
              (stdin_thread_write_step (set_stdin_running true g))
              fuel (memset_zero BUFFER_SIZE) w1 (memset_zero_length _))
    as (w2 & evs & E2 & T2 & (before & e & -> & He & Hq)); [lia|].
  rewrite (bind_ok _ _ _ _ _ E2).
  destruct (when_print (debug (args (set_stdin_running true g)))
              "killing stdout routine..." w2) as (w3 & E3 & T3 & P3).
  rewrite (bind_ok _ _ _ _ _ E3).
  unfold bind at 1, sys at 1.
  match goal with
  | |- context [bind (when ?c (info_print ?s)) _ ?w4] =>
      destruct (when_print c s w4) as (w5 & E5 & T5 & P5)
  end.
  rewrite (bind_ok _ _ _ _ _ E5). unfold ret.
  do 2 eexists. exists before, e, (next_result w3).
  split; [reflexivity|].
  split; [rewrite T5; cbn [trace]; rewrite T3, T2, T1, <- !app_assoc;
          reflexivity|].
  auto.
Qed.

Lemma stdout_routine_ends (fuel : nat) (g : state) (w : world) :
  (pending w < fuel)%nat ->
  is_open (stdin_fifo g) || is_open (sockfd g) = true ->
  exists (g' : state) (w' : world) (before : list event) (e : event) (k : Z),
    stdout_routine fuel g w = Ok g' w'
    /\ trace w' = trace w ++ before
                     ++ [e; Called (sys_pthread_kill stdin_thread SIGUSR1) k]
    /\ read_failed e = true
    /\ existsb read_failed before = false
    /\ stdout_running g' = false.
Proof.
  intros Hp Hopen. unfold stdout_routine.
  replace ((stdin_fifo g =? -1) && (sockfd g =? -1)) with false.
  2:{ unfold is_open in Hopen.
      destruct (stdin_fifo g =? -1), (sockfd g =? -1);
        try reflexivity; discriminate. }
  destruct (when_print (debug (args g)) "start of stdout routine" w)
    as (w1 & E1 & T1 & P1).
  rewrite (bind_ok _ _ _ _ _ E1). cbv zeta.
  destruct (transfer_loop_ends _ _
              (stdout_thread_read_step (set_stdout_running true g) Hopen)
              (stdout_thread_write_step (set_stdout_running true g))
              fuel (memset_zero BUFFER_SIZE) w1 (memset_zero_length _))
    as (w2 & evs & E2 & T2 & (before & e & -> & He & Hq)); [lia|].
  rewrite (bind_ok _ _ _ _ _ E2).
  destruct (when_print (debug (args (set_stdout_running true g)))
              "killing stdin routine..." w2) as (w3 & E3 & T3 & P3).
  rewrite (bind_ok _ _ _ _ _ E3).
  unfold bind at 1, sys at 1.
  match goal with
  | |- context [bind (when ?c (info_print ?s)) _ ?w4] =>
      destruct (when_print c s w4) as (w5 & E5 & T5 & P5)
  end.
  rewrite (bind_ok _ _ _ _ _ E5). unfold ret.
  do 2 eexists. exists before, e, (next_result w3).
  split; [reflexivity|].
  split; [rewrite T5; cbn [trace]; rewrite T3, T2, T1, <- !app_assoc;
          reflexivity|].
  auto.
Qed.

(** C6.  Both transfer loops, run with fuel for more iterations than the
    environment has reads to deliver.  The routine returns.  Among its
    calls there is one failed read of its source (a read that returned zero
    or an error), no other read failed before it, it is the last call of
    the loop (no write and no read follows it), and the call right after it,
    the routine's last, is [pthread_kill] with [SIGUSR1] on the thread of
    the other loop.  The download routine is meant here when it runs at all
    (a socket or a stdin FIFO is open).  That failed reads are the reads
    with a result that is not positive is the last part: a read of either
    loop that returns a positive number has made no failed call, and one
    that does not has made exactly one, its last. *)
Theorem transfer_loop_stops_and_signals
    (g : state) (w : world) (fuel : nat) :
  (pending w < fuel)%nat ->
  (exists (g' : state) (w' : world) (before : list event) (e : event) (k : Z),
      stdin_routine fuel g w = Ok g' w'
      /\ trace w' = trace w ++ before
                       ++ [e; Called (sys_pthread_kill stdout_thread SIGUSR1) k]
      /\ read_failed e = true
      /\ existsb read_failed before = false)
  /\ (is_open (stdin_fifo g) || is_open (sockfd g) = true ->
      exists (g' : state) (w' : world) (before : list event) (e : event)
             (k : Z),
        stdout_routine fuel g w = Ok g' w'
        /\ trace w' = trace w ++ before
                         ++ [e; Called (sys_pthread_kill stdin_thread SIGUSR1) k]
        /\ read_failed e = true
        /\ existsb read_failed before = false)
  /\ read_step_ok (stdin_thread_read g)
  /\ (is_open (stdin_fifo g) || is_open (sockfd g) = true ->
      read_step_ok (stdout_thread_read g)).
Proof.
  intros Hp. split; [|split; [|split]].
  - destruct (stdin_routine_ends fuel g w Hp)
      as (g' & w' & before & e & k & E & T & He & Hq & _).
    exists g', w', before, e, k. auto.
  - intros Hopen.
    destruct (stdout_routine_ends fuel g w Hp Hopen)
      as (g' & w' & before & e & k & E & T & He & Hq & _).
    exists g', w', before, e, k. auto.
  - apply stdin_thread_read_step.
  - apply stdout_thread_read_step.
Qed.

Lemma transfer_loop_stops_and_signals_witness :
  (exists (g' : state) (w' : world) (before : list event) (e : event) (k : Z),
      stdin_routine 4 (session 5 (-1) 3 (-1) false)
        (world_with [] [RecvByte "a"%byte; RecvByte NEWLINE]
           [(2, ["h"%byte; NEWLINE])]) = Ok g' w'
      /\ trace w' = [] ++ before
                       ++ [e; Called (sys_pthread_kill stdout_thread SIGUSR1) k]
      /\ read_failed e = true
      /\ existsb read_failed before = false)
  /\ (exists (g' : state) (w' : world) (before : list event) (e : event)
             (k : Z),
        stdout_routine 4 (session 5 (-1) 3 (-1) false)
          (world_with [] [RecvByte "a"%byte; RecvByte NEWLINE]
             [(2, ["h"%byte; NEWLINE])]) = Ok g' w'
        /\ trace w' = [] ++ before
                         ++ [e; Called (sys_pthread_kill stdin_thread SIGUSR1) k]
        /\ read_failed e = true
        /\ existsb read_failed before = false).
Proof.
  destruct (transfer_loop_stops_and_signals (session 5 (-1) 3 (-1) false)
              (world_with [] [RecvByte "a"%byte; RecvByte NEWLINE]
                 [(2, ["h"%byte; NEWLINE])]) 4 (Nat.lt_succ_diag_r 3))
    as (Hup & Hdown & _).
  split; [exact Hup | exact (Hdown eq_refl)].
Defined.

(** ** The line-length limit in the download loop *)

Lemma skipn_repeat_nul (n m : nat) :
  skipn n (repeat NUL m) = repeat NUL (m - n).
Proof.
  revert m. induction n as [|n IH]; intros m.
  - rewrite Nat.sub_0_r. reflexivity.
  - destruct m as [|m]; [reflexivity | exact (IH m)].
Qed.

Lemma read_span_nonempty (size : nat) (stream : list byte) :
  stream <> [] -> read_span (S size) stream <> [].
Proof.
  destruct stream as [|b stream]; [congruence|]. intros _. cbn.
  destruct (Byte.eqb b NEWLINE); discriminate.
Qed.

Lemma read_span_whole_line (line : list byte) :
  forall size : nat,
    Forall (fun b => Byte.eqb b NEWLINE = false) line ->
    (S (List.length line) <= size)%nat ->
    read_span size (line ++ [NEWLINE]) = line ++ [NEWLINE].
Proof.
  induction line as [|b line IH]; intros size Hline Hsize.
  - destruct size; [lia | reflexivity].
  - destruct size as [|size]; [lia|].
    inversion Hline as [|? ? Hb Hline']; subst.
    cbn. rewrite Hb. f_equal. apply IH; [assumption | cbn in Hsize; lia].
Qed.

Lemma recv_stops (sockfd : Z) (symbol : byte) (w : world) :
  next_incoming w = RecvEof ->
  recv sockfd symbol w
  = Ok (0, symbol)
       (after_receptions w [Received sockfd RecvEof] (tl (incoming w))).
Proof.
  intros H. unfold recv, after_receptions. rewrite H. reflexivity.
Qed.

Lemma recv_fails (sockfd : Z) (symbol : byte) (w : world) :
  next_incoming w = RecvError ->
  recv sockfd symbol w
  = Ok (-1, symbol)
       (after_receptions w [Received sockfd RecvError] (tl (incoming w))).
Proof.
  intros H. unfold recv, after_receptions. rewrite H. reflexivity.
Qed.

Lemma read_span_front (front : list byte) :
  forall tail : list byte,
    Forall (fun b => Byte.eqb b NEWLINE = false) front ->
    read_span (List.length front) (front ++ tail) = front.
Proof.
  induction front as [|b front IH]; intros tail Hfront.
  - destruct tail; reflexivity.
  - inversion Hfront as [|? ? Hb Hfront']; subst.
    cbn. rewrite Hb. f_equal. apply IH. assumption.
Qed.

Lemma written_buffers_app (e1 e2 : list event) :
  written_buffers (e1 ++ e2) = written_buffers e1 ++ written_buffers e2.
Proof.
  induction e1 as [|e e1 IH]; [reflexivity|].
  destruct e as [c a| |]; cbn; try exact IH.
  destruct c; cbn; rewrite ?IH; reflexivity.
Qed.

Lemma written_buffers_receptions (sockfd : Z) (bytes : list byte) :
  written_buffers (receptions sockfd bytes) = [].
Proof. induction bytes as [|b bytes IH]; [reflexivity | exact IH]. Qed.

(** One iteration of the download loop with a socket that delivers a line
    or fills the bound: the line goes to [buffer_write], the rest stays. *)
Lemma download_step_forwards
    (g : state) (w : world) (stream : list byte) (behind : list recv_event) :
  is_open (sockfd g) = true ->
  incoming w = map RecvByte stream ++ behind ->
  In NEWLINE stream \/ (1023 <= List.length stream)%nat ->
  exists w' : world,
    transfer_step (stdout_thread_read g) (stdout_thread_write g)
      (memset_zero BUFFER_SIZE) w = Ok true w'
    /\ trace w'
       = trace w ++ receptions (sockfd g) (read_span 1023 stream)
           ++ [Called (call_buffer_write (download_fd g)
                         (line_buffer (read_span 1023 stream)) 1023)
                 (next_result w)]
    /\ incoming w'
       = map RecvByte (skipn (List.length (read_span 1023 stream)) stream)
           ++ behind.
Proof.
  intros Hsock Hin Hends.
  assert (Hne : stream <> []).
  { destruct Hends as [H|H]; destruct stream; try congruence;
      [destruct H | cbn in H; lia]. }
  pose proof (read_span_nonempty 1022 stream Hne) as Hline.
  change (S 1022) with 1023%nat in Hline.
  set (line := read_span 1023 stream) in *.
  assert (Hbuf : (1023 <= List.length (memset_zero BUFFER_SIZE))%nat)
    by (rewrite memset_zero_length; unfold BUFFER_SIZE; lia).
  unfold transfer_step. change (BUFFER_SIZE - 1)%nat with 1023%nat.
  assert (Hread : stdout_thread_read g (memset_zero BUFFER_SIZE) 1023
                  = socket_read (sockfd g) (memset_zero BUFFER_SIZE) 1023).
  { unfold stdout_thread_read. rewrite Hsock.
    destruct (is_open (stdin_fifo g)); reflexivity. }
  rewrite Hread.
  rewrite (bind_ok _ _ _ _ _
             (socket_read_line (sockfd g) (memset_zero BUFFER_SIZE) 1023
                stream behind w Hbuf Hin Hends)).
  fold line.
  assert (Hpos : (0 <? Z.of_nat (List.length line)) = true).
  { apply Z.ltb_lt. destruct line; [congruence | cbn; lia]. }
  rewrite Hpos.
  assert (Hlb : line ++ skipn (List.length line) (memset_zero BUFFER_SIZE)
                = line_buffer line)
    by (unfold line_buffer, memset_zero; rewrite skipn_repeat_nul;
        reflexivity).
  rewrite Hlb.
  unfold stdout_thread_write, download_fd. rewrite Hsock, andb_true_r.
  destruct (is_open (stdout_fifo g)), (debug (args g));
    unfold bind, when, info_print, buffer_write, sys, ret, next_result,
      after_receptions;
    cbn [trace incoming os_results fifo_reads console hd tl];
    (eexists; split; [reflexivity|]);
    cbn [trace incoming os_results fifo_reads console];
    rewrite <- app_assoc; split; reflexivity.
Qed.

(** A read that finds the socket at end of file or in error makes this one
    reception and returns a number that is not positive. *)
Lemma socket_read_loop_stops
    (remaining : nat) (sockfd : Z) (index : nat) (symbol : byte)
    (buffer : list byte) (w : world) :
  Byte.eqb symbol NEWLINE = false ->
  (index < List.length buffer)%nat ->
  (forall b : byte, next_incoming w <> RecvByte b) ->
  exists (n : Z) (buffer' : list byte) (w' : world),
    socket_read_loop (S remaining) sockfd index symbol buffer w
    = Ok (n, buffer') w'
    /\ (0 <? n) = false
    /\ trace w' = trace w ++ [Received sockfd (next_incoming w)]
    /\ incoming w' = tl (incoming w).
Proof.
  intros Hsymbol Hindex Hstop.
  cbn [socket_read_loop]. rewrite Hsymbol.
  destruct (next_incoming w) as [b| |] eqn:E.
  - exfalso. exact (Hstop b eq_refl).
  - rewrite (bind_ok _ _ _ _ _ (recv_stops sockfd symbol w E)).
    change (0 =? -1) with false. cbn iota.
    destruct (store_in_bounds buffer index symbol Hindex)
      as (buffer' & Hstore & _).
    rewrite Hstore. change (0 =? 0) with true. cbn iota.
    exists 0, buffer'. eexists. split; [reflexivity|].
    split; [reflexivity|]. split; reflexivity.
  - rewrite (bind_ok _ _ _ _ _ (recv_fails sockfd symbol w E)).
    change (-1 =? -1) with true. cbn iota.
    exists (-1), buffer. eexists. split; [reflexivity|].
    split; [reflexivity|]. split; reflexivity.
Qed.

(** The iteration that finds the socket at end of file or in error: the
    read is not positive, nothing is written and the loop stops. *)
Lemma download_step_stops (g : state) (w : world) :
  is_open (sockfd g) = true ->
  (forall b : byte, next_incoming w <> RecvByte b) ->
  exists w' : world,
    transfer_step (stdout_thread_read g) (stdout_thread_write g)
      (memset_zero BUFFER_SIZE) w = Ok false w'
    /\ trace w' = trace w ++ [Received (sockfd g) (next_incoming w)]
    /\ incoming w' = tl (incoming w).
Proof.
  intros Hsock Hstop.
  unfold transfer_step. change (BUFFER_SIZE - 1)%nat with 1023%nat.
  assert (Hread : stdout_thread_read g (memset_zero BUFFER_SIZE) 1023
                  = socket_read (sockfd g) (memset_zero BUFFER_SIZE) 1023).
  { unfold stdout_thread_read. rewrite Hsock.
    destruct (is_open (stdin_fifo g)); reflexivity. }
  rewrite Hread. unfold socket_read.
  assert (Hbuf : (0 < List.length (memset_zero BUFFER_SIZE))%nat)
    by (rewrite memset_zero_length; unfold BUFFER_SIZE; lia).
  destruct (socket_read_loop_stops 1022 (sockfd g) 0 NUL
              (memset_zero BUFFER_SIZE) w eq_refl Hbuf Hstop)
    as (n & buffer' & w' & E & Hn & T & I).
  change (S 1022) with 1023%nat in E.
  rewrite (bind_ok _ _ _ _ _ E). rewrite Hn.
  exists w'. split; [reflexivity|]. split; assumption.
Qed.

(** C5, as amended.  The download loop on a socket that delivers a line of
    1023 to 2045 payload bytes ([front], the first 1023, and [back], the
    others) and its newline, and is then at end of file or in error.  The
    loop runs three times and never leaves the buffer.  The first iteration
    reads the 1023 bytes of [front] and hands them to [buffer_write],
    unchanged and in order, in the zeroed 1024-byte buffer.  The second
    reads what is behind the boundary, [back] and the newline, and hands
    that to [buffer_write] the same way: nothing of the line is dropped.
    The third finds the end and stops the loop.  With [back] empty this is
    the line of exactly 1023 payload bytes, whose newline goes out alone in
    the second write; with 977 bytes in [back] it is the line of 2000. *)
Theorem download_loop_splits_line_at_bound
    (g : state) (front back : list byte) (ending : list recv_event)
    (w : world) (fuel : nat) :
  is_open (sockfd g) = true ->
  List.length front = 1023%nat ->
  (List.length back < 1023)%nat ->
  Forall (fun b => Byte.eqb b NEWLINE = false) (front ++ back) ->
  incoming w = map RecvByte (front ++ back ++ [NEWLINE]) ++ ending ->
  (forall b : byte, hd RecvEof ending <> RecvByte b) ->
  (3 <= fuel)%nat ->
  exists (w' : world) (events : list event) (a1 a2 : Z),
    transfer_loop (stdout_thread_read g) (stdout_thread_write g) fuel
      (memset_zero BUFFER_SIZE) w = Ok tt w'
    /\ trace w' = trace w ++ events
    /\ events
       = receptions (sockfd g) front
           ++ [Called (call_buffer_write (download_fd g)
                         (line_buffer front) 1023) a1]
           ++ receptions (sockfd g) (back ++ [NEWLINE])
           ++ [Called (call_buffer_write (download_fd g)
                         (line_buffer (back ++ [NEWLINE])) 1023) a2]
           ++ [Received (sockfd g) (hd RecvEof ending)]
    /\ written_buffers events
       = [line_buffer front; line_buffer (back ++ [NEWLINE])]
    /\ incoming w' = tl ending.
Proof.
  intros Hsock Hfront Hback Hline Hin Hstop Hfuel.
  apply Forall_app in Hline. destruct Hline as [Hf Hb].
  destruct fuel as [|[|[|fuel]]]; try lia. clear Hfuel.
  assert (Hspan1 : read_span 1023 (front ++ back ++ [NEWLINE]) = front)
    by (rewrite <- Hfront; apply read_span_front; exact Hf).
  assert (Hspan2 : read_span 1023 (back ++ [NEWLINE]) = back ++ [NEWLINE])
    by (apply read_span_whole_line; [exact Hb | lia]).
  destruct (download_step_forwards g w (front ++ back ++ [NEWLINE]) ending
              Hsock Hin) as (w1 & E1 & T1 & I1).
  { right. rewrite length_app. lia. }
  rewrite Hspan1 in T1, I1.
  rewrite skipn_app, skipn_all, Nat.sub_diag in I1. cbn [skipn app] in I1.
  destruct (download_step_forwards g w1 (back ++ [NEWLINE]) ending
              Hsock I1) as (w2 & E2 & T2 & I2).
  { left. apply in_or_app. right. left. reflexivity. }
  rewrite Hspan2 in T2, I2. rewrite skipn_all in I2. cbn [map app] in I2.
  destruct (download_step_stops g w2 Hsock) as (w3 & E3 & T3 & I3).
  { unfold next_incoming. rewrite I2. exact Hstop. }
  unfold next_incoming in T3. rewrite I2 in T3, I3.
  exists w3. eexists. exists (next_result w), (next_result w1).
  split.
  { cbn [transfer_loop].
    rewrite (bind_ok _ _ _ _ _ E1). cbn beta iota.
    rewrite (bind_ok _ _ _ _ _ E2). cbn beta iota.
    rewrite (bind_ok _ _ _ _ _ E3). reflexivity. }
  split.
  { rewrite T3, T2, T1, <- !app_assoc. reflexivity. }
  split; [reflexivity|].
  split; [|exact I3].
  rewrite !written_buffers_app, !written_buffers_receptions. reflexivity.
Qed.

Lemma download_loop_splits_line_at_bound_witness :
  exists (w' : world) (events : list event) (a1 a2 : Z),
    transfer_loop (stdout_thread_read (session (-1) 6 3 (-1) false))
      (stdout_thread_write (session (-1) 6 3 (-1) false)) 3
      (memset_zero BUFFER_SIZE)
      (world_with [1023; 978]
         (map RecvByte
            (repeat "a"%byte 1023 ++ repeat "b"%byte 977 ++ [NEWLINE])) [])
    = Ok tt w'
    /\ trace w' = [] ++ events
    /\ events
       = receptions 3 (repeat "a"%byte 1023)
           ++ [Called (call_buffer_write
                         (download_fd (session (-1) 6 3 (-1) false))
                         (line_buffer (repeat "a"%byte 1023)) 1023) a1]
           ++ receptions 3 (repeat "b"%byte 977 ++ [NEWLINE])
           ++ [Called (call_buffer_write
                         (download_fd (session (-1) 6 3 (-1) false))
                         (line_buffer (repeat "b"%byte 977 ++ [NEWLINE]))
                         1023) a2]
           ++ [Received 3 (hd RecvEof [])]
    /\ written_buffers events
       = [line_buffer (repeat "a"%byte 1023);
          line_buffer (repeat "b"%byte 977 ++ [NEWLINE])]
    /\ incoming w' = tl [].
Proof.
  refine (download_loop_splits_line_at_bound (session (-1) 6 3 (-1) false)
            (repeat "a"%byte 1023) (repeat "b"%byte 977) [] _ 3
            eq_refl _ _ _ _ _ _).
  - apply repeat_length.
  - rewrite repeat_length. lia.
  - apply Forall_app. split; apply Forall_forall; intros b Hb;
      apply repeat_spec in Hb; subst b; reflexivity.
  - cbn [world_with incoming]. symmetry. apply app_nil_r.
  - intros b. discriminate.
  - lia.
Defined.

(** C5, as stated, fails: the claim has the relay forward the line of 2000
    bytes cut at the boundary and drop the 977 bytes behind it, and the
    loop hands these to the sink in its next write. *)
Lemma long_line_truncation_counterexample :
  ~ (forall (g : state) (line : list byte) (w w' : world) (fuel : nat),
        is_open (sockfd g) = true ->
        List.length line = 2000%nat ->
        Forall (fun b => is_terminator b = false) line ->
        incoming w = map RecvByte (line ++ [NEWLINE]) ->
        trace w = [] ->
        transfer_loop (stdout_thread_read g) (stdout_thread_write g) fuel
          (memset_zero BUFFER_SIZE) w = Ok tt w' ->
        Forall (fun buffer => buffer = line_buffer (spec_truncated line))
          (written_buffers (trace w'))).
Proof.
  intros claim.
  assert (E : exists w' : world,
             transfer_loop (stdout_thread_read (session (-1) 6 3 (-1) false))
               (stdout_thread_write (session (-1) 6 3 (-1) false)) 3
               (memset_zero BUFFER_SIZE)
               (world_with [1023; 978]
                  (map RecvByte
                     ((repeat "a"%byte 1023 ++ repeat "b"%byte 977)
                        ++ [NEWLINE])) [])
             = Ok tt w'
             /\ written_buffers (trace w')
                = [line_buffer (repeat "a"%byte 1023);
                   line_buffer (repeat "b"%byte 977 ++ [NEWLINE])])
    by (eexists; vm_compute; split; reflexivity).
  destruct E as (w' & E & Hwritten).
  assert (Hline : Forall (fun b => is_terminator b = false)
                    (repeat "a"%byte 1023 ++ repeat "b"%byte 977))
    by (apply Forall_app; split; apply Forall_forall; intros b Hb;
        apply repeat_spec in Hb; subst b; reflexivity).
  assert (Hlen : List.length (repeat "a"%byte 1023 ++ repeat "b"%byte 977)
                 = 2000%nat)
    by (rewrite length_app, !repeat_length; reflexivity).
  pose proof (claim (session (-1) 6 3 (-1) false)
                (repeat "a"%byte 1023 ++ repeat "b"%byte 977)
                (world_with [1023; 978]
                   (map RecvByte
                      ((repeat "a"%byte 1023 ++ repeat "b"%byte 977)
                         ++ [NEWLINE])) [])
                w' 3%nat eq_refl Hlen Hline eq_refl eq_refl E) as H.
  rewrite Hwritten in H.
  inversion H as [|? ? _ H']; subst.
  inversion H' as [|? ? Hsecond _]; subst.
  vm_compute in Hsecond. discriminate Hsecond.
Qed.

(** * Further properties *)

(** ** [socket_read] when the stream stops early *)

Lemma last_behind_head (bytes : list byte) :
  forall b d : byte, last (b :: bytes) d = last bytes b.
Proof.
  induction bytes as [|c bytes IH]; intros b d; [reflexivity|].
  change (last (b :: c :: bytes) d) with (last (c :: bytes) d).
  rewrite (IH c d), (IH c b). reflexivity.
Qed.

(** The loop over bytes that are no newline and do not fill the bound, then
    a reception that delivers nothing. *)
Lemma socket_read_loop_cut (sockfd : Z) (bytes : list byte) :
  forall (size : nat) (pre old : list byte) (x : byte) (post : list byte)
         (symbol : byte) (w : world) (ending : list recv_event),
    (List.length bytes < size)%nat ->
    Forall (fun b => Byte.eqb b NEWLINE = false) bytes ->
    Byte.eqb symbol NEWLINE = false ->
    incoming w = map RecvByte bytes ++ ending ->
    List.length old = List.length bytes ->
    (hd RecvEof ending = RecvEof ->
     socket_read_loop size sockfd (List.length pre) symbol
       (pre ++ old ++ x :: post) w
     = Ok (0, pre ++ bytes ++ last bytes symbol :: post)
          (after_receptions w
             (receptions sockfd bytes ++ [Received sockfd RecvEof])
             (tl ending)))
    /\ (hd RecvEof ending = RecvError ->
        socket_read_loop size sockfd (List.length pre) symbol
          (pre ++ old ++ x :: post) w
        = Ok (-1, pre ++ bytes ++ x :: post)
             (after_receptions w
                (receptions sockfd bytes ++ [Received sockfd RecvError])
                (tl ending))).
Proof.
  induction bytes as [|b bytes IH];
    intros size pre old x post symbol w ending Hlen Hnl Hsym Hin Hold.
  - destruct old; [|discriminate]. destruct size as [|size]; [cbn in Hlen; lia|].
    cbn [map app] in Hin. cbn [socket_read_loop]. rewrite Hsym.
    cbn [app List.length receptions map last].
    split; intros Hend.
    + assert (Hnext : next_incoming w = RecvEof)
        by (unfold next_incoming; rewrite Hin; exact Hend).
      rewrite (bind_ok _ _ _ _ _ (recv_stops sockfd symbol w Hnext)).
      cbn beta iota. cbn [Z.eqb]. rewrite store_middle. unfold ret.
      rewrite Hin. reflexivity.
    + assert (Hnext : next_incoming w = RecvError)
        by (unfold next_incoming; rewrite Hin; exact Hend).
      rewrite (bind_ok _ _ _ _ _ (recv_fails sockfd symbol w Hnext)).
      cbn beta iota. cbn [Z.eqb Pos.eqb]. unfold ret.
      rewrite Hin. reflexivity.
  - destruct old as [|y old]; [discriminate|].
    destruct size as [|size]; [cbn in Hlen; lia|].
    inversion Hnl as [|? ? Hb Hnl']; subst.
    cbn [map app] in Hin. cbn [socket_read_loop]. rewrite Hsym.
    rewrite (bind_ok _ _ _ _ _ (recv_byte sockfd symbol b w _ Hin)).
    cbn beta iota. cbn [Z.eqb Pos.eqb].
    change (pre ++ (y :: old) ++ x :: post)
      with (pre ++ y :: (old ++ x :: post)).
    rewrite store_middle.
    replace (pre ++ b :: old ++ x :: post)
      with ((pre ++ [b]) ++ old ++ x :: post)
      by (rewrite <- app_assoc; reflexivity).
    replace (S (List.length pre)) with (List.length (pre ++ [b]))
      by (rewrite length_app; cbn; lia).
    cbn in Hold, Hlen. injection Hold as Hold.
    destruct (IH size (pre ++ [b]) old x post b
                (after_receptions w [Received sockfd (RecvByte b)]
                   (map RecvByte bytes ++ ending))
                ending) as [Heof Herr]; try assumption; try reflexivity; [lia|].
    pose proof (last_behind_head bytes b symbol) as Hlast.
    split; intros Hend.
    + rewrite (Heof Hend), Hlast, after_receptions_twice, <- app_assoc.
      reflexivity.
    + rewrite (Herr Hend), after_receptions_twice, <- app_assoc.
      reflexivity.
Qed.

Lemma buffer_split_at (n : nat) (buffer : list byte) :
  (n < List.length buffer)%nat ->
  exists (x : byte) (post : list byte),
    buffer = firstn n buffer ++ x :: post /\ skipn (S n) buffer = post.
Proof.
  intros H. destruct (skipn n buffer) as [|x post] eqn:E.
  - apply (f_equal (@List.length byte)) in E. rewrite length_skipn in E.
    cbn in E. lia.
  - exists x, post. split.
    + rewrite <- E. symmetry. apply firstn_skipn.
    + replace (S n) with (1 + n)%nat by lia.
      rewrite <- skipn_skipn, E. reflexivity.
Qed.

(** X1.  At end of file [socket_read] returns 0 whatever it has received
    before in this call: the bytes received stay at the start of the
    buffer, and the byte received last (the null byte when there is none)
    is stored once more behind them. *)
Theorem socket_read_at_end_of_file
    (sockfd : Z) (buffer : list byte) (size : nat) (bytes : list byte)
    (ending : list recv_event) (w : world) :
  (size <= List.length buffer)%nat ->
  (List.length bytes < size)%nat ->
  Forall (fun b => Byte.eqb b NEWLINE = false) bytes ->
  incoming w = map RecvByte bytes ++ ending ->
  hd RecvEof ending = RecvEof ->
  socket_read sockfd buffer size w
  = Ok (0, bytes ++ last bytes NUL :: skipn (S (List.length bytes)) buffer)
       (after_receptions w
          (receptions sockfd bytes ++ [Received sockfd RecvEof])
          (tl ending)).
Proof.
  intros Hsize Hlen Hnl Hin Hend.
  destruct (buffer_split_at (List.length bytes) buffer) as (x & post & Hb & Hp);
    [lia|].
  unfold socket_read. rewrite Hp.
  remember (firstn (List.length bytes) buffer) as old eqn:Hdef.
  assert (Hold : List.length old = List.length bytes)
    by (subst old; rewrite length_firstn; lia).
  clear Hdef Hp. subst buffer.
  exact (proj1 (socket_read_loop_cut sockfd bytes size [] old x post NUL w
                  ending Hlen Hnl eq_refl Hin Hold) Hend).
Qed.

Lemma socket_read_at_end_of_file_witness :
  socket_read 5 (memset_zero 8) 7
    (world_with [] [RecvByte "a"%byte; RecvByte "b"%byte] [])
  = Ok (0, ["a"%byte; "b"%byte; "b"%byte; NUL; NUL; NUL; NUL; NUL])
       (after_receptions
          (world_with [] [RecvByte "a"%byte; RecvByte "b"%byte] [])
          [Received 5 (RecvByte "a"%byte); Received 5 (RecvByte "b"%byte);
           Received 5 RecvEof] []).
Proof.
  refine (socket_read_at_end_of_file 5 (memset_zero 8) 7
            ["a"%byte; "b"%byte] [] (world_with [] _ []) _ _ _ eq_refl
            eq_refl).
  - cbn. lia.
  - cbn. lia.
  - repeat constructor.
Defined.

(** X2.  When a reception fails [socket_read] returns -1 whatever it has
    received before in this call; the bytes received stay at the start of
    the buffer and the rest of the buffer is as it was. *)
Theorem socket_read_on_error
    (sockfd : Z) (buffer : list byte) (size : nat) (bytes : list byte)
    (rest : list recv_event) (w : world) :
  (size <= List.length buffer)%nat ->
  (List.length bytes < size)%nat ->
  Forall (fun b => Byte.eqb b NEWLINE = false) bytes ->
  incoming w = map RecvByte bytes ++ RecvError :: rest ->
  socket_read sockfd buffer size w
  = Ok (-1, bytes ++ skipn (List.length bytes) buffer)
       (after_receptions w
          (receptions sockfd bytes ++ [Received sockfd RecvError]) rest).
Proof.
  intros Hsize Hlen Hnl Hin.
  destruct (buffer_split_at (List.length bytes) buffer) as (x & post & Hb & Hp);
    [lia|].
  unfold socket_read.
  remember (firstn (List.length bytes) buffer) as old eqn:Hdef.
  assert (Hold : List.length old = List.length bytes)
    by (subst old; rewrite length_firstn; lia).
  clear Hdef Hp. subst buffer.
  rewrite skipn_app, <- Hold, Nat.sub_diag, skipn_all. cbn [skipn app].
  exact (proj2 (socket_read_loop_cut sockfd bytes size [] old x post NUL w
                  (RecvError :: rest) Hlen Hnl eq_refl Hin Hold) eq_refl).
Qed.

Lemma socket_read_on_error_witness :
  socket_read 5 (memset_zero 8) 7
    (world_with [] [RecvByte "a"%byte; RecvError; RecvByte "b"%byte] [])
  = Ok (-1, ["a"%byte; NUL; NUL; NUL; NUL; NUL; NUL; NUL])
       (after_receptions
          (world_with [] [RecvByte "a"%byte; RecvError; RecvByte "b"%byte] [])
          [Received 5 (RecvByte "a"%byte); Received 5 RecvError]
          [RecvByte "b"%byte]).
Proof.
  refine (socket_read_on_error 5 (memset_zero 8) 7 ["a"%byte]
            [RecvByte "b"%byte] (world_with [] _ []) _ _ _ eq_refl).
  - cbn. lia.
  - cbn. lia.
  - repeat constructor.
Defined.

(** ** Bounds of the socket functions *)

Lemma store_past_end (buffer : list byte) (symbol : byte) :
  store buffer (List.length buffer) symbol = None.
Proof.
  induction buffer as [|b buffer IH]; [reflexivity|].
  cbn. rewrite IH. reflexivity.
Qed.

Lemma socket_read_loop_bounded (sockfd : Z) :
  forall (remaining index : nat) (symbol : byte) (buffer : list byte)
         (w : world),
    (index + remaining <= List.length buffer)%nat ->
    exists (n : Z) (buffer' : list byte) (w' : world) (events : list event),
      socket_read_loop remaining sockfd index symbol buffer w
      = Ok (n, buffer') w'
      /\ trace w' = trace w ++ events
      /\ (List.length events <= remaining)%nat
      /\ -1 <= n <= Z.of_nat (index + remaining)
      /\ List.length buffer' = List.length buffer
      /\ Forall (fun e => exists r, e = Received sockfd r) events.
Proof.
  induction remaining as [|remaining IH]; intros index symbol buffer w Hb.
  - exists (Z.of_nat index), buffer, w, []. cbn. rewrite app_nil_r.
    repeat split; auto; lia.
  - cbn [socket_read_loop].
    destruct (Byte.eqb symbol NEWLINE).
    + exists (Z.of_nat index), buffer, w, []. unfold ret. rewrite app_nil_r.
      repeat split; auto; cbn; lia.
    + unfold bind at 1, recv.
      set (e := next_incoming w).
      set (w1 := {| os_results := os_results w; incoming := tl (incoming w);
                    fifo_reads := fifo_reads w;
                    trace := trace w ++ [Received sockfd e];
                    console := console w |}).
      assert (Hone : Forall (fun x => exists r, x = Received sockfd r)
                       [Received sockfd e])
        by (constructor; [eexists; reflexivity | constructor]).
      destruct e as [b| |]; cbn beta iota; cbn [Z.eqb Pos.eqb].
      * destruct (store_in_bounds buffer index b) as (b' & E & L); [lia|].
        rewrite E.
        destruct (IH (S index) b b' w1)
          as (n & b'' & w' & evs & R & T & C & N & L' & F); [lia|].
        exists n, b'', w', (Received sockfd (RecvByte b) :: evs).
        rewrite R. split; [reflexivity|].
        split; [rewrite T; cbn [trace w1]; rewrite <- app_assoc; reflexivity|].
        split; [cbn; lia|]. split; [lia|]. split; [lia|].
        constructor; [eexists; reflexivity | exact F].
      * destruct (store_in_bounds buffer index symbol) as (b' & E & L); [lia|].
        rewrite E. exists 0, b', w1, [Received sockfd RecvEof].
        unfold ret. repeat split; auto; cbn; lia.
      * exists (-1), buffer, w1, [Received sockfd RecvError].
        unfold ret. repeat split; auto; cbn; lia.
Qed.

Lemma socket_write_loop_bounded (sockfd : Z) (buffer : list byte) :
  forall (remaining index : nat) (w : world),
    (index + remaining <= List.length buffer)%nat ->
    exists (r : Z) (w' : world) (events : list event),
      socket_write_loop remaining sockfd buffer index w = Ok r w'
      /\ advances w w' events
      /\ (List.length events <= remaining)%nat
      /\ -1 <= r <= Z.of_nat (index + remaining)
      /\ Forall (fun e => exists symbol a,
                           e = Called (sys_send sockfd symbol) a
                           /\ In symbol buffer) events.
Proof.
  induction remaining as [|remaining IH]; intros index w Hb.
  - exists (Z.of_nat index), w, []. split; [reflexivity|].
    split; [apply advances_refl|]. repeat split; auto; cbn; lia.
  - cbn [socket_write_loop].
    destruct (nth_error buffer index) as [symbol|] eqn:Hn.
    2:{ apply nth_error_None in Hn. lia. }
    pose proof (nth_error_In _ _ Hn) as Hsym.
    unfold bind at 1, sys, next_result.
    set (status := hd (-1) (os_results w)).
    set (w1 := {| os_results := tl (os_results w); incoming := incoming w;
                  fifo_reads := fifo_reads w;
                  trace := trace w ++ [Called (sys_send sockfd symbol) status];
                  console := console w |}).
    assert (A1 : advances w w1 [Called (sys_send sockfd symbol) status])
      by (unfold advances; cbn; auto).
    assert (Hone : Forall (fun e => exists s a,
                             e = Called (sys_send sockfd s) a /\ In s buffer)
                     [Called (sys_send sockfd symbol) status])
      by (constructor; [exists symbol, status; auto | constructor]).
    destruct (status =? -1);
      [exists (-1), w1, [Called (sys_send sockfd symbol) status];
       repeat split; auto; cbn; lia|].
    destruct (status =? 0);
      [exists 0, w1, [Called (sys_send sockfd symbol) status];
       repeat split; auto; cbn; lia|].
    destruct (is_terminator symbol);
      [exists (Z.of_nat index), w1, [Called (sys_send sockfd symbol) status];
       repeat split; auto; cbn; lia|].
    destruct (IH (S index) w1) as (r & w' & evs & R & A & C & N & F); [lia|].
    exists r, w', ([Called (sys_send sockfd symbol) status] ++ evs).
    split; [exact R|]. split; [exact (advances_trans _ _ _ _ _ A1 A)|].
    split; [cbn; lia|]. split; [lia|].
    apply Forall_app. split; assumption.
Qed.

(** X3.  On a buffer of at least [size] bytes both socket functions return
    for whatever the environment answers, without an access outside the
    buffer: [socket_read] makes at most [size] receptions, all on its
    socket, returns a number from -1 to [size] and leaves the buffer at its
    length; [socket_write] makes at most [size] sends, all on its socket and
    of bytes of the buffer, and returns a number from -1 to [size]. *)
Theorem socket_functions_stay_in_bounds
    (sockfd : Z) (buffer : list byte) (size : nat) (w : world) :
  (size <= List.length buffer)%nat ->
  (exists (n : Z) (buffer' : list byte) (w' : world) (events : list event),
      socket_read sockfd buffer size w = Ok (n, buffer') w'
      /\ trace w' = trace w ++ events
      /\ (List.length events <= size)%nat
      /\ -1 <= n <= Z.of_nat size
      /\ List.length buffer' = List.length buffer
      /\ Forall (fun e => exists r, e = Received sockfd r) events)
  /\ (exists (r : Z) (w' : world) (events : list event),
         socket_write sockfd buffer size w = Ok r w'
         /\ trace w' = trace w ++ events
         /\ (List.length events <= size)%nat
         /\ -1 <= r <= Z.of_nat size
         /\ Forall (fun e => exists symbol a,
                              e = Called (sys_send sockfd symbol) a
                              /\ In symbol buffer) events).
Proof.
  intros Hsize. split.
  - exact (socket_read_loop_bounded sockfd size 0 NUL buffer w Hsize).
  - destruct (socket_write_loop_bounded sockfd buffer size 0 w Hsize)
      as (r & w' & evs & R & (T & _) & C & N & F).
    exists r, w', evs. auto.
Qed.

Lemma socket_functions_stay_in_bounds_witness :
  (exists (n : Z) (buffer' : list byte) (w' : world) (events : list event),
      socket_read 5 (memset_zero 8) 7 (world_with [1; -1] [RecvError] [])
      = Ok (n, buffer') w'
      /\ trace w' = [] ++ events
      /\ (List.length events <= 7)%nat
      /\ -1 <= n <= 7
      /\ List.length buffer' = 8%nat
      /\ Forall (fun e => exists r, e = Received 5 r) events)
  /\ (exists (r : Z) (w' : world) (events : list event),
         socket_write 5 (memset_zero 8) 7 (world_with [1; -1] [RecvError] [])
         = Ok r w'
         /\ trace w' = [] ++ events
         /\ (List.length events <= 7)%nat
         /\ -1 <= r <= 7
         /\ Forall (fun e => exists symbol a,
                              e = Called (sys_send 5 symbol) a
                              /\ In symbol (memset_zero 8)) events).
Proof.
  refine (socket_functions_stay_in_bounds 5 (memset_zero 8) 7
            (world_with [1; -1] [RecvError] []) _).
  cbn. lia.
Defined.

Lemma socket_read_loop_overruns (sockfd : Z) (bytes : list byte) :
  forall (size : nat) (pre old : list byte) (symbol : byte) (w : world)
         (ending : list recv_event),
    (List.length bytes < size)%nat ->
    Forall (fun b => Byte.eqb b NEWLINE = false) bytes ->
    Byte.eqb symbol NEWLINE = false ->
    incoming w = map RecvByte bytes ++ ending ->
    hd RecvEof ending <> RecvError ->
    List.length old = List.length bytes ->
    socket_read_loop size sockfd (List.length pre) symbol (pre ++ old) w
    = Fault.
Proof.
  induction bytes as [|b bytes IH];
    intros size pre old symbol w ending Hlen Hnl Hsym Hin Hend Hold.
  - destruct old; [|discriminate]. destruct size as [|size]; [cbn in Hlen; lia|].
    cbn [map app] in Hin. rewrite app_nil_r.
    cbn [socket_read_loop]. rewrite Hsym. unfold bind, recv, next_incoming.
    rewrite Hin. destruct (hd RecvEof ending); try congruence;
      cbn beta iota; cbn [Z.eqb Pos.eqb]; rewrite store_past_end; reflexivity.
  - destruct old as [|y old]; [discriminate|].
    destruct size as [|size]; [cbn in Hlen; lia|].
    inversion Hnl as [|? ? Hb Hnl']; subst.
    cbn [map app] in Hin. cbn [socket_read_loop]. rewrite Hsym.
    rewrite (bind_ok _ _ _ _ _ (recv_byte sockfd symbol b w _ Hin)).
    cbn beta iota. cbn [Z.eqb Pos.eqb].
    rewrite store_middle.
    replace (pre ++ b :: old) with ((pre ++ [b]) ++ old)
      by (rewrite <- app_assoc; reflexivity).
    replace (S (List.length pre)) with (List.length (pre ++ [b]))
      by (rewrite length_app; cbn; lia).
    cbn in Hold, Hlen. injection Hold as Hold.
    apply (IH size (pre ++ [b]) old b _ ending); try assumption;
      try reflexivity; lia.
Qed.

(** X4.  The bound is needed: with [size] above the buffer's length,
    [socket_read] stores outside the buffer as soon as the stream delivers
    as many bytes as the buffer has, none a newline, and then anything but
    an error. *)
Theorem socket_read_overruns_short_buffer
    (sockfd : Z) (buffer : list byte) (size : nat) (bytes : list byte)
    (ending : list recv_event) (w : world) :
  (List.length buffer < size)%nat ->
  List.length bytes = List.length buffer ->
  Forall (fun b => Byte.eqb b NEWLINE = false) bytes ->
  incoming w = map RecvByte bytes ++ ending ->
  hd RecvEof ending <> RecvError ->
  socket_read sockfd buffer size w = Fault.
Proof.
  intros Hsize Hlen Hnl Hin Hend. unfold socket_read.
  apply (socket_read_loop_overruns sockfd bytes size [] buffer NUL w ending);
    try assumption; try reflexivity; lia.
Qed.

Lemma socket_read_overruns_short_buffer_witness :
  socket_read 5 (memset_zero 2) 3
    (world_with [] [RecvByte "a"%byte; RecvByte "b"%byte; RecvByte "c"%byte]
       [])
  = Fault.
Proof.
  refine (socket_read_overruns_short_buffer 5 (memset_zero 2) 3
            ["a"%byte; "b"%byte] [RecvByte "c"%byte] (world_with [] _ [])
            _ eq_refl _ eq_refl _).
  - cbn. lia.
  - repeat constructor.
  - discriminate.
Defined.

(** ** More on [socket_write] *)

(** A send that answers [stop], -1 or 0, in the middle of a unit. *)
Lemma socket_write_loop_send_stops (sockfd : Z) (stop : Z) (seg : list byte) :
  stop = -1 \/ stop = 0 ->
  forall (pre post : list byte) (w : world) (answers rest : list Z),
    os_results w = answers ++ stop :: rest ->
    (List.length answers < List.length (wire_unit seg))%nat ->
    Forall send_went_through answers ->
    socket_write_loop (List.length seg) sockfd (pre ++ seg ++ post)
      (List.length pre) w
    = Ok stop
         (after_calls w (sends sockfd (wire_unit seg) (answers ++ [stop]))
            rest).
Proof.
  intros Hstop.
  induction seg as [|b seg IH]; intros pre post w answers rest Hos Hlen Hok.
  - cbn in Hlen. lia.
  - cbn [List.length socket_write_loop app].
    change (pre ++ b :: seg ++ post) with (pre ++ b :: (seg ++ post)).
    rewrite nth_error_middle. cbn [wire_unit] in *.
    destruct answers as [|a answers].
    + cbn [app] in Hos.
      rewrite (bind_ok _ _ _ _ _ (sys_answers _ _ _ _ Hos)).
      destruct Hstop; subst stop; cbn [Z.eqb Pos.eqb];
        destruct (is_terminator b); unfold sends, ret; cbn;
        rewrite ?combine_nil; reflexivity.
    + inversion Hok as [|? ? [Ha1 Ha0] Hok']; subst.
      cbn [app] in Hos.
      rewrite (bind_ok _ _ _ _ _ (sys_answers _ _ _ _ Hos)).
      apply Z.eqb_neq in Ha1, Ha0. rewrite Ha1, Ha0.
      destruct (is_terminator b) eqn:Hb; [cbn in Hlen; lia|].
      cbn in Hlen.
      replace (pre ++ b :: seg ++ post) with ((pre ++ [b]) ++ seg ++ post)
        by (rewrite <- app_assoc; reflexivity).
      replace (S (List.length pre)) with (List.length (pre ++ [b]))
        by (rewrite length_app; cbn; lia).
      rewrite (IH (pre ++ [b]) post
                 (after_calls w [Called (sys_send sockfd b) a]
                    (answers ++ stop :: rest))
                 answers rest eq_refl); [|lia|exact Hok'].
      rewrite after_calls_after_calls. reflexivity.
Qed.

(** X5.  When a send answers 0, [socket_write] returns 0, whatever it has
    sent before in this call: the bytes in front of that one have gone out,
    and the return value does not tell how many. *)
Theorem socket_write_send_answers_zero
    (sockfd : Z) (buffer : list byte) (size : nat) (w : world)
    (answers rest : list Z) :
  (size <= List.length buffer)%nat ->
  Forall send_went_through answers ->
  os_results w = answers ++ 0 :: rest ->
  (List.length answers < List.length (wire_unit (firstn size buffer)))%nat ->
  socket_write sockfd buffer size w
  = Ok 0
       (after_calls w
          (sends sockfd (wire_unit (firstn size buffer)) (answers ++ [0]))
          rest)
  /\ sent_bytes sockfd
       (sends sockfd (wire_unit (firstn size buffer)) (answers ++ [0]))
     = firstn (S (List.length answers)) (wire_unit (firstn size buffer)).
Proof.
  intros Hsize Hok Hos Hlen. split.
  - rewrite (socket_write_as_loop _ _ _ Hsize).
    apply (socket_write_loop_send_stops sockfd 0 _ (or_intror eq_refl)
             [] _ w answers rest); assumption.
  - rewrite sent_bytes_sends_prefix; rewrite length_app; cbn [List.length];
      [rewrite Nat.add_1_r; reflexivity | lia].
Qed.

Lemma socket_write_send_answers_zero_witness :
  socket_write 5 ["a"%byte; "b"%byte; "c"%byte; NEWLINE] 4
    (world_with [1; 1; 0; 9] [] [])
  = Ok 0
       (after_calls (world_with [1; 1; 0; 9] [] [])
          [Called (sys_send 5 "a"%byte) 1; Called (sys_send 5 "b"%byte) 1;
           Called (sys_send 5 "c"%byte) 0] [9]).
Proof.
  refine (proj1 (socket_write_send_answers_zero 5
                   ["a"%byte; "b"%byte; "c"%byte; NEWLINE] 4
                   (world_with [1; 1; 0; 9] [] []) [1; 1] [9] _ _ eq_refl _)).
  - cbn. lia.
  - repeat constructor; discriminate.
  - cbn. lia.
Defined.

(** X6.  A segment with no null and no newline byte is sent whole, and the
    write returns [size]: the number of bytes sent.  (For a terminated line
    it returns one less than that.) *)
Theorem socket_write_unterminated_segment
    (sockfd : Z) (buffer : list byte) (size : nat) (w : world)
    (answers rest : list Z) :
  (size <= List.length buffer)%nat ->
  Forall (fun b => is_terminator b = false) (firstn size buffer) ->
  Forall send_went_through answers ->
  os_results w = answers ++ rest ->
  List.length answers = size ->
  socket_write sockfd buffer size w
  = Ok (Z.of_nat size)
       (after_calls w (sends sockfd (firstn size buffer) answers) rest)
  /\ sent_bytes sockfd (sends sockfd (firstn size buffer) answers)
     = firstn size buffer.
Proof.
  intros Hsize Hseg Hok Hos Hlen.
  destruct (wire_unit_unterminated _ Hseg) as [Hunit Hpay].
  assert (Hl : List.length (firstn size buffer) = size)
    by (rewrite length_firstn; lia).
  split.
  - rewrite (socket_write_all_sent sockfd buffer size w answers rest
               Hsize Hok Hos) by (rewrite Hunit; lia).
    rewrite Hunit, Hpay, Hl. reflexivity.
  - apply sent_bytes_sends. lia.
Qed.

Lemma socket_write_unterminated_segment_witness :
  socket_write 5 ["a"%byte; "b"%byte; "c"%byte; NEWLINE] 3
    (world_with [1; 1; 1; 9] [] [])
  = Ok 3
       (after_calls (world_with [1; 1; 1; 9] [] [])
          [Called (sys_send 5 "a"%byte) 1; Called (sys_send 5 "b"%byte) 1;
           Called (sys_send 5 "c"%byte) 1] [9]).
Proof.
  refine (proj1 (socket_write_unterminated_segment 5
                   ["a"%byte; "b"%byte; "c"%byte; NEWLINE] 3
                   (world_with [1; 1; 1; 9] [] []) [1; 1; 1] [9]
                   _ _ _ eq_refl eq_refl)).
  - cbn. lia.
  - repeat constructor.
  - repeat constructor; discriminate.
Defined.

(** ** From one end of the wire to the other *)

Lemma sent_bytes_app (sockfd : Z) (e1 e2 : list event) :
  sent_bytes sockfd (e1 ++ e2) = sent_bytes sockfd e1 ++ sent_bytes sockfd e2.
Proof.
  induction e1 as [|e e1 IH]; [reflexivity|].
  cbn. destruct e as [c a| |]; try exact IH.
  destruct c; try exact IH.
  destruct (sockfd0 =? sockfd); cbn; rewrite IH; reflexivity.
Qed.

Lemma unterminated_no_newline (line : list byte) :
  Forall (fun b => is_terminator b = false) line ->
  Forall (fun b => Byte.eqb b NEWLINE = false) line.
Proof.
  intros H. induction H as [|b line Hb _ IH]; constructor;
    [apply not_terminator_not_newline; exact Hb | exact IH].
Qed.

(** What [socket_write] does with a segment whose first terminator is [t],
    behind [pre]. *)
Lemma socket_write_terminated
    (sockfd : Z) (buffer : list byte) (size : nat) (pre : list byte)
    (t : byte) (post : list byte) (w : world) (answers rest : list Z) :
  (size <= List.length buffer)%nat ->
  firstn size buffer = pre ++ t :: post ->
  Forall (fun b => is_terminator b = false) pre ->
  is_terminator t = true ->
  Forall send_went_through answers ->
  os_results w = answers ++ rest ->
  List.length answers = S (List.length pre) ->
  socket_write sockfd buffer size w
  = Ok (Z.of_nat (List.length pre))
       (after_calls w (sends sockfd (pre ++ [t]) answers) rest)
  /\ sent_bytes sockfd (sends sockfd (pre ++ [t]) answers) = pre ++ [t].
Proof.
  intros Hsize Hseg Hpre Ht Hok Hos Hlen.
  destruct (wire_unit_terminated pre t post Hpre Ht) as [Hunit Hpay].
  rewrite <- Hseg in Hunit, Hpay.
  split.
  - rewrite (socket_write_all_sent sockfd buffer size w answers rest
               Hsize Hok Hos)
      by (rewrite Hunit, length_app; cbn; lia).
    rewrite Hunit, Hpay. reflexivity.
  - apply sent_bytes_sends. rewrite length_app. cbn. lia.
Qed.

(** X7.  A line that [socket_write] sends with its newline is what one
    [socket_read] at the other end takes from the stream, whole and alone,
    when its bound allows for it: the reader's buffer starts with the
    payload and the newline.  The writer returns the length of the payload,
    the reader one more. *)
Theorem newline_terminated_line_round_trip
    (sender receiver : Z) (buffer : list byte) (size : nat)
    (pre post : list byte) (ws : world) (answers rest : list Z)
    (rbuffer : list byte) (rsize : nat) :
  (size <= List.length buffer)%nat ->
  firstn size buffer = pre ++ NEWLINE :: post ->
  Forall (fun b => is_terminator b = false) pre ->
  Forall send_went_through answers ->
  os_results ws = answers ++ rest ->
  List.length answers = S (List.length pre) ->
  (S (List.length pre) <= rsize)%nat ->
  (rsize <= List.length rbuffer)%nat ->
  exists events : list event,
    socket_write sender buffer size ws
    = Ok (Z.of_nat (List.length pre)) (after_calls ws events rest)
    /\ forall (wr : world) (behind : list recv_event),
         incoming wr = map RecvByte (sent_bytes sender events) ++ behind ->
         socket_read receiver rbuffer rsize wr
         = Ok (Z.of_nat (S (List.length pre)),
               (pre ++ [NEWLINE]) ++ skipn (S (List.length pre)) rbuffer)
              (after_receptions wr (receptions receiver (pre ++ [NEWLINE]))
                 behind).
Proof.
  intros Hsize Hseg Hpre Hok Hos Hlen Hrs Hrb.
  destruct (socket_write_terminated sender buffer size pre NEWLINE post ws
              answers rest Hsize Hseg Hpre eq_refl Hok Hos Hlen)
    as [Hw Hsent].
  exists (sends sender (pre ++ [NEWLINE]) answers).
  split; [exact Hw|].
  intros wr behind Hin. rewrite Hsent in Hin.
  assert (Hspan : read_span rsize (pre ++ [NEWLINE]) = pre ++ [NEWLINE])
    by (apply read_span_whole_line;
        [apply unterminated_no_newline; exact Hpre | exact Hrs]).
  assert (Hl : List.length (pre ++ [NEWLINE]) = S (List.length pre))
    by (rewrite length_app; cbn; lia).
  rewrite (socket_read_line receiver rbuffer rsize (pre ++ [NEWLINE]) behind
             wr Hrb Hin)
    by (left; apply in_or_app; right; left; reflexivity).
  rewrite Hspan, Hl. rewrite <- Hl at 3. rewrite skipn_all. reflexivity.
Qed.

Lemma newline_terminated_line_round_trip_witness :
  exists events : list event,
    socket_write 3 ["h"%byte; "i"%byte; NEWLINE; NUL] 3
      (world_with [1; 1; 1] [] [])
    = Ok 2 (after_calls (world_with [1; 1; 1] [] []) events [])
    /\ forall (wr : world) (behind : list recv_event),
         incoming wr = map RecvByte (sent_bytes 3 events) ++ behind ->
         socket_read 4 (memset_zero 8) 7 wr
         = Ok (3, (["h"%byte; "i"%byte] ++ [NEWLINE]) ++ skipn 3 (memset_zero 8))
              (after_receptions wr
                 (receptions 4 (["h"%byte; "i"%byte] ++ [NEWLINE])) behind).
Proof.
  refine (newline_terminated_line_round_trip 3 4
            ["h"%byte; "i"%byte; NEWLINE; NUL] 3 ["h"%byte; "i"%byte] []
            (world_with [1; 1; 1] [] []) [1; 1; 1] [] (memset_zero 8) 7
            _ eq_refl _ _ eq_refl eq_refl _ _).
  - cbn. lia.
  - repeat constructor.
  - repeat constructor; discriminate.
  - cbn. lia.
  - cbn. lia.
Defined.

(** X8.  A unit that [socket_write] ends with a null byte is no unit for
    [socket_read]: when the sender writes a segment that stops at a null
    byte and then a line that ends in a newline, one read at the other end
    takes both, null byte included, as a single line (when its bound allows
    for it). *)
Theorem null_terminated_unit_merges_with_next
    (sender receiver : Z) (buffer1 buffer2 : list byte) (size : nat)
    (pre1 post1 pre2 post2 : list byte) (ws : world)
    (answers1 answers2 rest : list Z) (rbuffer : list byte) (rsize : nat) :
  (size <= List.length buffer1)%nat ->
  (size <= List.length buffer2)%nat ->
  firstn size buffer1 = pre1 ++ NUL :: post1 ->
  firstn size buffer2 = pre2 ++ NEWLINE :: post2 ->
  Forall (fun b => is_terminator b = false) pre1 ->
  Forall (fun b => is_terminator b = false) pre2 ->
  Forall send_went_through answers1 ->
  Forall send_went_through answers2 ->
  os_results ws = answers1 ++ answers2 ++ rest ->
  List.length answers1 = S (List.length pre1) ->
  List.length answers2 = S (List.length pre2) ->
  (S (List.length pre1) + S (List.length pre2) <= rsize)%nat ->
  (rsize <= List.length rbuffer)%nat ->
  exists events1 events2 : list event,
    socket_write sender buffer1 size ws
    = Ok (Z.of_nat (List.length pre1))
         (after_calls ws events1 (answers2 ++ rest))
    /\ socket_write sender buffer2 size
         (after_calls ws events1 (answers2 ++ rest))
       = Ok (Z.of_nat (List.length pre2))
            (after_calls ws (events1 ++ events2) rest)
    /\ forall (wr : world) (behind : list recv_event),
         incoming wr
         = map RecvByte (sent_bytes sender (events1 ++ events2)) ++ behind ->
         socket_read receiver rbuffer rsize wr
         = Ok (Z.of_nat (S (List.length pre1) + S (List.length pre2)),
               (pre1 ++ NUL :: pre2 ++ [NEWLINE])
                 ++ skipn (S (List.length pre1) + S (List.length pre2))
                      rbuffer)
              (after_receptions wr
                 (receptions receiver (pre1 ++ NUL :: pre2 ++ [NEWLINE]))
                 behind).
Proof.
  intros Hs1 Hs2 Hseg1 Hseg2 Hpre1 Hpre2 Hok1 Hok2 Hos Hl1 Hl2 Hrs Hrb.
  destruct (socket_write_terminated sender buffer1 size pre1 NUL post1 ws
              answers1 (answers2 ++ rest) Hs1 Hseg1 Hpre1 eq_refl Hok1 Hos Hl1)
    as [Hw1 Hsent1].
  destruct (socket_write_terminated sender buffer2 size pre2 NEWLINE post2
              (after_calls ws (sends sender (pre1 ++ [NUL]) answers1)
                 (answers2 ++ rest))
              answers2 rest Hs2 Hseg2 Hpre2 eq_refl Hok2 eq_refl Hl2)
    as [Hw2 Hsent2].
  exists (sends sender (pre1 ++ [NUL]) answers1),
         (sends sender (pre2 ++ [NEWLINE]) answers2).
  split; [exact Hw1|].
  split; [rewrite Hw2, after_calls_after_calls; reflexivity|].
  intros wr behind Hin.
  rewrite sent_bytes_app, Hsent1, Hsent2 in Hin.
  assert (Hline : Forall (fun b => Byte.eqb b NEWLINE = false)
                    (pre1 ++ NUL :: pre2)).
  { apply Forall_app. split; [apply unterminated_no_newline; exact Hpre1|].
    constructor; [reflexivity | apply unterminated_no_newline; exact Hpre2]. }
  assert (Hsame : (pre1 ++ [NUL]) ++ pre2 ++ [NEWLINE]
                  = (pre1 ++ NUL :: pre2) ++ [NEWLINE])
    by (rewrite <- !app_assoc; reflexivity).
  assert (Hl : List.length ((pre1 ++ NUL :: pre2) ++ [NEWLINE])
               = (S (List.length pre1) + S (List.length pre2))%nat)
    by (rewrite !length_app; cbn [List.length]; lia).
  assert (Hl' : List.length (pre1 ++ NUL :: pre2)
                = (List.length pre1 + S (List.length pre2))%nat)
    by (rewrite length_app; cbn [List.length]; lia).
  rewrite Hsame in Hin.
  assert (Hspan : read_span rsize ((pre1 ++ NUL :: pre2) ++ [NEWLINE])
                  = (pre1 ++ NUL :: pre2) ++ [NEWLINE])
    by (apply read_span_whole_line; [exact Hline | lia]).
  rewrite (socket_read_line receiver rbuffer rsize _ behind wr Hrb Hin)
    by (left; apply in_or_app; right; left; reflexivity).
  rewrite Hspan, Hl.
  replace (skipn (S (List.length pre1) + S (List.length pre2))
             ((pre1 ++ NUL :: pre2) ++ [NEWLINE])) with (@nil byte)
    by (symmetry; apply skipn_all2; lia).
  replace ((pre1 ++ NUL :: pre2) ++ [NEWLINE])
    with (pre1 ++ NUL :: pre2 ++ [NEWLINE])
    by (rewrite <- app_assoc; reflexivity).
  reflexivity.
Qed.

Lemma null_terminated_unit_merges_with_next_witness :
  exists events1 events2 : list event,
    socket_write 3 ["a"%byte; NUL; NUL] 2 (world_with [1; 1; 1; 1] [] [])
    = Ok 1 (after_calls (world_with [1; 1; 1; 1] [] []) events1 ([1; 1] ++ []))
    /\ socket_write 3 ["b"%byte; NEWLINE; NUL] 2
         (after_calls (world_with [1; 1; 1; 1] [] []) events1 ([1; 1] ++ []))
       = Ok 1
            (after_calls (world_with [1; 1; 1; 1] [] []) (events1 ++ events2)
               [])
    /\ forall (wr : world) (behind : list recv_event),
         incoming wr
         = map RecvByte (sent_bytes 3 (events1 ++ events2)) ++ behind ->
         socket_read 4 (memset_zero 8) 7 wr
         = Ok (4, (["a"%byte] ++ NUL :: ["b"%byte] ++ [NEWLINE])
                    ++ skipn 4 (memset_zero 8))
              (after_receptions wr
                 (receptions 4 (["a"%byte] ++ NUL :: ["b"%byte] ++ [NEWLINE]))
                 behind).
Proof.
  refine (null_terminated_unit_merges_with_next 3 4
            ["a"%byte; NUL; NUL] ["b"%byte; NEWLINE; NUL] 2
            ["a"%byte] [] ["b"%byte] []
            (world_with [1; 1; 1; 1] [] []) [1; 1] [1; 1] []
            (memset_zero 8) 7
            _ _ eq_refl eq_refl _ _ _ _ eq_refl eq_refl eq_refl _ _).
  - cbn. lia.
  - cbn. lia.
  - repeat constructor.
  - repeat constructor.
  - repeat constructor; discriminate.
  - repeat constructor; discriminate.
  - cbn. lia.
  - cbn. lia.
Defined.

(** ** More on the negotiation *)

(** X9.  The status of [client_or_server_socket_create] is 0, 1 or 2.  It
    is 0 exactly when [*sockfd] is left with a descriptor; 2 exactly when
    an accept was made and answered -1; 1 exactly when no connection came
    about and no accept was made, and then [*servfd] is -1 too. *)
Theorem negotiation_status_meaning
    (sockfd0 servfd0 : Z) (address : string) (port : Z) (debug : bool)
    (w : world) :
  exists (status s v : Z) (w' : world) (events : list event),
    client_or_server_socket_create sockfd0 servfd0 address port debug w
    = Ok (status, s, v) w'
    /\ trace w' = trace w ++ events
    /\ (status = 0 \/ status = 1 \/ status = 2)
    /\ (status = 0 <-> s <> -1)
    /\ (status = 2 <-> exists l, In (Called (sys_accept l) (-1)) events)
    /\ (status = 1 <-> s = -1 /\ existsb is_accept events = false)
    /\ (status = 1 -> v = -1).
Proof.
  destruct (client_or_server_socket_create_runs sockfd0 servfd0 address port
              debug w)
    as (client & w1 & attempt & status & s & v & w' & later
        & _ & (T1 & _) & E & (T & _) & R).
  exists status, s, v, w', (attempt ++ later).
  split; [exact E|].
  split; [rewrite T, T1, app_assoc; reflexivity|].
  clear E T1 T w w1 w'.
  invert_runs.
  all: repeat match goal with
              | |- _ /\ _ => split
              | |- _ <-> _ => split
              end.
  all: try (intros; congruence).
  all: try (intuition congruence).
  all: try (intros _; eexists; cbn; eauto 12).
  all: try (cbn; intros [? ?]; intuition congruence).
  all: try (intros _; split; [reflexivity | cbn; reflexivity]).
  all: try (cbn; intros [_ ?]; discriminate).
Qed.

(** X10.  No descriptor gets lost in the negotiation: every socket it
    creates is handed back in [*sockfd] or [*servfd], or [close] has been
    called on it before the function returns. *)
Theorem negotiation_accounts_for_sockets
    (sockfd0 servfd0 : Z) (address : string) (port : Z) (debug : bool)
    (w : world) :
  exists (status s v : Z) (w' : world) (events : list event),
    client_or_server_socket_create sockfd0 servfd0 address port debug w
    = Ok (status, s, v) w'
    /\ trace w' = trace w ++ events
    /\ forall fd : Z,
         fd <> -1 ->
         In (Called sys_socket fd) events ->
         fd = s \/ fd = v \/ exists r, In (Called (sys_close fd) r) events.
Proof.
  destruct (client_or_server_socket_create_runs sockfd0 servfd0 address port
              debug w)
    as (client & w1 & attempt & status & s & v & w' & later
        & _ & (T1 & _) & E & (T & _) & R).
  exists status, s, v, w', (attempt ++ later).
  split; [exact E|].
  split; [rewrite T, T1, app_assoc; reflexivity|].
  clear E T1 T w w1 w'.
  intros fd Hfd Hin.
  invert_runs; cbn in Hin;
    repeat match goal with
           | H : _ \/ _ |- _ => destruct H
           | H : False |- _ => destruct H
           | H : Called _ _ = Called _ _ |- _ =>
               first [ discriminate H | injection H as ?; subst ]
           end;
    try congruence;
    first [ left; reflexivity
          | right; left; reflexivity
          | right; right; eexists; cbn; eauto 12 ].
Qed.

(** X11.  When the negotiation succeeds nothing is closed behind the
    client attempt: as a server it leaves the listening socket open and
    hands it back in [*servfd], the socket on which a listen went through
    and on which the accept answered the descriptor in [*sockfd]; as a
    client it makes no close at all and leaves [*servfd] as it was. *)
Theorem successful_negotiation_closes_nothing
    (sockfd0 servfd0 : Z) (address : string) (port : Z) (debug : bool)
    (w : world) :
  exists (client : Z) (w1 : world) (attempt : list event)
         (status s v : Z) (w' : world) (later : list event),
    client_socket_create address port debug w = Ok client w1
    /\ trace w1 = trace w ++ attempt
    /\ client_or_server_socket_create sockfd0 servfd0 address port debug w
       = Ok (status, s, v) w'
    /\ trace w' = trace w1 ++ later
    /\ (status = 0 -> existsb is_close later = false)
    /\ (status = 0 -> client <> -1 ->
        existsb is_close attempt = false /\ v = servfd0)
    /\ (status = 0 -> client = -1 ->
        v <> -1
        /\ exists ok, In (Called (sys_listen v 1) ok) later /\ ok <> -1
                      /\ In (Called (sys_accept v) s) later).
Proof.
  destruct (client_or_server_socket_create_runs sockfd0 servfd0 address port
              debug w)
    as (client & w1 & attempt & status & s & v & w' & later
        & E1 & (T1 & _) & E & (T & _) & R).
  exists client, w1, attempt, status, s, v, w', later.
  split; [exact E1|]. split; [exact T1|]. split; [exact E|].
  split; [exact T|]. clear E1 T1 E T w w1 w'.
  invert_runs.
  all: repeat match goal with
              | |- _ /\ _ => split
              end.
  all: try (intros; congruence).
  all: try (intros; cbn; reflexivity).
  all: try (intros; split; cbn; reflexivity).
  all: try (intros; split; [assumption|]; eexists; split; [cbn; eauto 12|];
            split; [eassumption | cbn; eauto 12]).
Qed.

(** ** More on closing *)

(** X12.  [socket_close] makes at most one call, a [close] of the handle's
    descriptor.  Its status is 0 or -1, and it is 0 exactly when the handle
    is -1 afterwards; with status -1 the [close] has answered -1 and the
    handle still holds the descriptor.  On a handle other than -1 it always
    makes the call. *)
Theorem socket_close_outcomes (fd : Z) (debug : bool) (w : world) :
  exists (status fd' : Z) (w' : world) (events : list event),
    socket_close fd debug w = Ok (status, fd') w'
    /\ trace w' = trace w ++ events
    /\ (status = 0 \/ status = -1)
    /\ (status = 0 <-> fd' = -1)
    /\ (status = -1 -> fd' = fd /\ events = [Called (sys_close fd) (-1)])
    /\ (fd <> -1 -> exists r, events = [Called (sys_close fd) r])
    /\ (fd = -1 -> events = []).
Proof.
  destruct (socket_close_runs fd debug w)
    as (status & fd' & w' & events & E & (T & _) & R).
  exists status, fd', w', events. split; [exact E|]. split; [exact T|].
  inversion R; subst; repeat split; auto; try congruence;
    try (intros; discriminate); eauto.
Qed.

(** ** More on [try_socket_create] and [main] *)

Lemma bind_same_start {A B : Type} (m1 m2 : M A) (k : A -> M B) (w : world) :
  m1 w = m2 w -> bind m1 k w = bind m2 k w.
Proof. intros H. unfold bind. rewrite H. reflexivity. Qed.

Section MoreOnMain.

Variable DEFAULT_ADDRESS : string.
Variable DEFAULT_PORT : Z.
Variable stdin_stdout_fifo_open :
  Z -> option string -> Z -> option string -> bool -> bool ->
  returning (Z * Z * Z).
Variable stdin_stdout_thread_start : state -> bool -> returning state.
Variable stdin_fifo_close : Z -> bool -> returning (Z * Z).
Variable stdout_fifo_close : Z -> bool -> returning (Z * Z).

(** X13.  [try_socket_create] returns 0 or 1.  With neither an address nor
    a port it returns 0 at once: no call, globals as they were.  Otherwise
    the address and the port that are missing are set to their defaults in
    [args], every connect and bind is to that address and port, and the
    result is 0 exactly when [sockfd] holds a descriptor afterwards. *)
Theorem try_socket_create_outcomes (g : state) (w : world) :
  exists (status : Z) (g' : state) (w' : world) (events : list event),
    try_socket_create DEFAULT_ADDRESS DEFAULT_PORT g w = Ok (status, g') w'
    /\ trace w' = trace w ++ events
    /\ (status = 0 \/ status = 1)
    /\ (address (args g) = None -> port (args g) = -1 ->
        status = 0 /\ g' = g /\ w' = w)
    /\ (address (args g) <> None \/ port (args g) <> -1 ->
        let a := match address (args g) with
                 | Some a => a
                 | None => DEFAULT_ADDRESS
                 end in
        let p := if port (args g) =? -1 then DEFAULT_PORT
                 else port (args g) in
        address (args g') = Some a
        /\ port (args g') = p
        /\ Forall (addressed_to a p) events
        /\ (status = 0 <-> sockfd g' <> -1)).
Proof.
  unfold try_socket_create.
  destruct (match address (args g) with None => true | Some _ => false end
            && (port (args g) =? -1)) eqn:Hnone.
  - exists 0, g, w, []. unfold ret. rewrite app_nil_r.
    split; [reflexivity|]. split; [reflexivity|]. split; [auto|].
    split; [auto|]. intros [H|H].
    + destruct (address (args g)); [discriminate | congruence].
    + apply andb_prop in Hnone. destruct Hnone as [_ Hp].
      apply Z.eqb_eq in Hp. congruence.
  - cbv zeta.
    set (a := match address (args g) with
              | Some a => a
              | None => DEFAULT_ADDRESS
              end).
    set (p := if port (args g) =? -1 then DEFAULT_PORT else port (args g)).
    replace (match address (args g) with
             | Some a0 => a0
             | None => DEFAULT_ADDRESS
             end) with a by reflexivity.
    destruct (client_or_server_socket_create_runs
                (sockfd (set_address_port (Some a) p g))
                (servfd (set_address_port (Some a) p g)) a p
                (debug (args (set_address_port (Some a) p g))) w)
      as (client & w1 & attempt & status & s & v & w' & later
          & _ & (T1 & _) & E & (T & _) & R).
    rewrite (bind_ok _ _ _ _ _ E). cbn beta iota.
    assert (Haddr : Forall (addressed_to a p) (attempt ++ later))
      by (clear - R; invert_runs; cbn; repeat constructor).
    assert (Hs : status = 0 <-> s <> -1)
      by (clear - R; inversion R; subst; split; congruence).
    assert (H012 : status = 0 \/ status <> 0)
      by (destruct (Z.eq_dec status 0); auto).
    destruct (status =? 0) eqn:Hst; cbn [negb]; unfold ret.
    + apply Z.eqb_eq in Hst.
      exists 0, (set_sockets s v (set_address_port (Some a) p g)), w',
        (attempt ++ later).
      split; [reflexivity|].
      split; [rewrite T, T1, app_assoc; reflexivity|].
      split; [auto|]. split.
      * intros Ha Hp. rewrite Ha in Hnone. apply Z.eqb_eq in Hp.
        rewrite Hp in Hnone. discriminate.
      * intros _. cbn. repeat split; auto; intros; tauto.
    + apply Z.eqb_neq in Hst.
      exists 1, (set_sockets s v (set_address_port (Some a) p g)), w',
        (attempt ++ later).
      split; [reflexivity|].
      split; [rewrite T, T1, app_assoc; reflexivity|].
      split; [auto|]. split.
      * intros Ha Hp. rewrite Ha in Hnone. apply Z.eqb_eq in Hp.
        rewrite Hp in Hnone. discriminate.
      * intros _. cbn. repeat split; auto; try discriminate.
        intros Hopen. apply Hs in Hopen. contradiction.
Qed.

(** X14.  When [try_socket_create] fails, [main] runs neither the FIFO
    opener nor the thread starter: it does the same whatever these two
    are. *)
Theorem main_skips_fifos_after_failed_negotiation
    (g : state) (w w0 w1 : world) (status : Z) (g1 : state)
    (other_fifo_open :
       Z -> option string -> Z -> option string -> bool -> bool ->
       returning (Z * Z * Z))
    (other_thread_start : state -> bool -> returning state) :
  signals_handler_setup w = Ok tt w0 ->
  try_socket_create DEFAULT_ADDRESS DEFAULT_PORT g w0 = Ok (status, g1) w1 ->
  status <> 0 ->
  main DEFAULT_ADDRESS DEFAULT_PORT stdin_stdout_fifo_open
    stdin_stdout_thread_start stdin_fifo_close stdout_fifo_close g w
  = main DEFAULT_ADDRESS DEFAULT_PORT other_fifo_open
      other_thread_start stdin_fifo_close stdout_fifo_close g w.
Proof.
  intros Hsetup Htry Hst. unfold main.
  rewrite !(bind_ok _ _ _ _ _ Hsetup), !(bind_ok _ _ _ _ _ Htry).
  apply Z.eqb_neq in Hst. cbn beta iota. rewrite Hst. reflexivity.
Qed.

(** X15.  When the FIFO opener fails, [main] does not run the thread
    starter: it does the same whatever the starter is. *)
Theorem main_skips_threads_after_failed_open
    (g : state) (w w0 w1 w2 : world) (g1 : state) (opened i o : Z)
    (other_thread_start : state -> bool -> returning state) :
  signals_handler_setup w = Ok tt w0 ->
  try_socket_create DEFAULT_ADDRESS DEFAULT_PORT g w0 = Ok (0, g1) w1 ->
  stdin_stdout_fifo_open (stdin_fifo g1) (stdin_path (args g1))
    (stdout_fifo g1) (stdout_path (args g1)) (fifo_reverse g1)
    (debug (args g1)) w1 = ((opened, i, o), w2) ->
  opened <> 0 ->
  main DEFAULT_ADDRESS DEFAULT_PORT stdin_stdout_fifo_open
    stdin_stdout_thread_start stdin_fifo_close stdout_fifo_close g w
  = main DEFAULT_ADDRESS DEFAULT_PORT stdin_stdout_fifo_open
      other_thread_start stdin_fifo_close stdout_fifo_close g w.
Proof.
  intros Hsetup Htry Hopen Hst. unfold main.
  rewrite !(bind_ok _ _ _ _ _ Hsetup), !(bind_ok _ _ _ _ _ Htry).
  cbn beta iota. cbn [Z.eqb].
  apply bind_same_start. unfold bind, run. rewrite Hopen.
  apply Z.eqb_neq in Hst. rewrite Hst. reflexivity.
Qed.

(** X16.  At the end of [main] a socket handle is -1, unless a [close] of
    the descriptor it holds has answered -1. *)
Theorem main_leaves_socket_handles_closed (g : state) (w : world) :
  exists (g' : state) (w' : world),
    main DEFAULT_ADDRESS DEFAULT_PORT stdin_stdout_fifo_open
      stdin_stdout_thread_start stdin_fifo_close stdout_fifo_close g w
    = Ok (0, g') w'
    /\ (sockfd g' = -1 \/ In (Called (sys_close (sockfd g')) (-1)) (trace w'))
    /\ (servfd g' = -1 \/ In (Called (sys_close (servfd g')) (-1)) (trace w')).
Proof.
  unfold main.
  destruct (returns_signals_handler_setup w) as ([] & w0 & E0).
  rewrite (bind_ok _ _ _ _ _ E0).
  destruct (returns_try_socket_create DEFAULT_ADDRESS DEFAULT_PORT g w0)
    as ([created g1] & w1 & E1).
  rewrite (bind_ok _ _ _ _ _ E1). cbn beta iota.
  match goal with
  | |- context [bind ?m _ w1] =>
      assert (R : returns m) by returns_tac;
      destruct (R w1) as (g2 & w2 & E2)
  end.
  rewrite (bind_ok _ _ _ _ _ E2).
  unfold bind at 1, run at 1.
  destruct (stdout_fifo_close (stdout_fifo g2) (debug (args g2)) w2)
    as [[st_o o] w3].
  cbn beta iota zeta.
  unfold bind at 1, run at 1.
  match goal with
  | |- context [stdin_fifo_close ?fd ?d w3] =>
      destruct (stdin_fifo_close fd d w3) as [[st_i i] w4]
  end.
  cbn beta iota zeta.
  match goal with
  | |- context [bind (socket_close ?fd ?d) _ w4] =>
      destruct (socket_close_runs fd d w4)
        as (st1 & s & w5 & ev1 & E5 & (T5 & _) & R5)
  end.
  rewrite (bind_ok _ _ _ _ _ E5). cbn beta iota zeta.
  match goal with
  | |- context [bind (socket_close ?fd ?d) _ w5] =>
      destruct (socket_close_runs fd d w5)
        as (st2 & v & w6 & ev2 & E6 & (T6 & _) & R6)
  end.
  rewrite (bind_ok _ _ _ _ _ E6). cbn beta iota zeta. unfold ret.
  do 2 eexists. split; [reflexivity|]. cbn [sockfd servfd set_sockets].
  rewrite T6, T5. split.
  - inversion R5; subst; auto.
    right. apply in_or_app. left. apply in_or_app. right. left. reflexivity.
  - inversion R6; subst; auto.
    right. apply in_or_app. right. left. reflexivity.
Qed.

End MoreOnMain.

(** ** More on the transfer loops *)

Lemma when_print_advances (c : bool) (s : string) (w : world) :
  exists w1 : world,
    when c (info_print s) w = Ok tt w1
    /\ advances w w1 []
    /\ os_results w1 = os_results w.
Proof.
  destruct c; cbn; eexists; (split; [reflexivity|]);
    (split; [|reflexivity]); unfold advances; cbn; rewrite app_nil_r; auto.
Qed.

Lemma no_buffer_read_among_sends (sockfd : Z) (buffer : list byte)
    (events : list event) :
  Forall (fun e => exists symbol a,
                     e = Called (sys_send sockfd symbol) a
                     /\ In symbol buffer) events ->
  filter is_buffer_read events = [].
Proof.
  intros H. induction H as [|e events (s & a & -> & _) _ IH];
    [reflexivity | exact IH].
Qed.

(** A write of the upload loop comes back and makes no read of its own. *)
Lemma stdin_thread_write_reads_nothing (g : state) (buffer : list byte)
    (w : world) :
  List.length buffer = BUFFER_SIZE ->
  exists (r : Z) (w' : world) (events : list event),
    stdin_thread_write g buffer 1023 w = Ok r w'
    /\ advances w w' events
    /\ filter is_buffer_read events = [].
Proof.
  intros Hb.
  assert (Hsock : forall w0, exists r w' events,
             socket_write (sockfd g) buffer 1023 w0 = Ok r w'
             /\ advances w0 w' events
             /\ filter is_buffer_read events = []).
  { intros w0.
    destruct (socket_write_loop_bounded (sockfd g) buffer 1023 0 w0)
      as (r & w' & evs & R & A & _ & _ & F);
      [rewrite Hb; unfold BUFFER_SIZE; lia|].
    exists r, w', evs. split; [exact R|]. split; [exact A|].
    exact (no_buffer_read_among_sends _ _ _ F). }
  assert (Hbuf : forall fd w0, exists r w' events,
             buffer_write fd buffer 1023 w0 = Ok r w'
             /\ advances w0 w' events
             /\ filter is_buffer_read events = []).
  { intros fd w0. unfold buffer_write, sys. do 3 eexists.
    split; [reflexivity|].
    split; [unfold advances; cbn; repeat split; reflexivity | reflexivity]. }
  unfold stdin_thread_write.
  destruct (is_open (stdin_fifo g) && is_open (sockfd g)).
  - destruct (when_print_advances (debug (args g))
                "Forwared message [stdin fifo] => [socket]" w)
      as (w1 & E1 & A1 & _).
    rewrite (bind_ok _ _ _ _ _ E1).
    destruct (Hsock w1) as (r & w' & evs & R & A & F).
    exists r, w', evs. split; [exact R|].
    split; [exact (advances_trans _ _ _ _ _ A1 A) | exact F].
  - destruct (is_open (stdout_fifo g)); [apply Hbuf|].
    destruct (is_open (sockfd g)); [apply Hsock | apply Hbuf].
Qed.

Lemma stdin_thread_read_is_buffer_read (g : state) (buffer : list byte)
    (size : nat) :
  stdin_thread_read g buffer size = buffer_read (upload_fd g) buffer size.
Proof.
  unfold stdin_thread_read, upload_fd.
  destruct (is_open (stdin_fifo g) && is_open (sockfd g)); reflexivity.
Qed.

Lemma upload_loop_reads (g : state) (reads : list (Z * list byte)) :
  forall (fuel : nat) (buffer : list byte) (w : world),
    List.length buffer = BUFFER_SIZE ->
    fifo_reads w = reads ->
    (List.length reads < fuel)%nat ->
    exists (w' : world) (events : list event),
      transfer_loop (stdin_thread_read g) (stdin_thread_write g) fuel
        buffer w = Ok tt w'
      /\ trace w' = trace w ++ events
      /\ filter is_buffer_read events
         = map (fun p => BufferRead (upload_fd g) 1023 (fst p) (snd p))
             (reads_until_failure reads)
      /\ incoming w' = incoming w.
Proof.
  induction reads as [|[r data] reads IH]; intros fuel buffer w Hb Hf Hfuel;
    (destruct fuel as [|fuel]; [cbn in Hfuel; lia|]);
    cbn [transfer_loop]; unfold transfer_step;
    change (BUFFER_SIZE - 1)%nat with 1023%nat;
    rewrite stdin_thread_read_is_buffer_read;
    unfold bind at 1 2; unfold buffer_read at 1, next_fifo_read;
    rewrite Hf; cbn [hd tl]; cbn beta iota.
  - change (0 <? 0) with false. cbn beta iota. unfold ret.
    do 2 eexists. split; [reflexivity|]. cbn [trace incoming].
    split; [reflexivity|]. split; reflexivity.
  - cbn [reads_until_failure]. destruct (0 <? r) eqn:Hr.
    + match goal with
      | |- context [bind (stdin_thread_write g ?b 1023) _ ?w1] =>
          destruct (stdin_thread_write_reads_nothing g b w1)
            as (rw & w2 & evs & W & (T2 & I2 & F2) & N2);
            [rewrite overlay_length; exact Hb|]
      end.
      rewrite (bind_ok _ _ _ _ _ W). unfold ret at 1.
      cbn [trace incoming fifo_reads] in T2, I2, F2.
      destruct (IH fuel (memset_zero BUFFER_SIZE) w2 (memset_zero_length _)
                  F2) as (w' & evs' & E & T & R & I);
        [cbn in Hfuel; lia|].
      exists w', ([BufferRead (upload_fd g) 1023 r data] ++ evs ++ evs').
      split; [exact E|].
      split; [rewrite T, T2, <- !app_assoc; reflexivity|].
      split; [|congruence].
      cbn [app filter is_buffer_read map fst snd].
      rewrite filter_app, N2, R. reflexivity.
    + unfold ret. do 2 eexists. split; [reflexivity|]. cbn [trace incoming].
      split; [reflexivity|]. split; reflexivity.
Qed.

(** X17.  The upload routine reads its source until the first read that is
    not positive, and no further, whatever its writes answer: a write that
    fails does not end the loop.  It makes exactly the reads of
    [reads_until_failure], all on the descriptor the code picks, takes
    nothing from the socket, and ends with the signal to the download
    thread. *)
Theorem upload_reads_until_first_failure
    (g : state) (w : world) (fuel : nat) :
  (List.length (fifo_reads w) < fuel)%nat ->
  exists (g' : state) (w' : world) (events : list event) (k : Z),
    stdin_routine fuel g w = Ok g' w'
    /\ trace w' = trace w ++ events
                     ++ [Called (sys_pthread_kill stdout_thread SIGUSR1) k]
    /\ filter is_buffer_read events
       = map (fun p => BufferRead (upload_fd g) 1023 (fst p) (snd p))
           (reads_until_failure (fifo_reads w))
    /\ incoming w' = incoming w.
Proof.
  intros Hfuel. unfold stdin_routine.
  destruct (when_print_advances (debug (args g)) "start of stdin routine" w)
    as (w1 & E1 & (T1 & I1 & F1) & _).
  rewrite (bind_ok _ _ _ _ _ E1). cbv zeta.
  destruct (upload_loop_reads (set_stdin_running true g) (fifo_reads w)
              fuel (memset_zero BUFFER_SIZE) w1 (memset_zero_length _) F1
              Hfuel)
    as (w2 & evs & E2 & T2 & R2 & I2).
  rewrite (bind_ok _ _ _ _ _ E2).
  destruct (when_print_advances (debug (args (set_stdin_running true g)))
              "killing stdout routine..." w2)
    as (w3 & E3 & (T3 & I3 & F3) & _).
  rewrite (bind_ok _ _ _ _ _ E3).
  unfold bind at 1, sys at 1.
  match goal with
  | |- context [bind (when ?c (info_print ?s)) _ ?w4] =>
      destruct (when_print_advances c s w4) as (w5 & E5 & (T5 & I5 & F5) & _)
  end.
  rewrite (bind_ok _ _ _ _ _ E5). unfold ret.
  do 2 eexists. exists evs, (next_result w3).
  split; [reflexivity|].
  split; [rewrite T5; cbn [trace]; rewrite T3, T2, T1, !app_nil_r,
            <- !app_assoc; reflexivity|].
  split; [exact R2|].
  rewrite I5. cbn [incoming]. congruence.
Qed.

Lemma upload_reads_until_first_failure_witness :
  exists (g' : state) (w' : world) (events : list event) (k : Z),
    stdin_routine 3 (session 5 (-1) 3 (-1) false)
      (world_with [-1; -1; 1] [RecvByte "x"%byte]
         [(2, ["h"%byte; NEWLINE]); (0, [])]) = Ok g' w'
    /\ trace w' = [] ++ events
                     ++ [Called (sys_pthread_kill stdout_thread SIGUSR1) k]
    /\ filter is_buffer_read events
       = [BufferRead 5 1023 2 ["h"%byte; NEWLINE]; BufferRead 5 1023 0 []]
    /\ incoming w' = [RecvByte "x"%byte].
Proof.
  refine (upload_reads_until_first_failure (session 5 (-1) 3 (-1) false)
            (world_with [-1; -1; 1] [RecvByte "x"%byte]
               [(2, ["h"%byte; NEWLINE]); (0, [])]) 3 _).
  cbn. lia.
Defined.

(** X18.  One step of the download loop with a socket: the line read from
    the socket (up to its newline, or 1023 bytes) is handed to
    [buffer_write] in a buffer of 1024 bytes that holds the line and null
    bytes behind it, with the bound 1023, on the stdout FIFO when there is
    one and on descriptor 1 otherwise; what is behind the line stays in the
    socket, and the loop goes on. *)
Theorem download_step_hands_line_to_sink
    (g : state) (w : world) (stream : list byte) (behind : list recv_event) :
  is_open (sockfd g) = true ->
  incoming w = map RecvByte stream ++ behind ->
  In NEWLINE stream \/ (1023 <= List.length stream)%nat ->
  exists w' : world,
    transfer_step (stdout_thread_read g) (stdout_thread_write g)
      (memset_zero BUFFER_SIZE) w = Ok true w'
    /\ trace w'
       = trace w ++ receptions (sockfd g) (read_span 1023 stream)
           ++ [Called (call_buffer_write (download_fd g)
                         (line_buffer (read_span 1023 stream)) 1023)
                 (next_result w)]
    /\ incoming w'
       = map RecvByte (skipn (List.length (read_span 1023 stream)) stream)
           ++ behind.
Proof.
  intros Hsock Hin Hends.
  assert (Hne : stream <> []).
  { destruct Hends as [H|H]; destruct stream; try congruence;
      [destruct H | cbn in H; lia]. }
  pose proof (read_span_nonempty 1022 stream Hne) as Hline.
  change (S 1022) with 1023%nat in Hline.
  set (line := read_span 1023 stream) in *.
  assert (Hbuf : (1023 <= List.length (memset_zero BUFFER_SIZE))%nat)
    by (rewrite memset_zero_length; unfold BUFFER_SIZE; lia).
  unfold transfer_step. change (BUFFER_SIZE - 1)%nat with 1023%nat.
  assert (Hread : stdout_thread_read g (memset_zero BUFFER_SIZE) 1023
                  = socket_read (sockfd g) (memset_zero BUFFER_SIZE) 1023).
  { unfold stdout_thread_read. rewrite Hsock.
    destruct (is_open (stdin_fifo g)); reflexivity. }
  rewrite Hread.
  rewrite (bind_ok _ _ _ _ _
             (socket_read_line (sockfd g) (memset_zero BUFFER_SIZE) 1023
                stream behind w Hbuf Hin Hends)).
  fold line.
  assert (Hpos : (0 <? Z.of_nat (List.length line)) = true).
  { apply Z.ltb_lt. destruct line; [congruence | cbn; lia]. }
  rewrite Hpos.
  assert (Hlb : line ++ skipn (List.length line) (memset_zero BUFFER_SIZE)
                = line_buffer line)
    by (unfold line_buffer, memset_zero; rewrite skipn_repeat_nul;
        reflexivity).
  rewrite Hlb.
  unfold stdout_thread_write, download_fd. rewrite Hsock, andb_true_r.
  destruct (is_open (stdout_fifo g)).
  - destruct (debug (args g)); cbn; eexists;
      (split; [reflexivity|]); cbn; rewrite <- app_assoc; split; reflexivity.
  - cbn. eexists. split; [reflexivity|]. cbn. rewrite <- app_assoc.
    split; reflexivity.
Qed.

Lemma download_step_hands_line_to_sink_witness :
  exists w' : world,
    transfer_step (stdout_thread_read (session (-1) 6 3 (-1) false))
      (stdout_thread_write (session (-1) 6 3 (-1) false))
      (memset_zero BUFFER_SIZE)
      (world_with [4] [RecvByte "h"%byte; RecvByte NEWLINE; RecvByte "x"%byte]
         [])
    = Ok true w'
    /\ trace w'
       = [] ++ receptions 3 (read_span 1023 ["h"%byte; NEWLINE; "x"%byte])
           ++ [Called (call_buffer_write 6
                         (line_buffer
                            (read_span 1023 ["h"%byte; NEWLINE; "x"%byte]))
                         1023) 4]
    /\ incoming w'
       = map RecvByte
           (skipn (List.length (read_span 1023 ["h"%byte; NEWLINE; "x"%byte]))
              ["h"%byte; NEWLINE; "x"%byte]) ++ [].
Proof.
  refine (download_step_hands_line_to_sink (session (-1) 6 3 (-1) false)
            (world_with [4] [RecvByte "h"%byte; RecvByte NEWLINE;
                             RecvByte "x"%byte] [])
            ["h"%byte; NEWLINE; "x"%byte] [] eq_refl _ _).
  - cbn. reflexivity.
  - left. cbn. auto.
Defined.

Lemma main_skips_fifos_after_failed_negotiation_witness :
  main "127.0.0.1" 5000 (opener 0 7 8) (starter true) closer closer
    (session_to "10.0.0.1" 80) (world_with [0; 0; 0; -1; -1] [] [])
  = main "127.0.0.1" 5000 (opener 1 0 0) (starter false) closer closer
      (session_to "10.0.0.1" 80) (world_with [0; 0; 0; -1; -1] [] []).
Proof.
  assert (E0 : exists w0,
             signals_handler_setup (world_with [0; 0; 0; -1; -1] [] [])
             = Ok tt w0) by (eexists; vm_compute; reflexivity).
  destruct E0 as [w0 E0].
  assert (E1 : exists g1 w1,
             try_socket_create "127.0.0.1" 5000 (session_to "10.0.0.1" 80) w0
             = Ok (1, g1) w1).
  { vm_compute in E0. injection E0 as <-. do 2 eexists. vm_compute.
    reflexivity. }
  destruct E1 as (g1 & w1 & E1).
  refine (main_skips_fifos_after_failed_negotiation "127.0.0.1" 5000
            (opener 0 7 8) (starter true) closer closer
            (session_to "10.0.0.1" 80) _ w0 w1 1 g1
            (opener 1 0 0) (starter false) E0 E1 _).
  discriminate.
Defined.

Lemma main_skips_threads_after_failed_open_witness :
  main "127.0.0.1" 5000 (opener 1 7 8) (starter true) closer closer
    (session (-1) (-1) (-1) (-1) false) (world_with [0; 0; 0] [] [])
  = main "127.0.0.1" 5000 (opener 1 7 8) (starter false) closer closer
      (session (-1) (-1) (-1) (-1) false) (world_with [0; 0; 0] [] []).
Proof.
  assert (E0 : exists w0,
             signals_handler_setup (world_with [0; 0; 0] [] []) = Ok tt w0)
    by (eexists; vm_compute; reflexivity).
  destruct E0 as [w0 E0].
  refine (main_skips_threads_after_failed_open "127.0.0.1" 5000
            (opener 1 7 8) (starter true) closer closer
            (session (-1) (-1) (-1) (-1) false) _ w0 w0 w0
            (session (-1) (-1) (-1) (-1) false) 1 7 8
            (starter false) E0 eq_refl eq_refl _).
  discriminate.
Defined.

(** ** The shutdown coordinator *)

Section CoordinatorProperties.

Variable stdin_fifo_close : Z -> bool -> returning (Z * Z).
Variable stdout_fifo_close : Z -> bool -> returning (Z * Z).

Lemma fifos_socket_close_runs (g : state) (w : world) :
  exists (g' : state) (w' : world),
    fifos_socket_close stdin_fifo_close stdout_fifo_close g w = Ok g' w'
    /\ (sockfd g' = -1
        \/ (sockfd g' = sockfd g
            /\ In (Called (sys_close (sockfd g)) (-1)) (trace w')))
    /\ (servfd g' = -1
        \/ (servfd g' = servfd g
            /\ In (Called (sys_close (servfd g)) (-1)) (trace w')))
    /\ stdin_running g' = stdin_running g
    /\ stdout_running g' = stdout_running g
    /\ args g' = args g.
Proof.
  unfold fifos_socket_close.
  unfold bind at 1, run at 1.
  destruct (stdout_fifo_close (stdout_fifo g) (debug (args g)) w)
    as [[st_o o] w1].
  cbn beta iota zeta.
  unfold bind at 1, run at 1.
  match goal with
  | |- context [stdin_fifo_close ?fd ?d w1] =>
      destruct (stdin_fifo_close fd d w1) as [[st_i i] w2]
  end.
  cbn beta iota zeta.
  match goal with
  | |- context [bind (socket_close ?fd ?d) _ w2] =>
      destruct (socket_close_runs fd d w2)
        as (st1 & s & w3 & ev1 & E3 & (T3 & _) & R3)
  end.
  rewrite (bind_ok _ _ _ _ _ E3). cbn beta iota zeta.
  match goal with
  | |- context [bind (socket_close ?fd ?d) _ w3] =>
      destruct (socket_close_runs fd d w3)
        as (st2 & v & w4 & ev2 & E4 & (T4 & _) & R4)
  end.
  rewrite (bind_ok _ _ _ _ _ E4). cbn beta iota zeta. unfold ret.
  do 2 eexists. split; [reflexivity|].
  cbn [sockfd servfd set_sockets set_fifos stdin_running stdout_running args].
  rewrite T4, T3. cbn in R3, R4.
  repeat split.
  - inversion R3; subst; auto. right. split; [reflexivity|].
    apply in_or_app. left. apply in_or_app. right. left. reflexivity.
  - inversion R4; subst; auto. right. split; [reflexivity|].
    apply in_or_app. right. left. reflexivity.
Qed.

(** X19.  The coordinator's closing ([fifos_socket_close], which is all
    the [SIGUSR1] handler does) returns, and never opens or swaps
    anything: each socket handle is -1 afterwards, or it is what it was and
    a [close] of it has answered -1.  A handle that is -1 stays -1, so the
    closing can be run any number of times.  The running flags and the
    options are untouched. *)
Theorem shutdown_closing_is_monotonic (signum : Z) (g : state) (w : world) :
  exists (g' : state) (w' : world),
    sigusr1_handler stdin_fifo_close stdout_fifo_close signum g w = Ok g' w'
    /\ (sockfd g' = -1
        \/ (sockfd g' = sockfd g
            /\ In (Called (sys_close (sockfd g)) (-1)) (trace w')))
    /\ (servfd g' = -1
        \/ (servfd g' = servfd g
            /\ In (Called (sys_close (servfd g)) (-1)) (trace w')))
    /\ (sockfd g = -1 -> sockfd g' = -1)
    /\ (servfd g = -1 -> servfd g' = -1)
    /\ stdin_running g' = stdin_running g
    /\ stdout_running g' = stdout_running g
    /\ args g' = args g.
Proof.
  unfold sigusr1_handler.
  destruct (fifos_socket_close_runs g w)
    as (g' & w' & E & Hs & Hv & Hi & Ho & Ha).
  exists g', w'. repeat split; auto.
  - intros H. destruct Hs as [Hs | [Hs _]]; congruence.
  - intros H. destruct Hv as [Hv | [Hv _]]; congruence.
Qed.

Lemma kill_if_runs (running : bool) (target : thread) (w : world) :
  exists w' : world,
    kill_if running target w = Ok tt w'
    /\ trace w'
       = trace w
           ++ (if running
               then [Called (sys_pthread_kill target SIGUSR1) (next_result w)]
               else [])
    /\ os_results w' = (if running then tl (os_results w) else os_results w).
Proof.
  destruct running; cbn; eexists; (split; [reflexivity|]); cbn;
    rewrite ?app_nil_r; split; reflexivity.
Qed.

(** X20.  The handlers of [SIGINT] and [SIGPIPE] first do the closing and
    then send [SIGUSR1] to the threads whose running flag is set, the stdin
    thread before the stdout thread, and to no other: these signals are
    their last calls.  They leave the flags as they were. *)
Theorem interrupt_handlers_signal_running_threads
    (signum : Z) (g : state) (w : world) :
  (exists (w0 : world) (g' : state) (w1 w' : world) (k1 k2 : Z),
      trace w0 = trace w
      /\ fifos_socket_close stdin_fifo_close stdout_fifo_close g w0
         = Ok g' w1
      /\ sigint_handler stdin_fifo_close stdout_fifo_close signum g w
         = Ok g' w'
      /\ trace w'
         = trace w1
             ++ (if stdin_running g
                 then [Called (sys_pthread_kill stdin_thread SIGUSR1) k1]
                 else [])
             ++ (if stdout_running g
                 then [Called (sys_pthread_kill stdout_thread SIGUSR1) k2]
                 else [])
      /\ stdin_running g' = stdin_running g
      /\ stdout_running g' = stdout_running g)
  /\ (exists (w0 : world) (g' : state) (w1 w' : world) (k1 k2 : Z),
         trace w0 = trace w
         /\ fifos_socket_close stdin_fifo_close stdout_fifo_close g w0
            = Ok g' w1
         /\ sigpipe_handler stdin_fifo_close stdout_fifo_close signum g w
            = Ok g' w'
         /\ trace w'
            = trace w1
                ++ (if stdin_running g
                    then [Called (sys_pthread_kill stdin_thread SIGUSR1) k1]
                    else [])
                ++ (if stdout_running g
                    then [Called (sys_pthread_kill stdout_thread SIGUSR1) k2]
                    else [])
         /\ stdin_running g' = stdin_running g
         /\ stdout_running g' = stdout_running g).
Proof.
  assert (H : forall message,
             exists (w0 : world) (g' : state) (w1 w' : world) (k1 k2 : Z),
               trace w0 = trace w
               /\ fifos_socket_close stdin_fifo_close stdout_fifo_close g w0
                  = Ok g' w1
               /\ (when (debug (args g)) (info_print message) ;;
                   g <- fifos_socket_close stdin_fifo_close
                          stdout_fifo_close g ;;
                   kill_if (stdin_running g) stdin_thread ;;
                   kill_if (stdout_running g) stdout_thread ;;
                   ret g) w = Ok g' w'
               /\ trace w'
                  = trace w1
                      ++ (if stdin_running g
                          then [Called (sys_pthread_kill stdin_thread SIGUSR1)
                                  k1]
                          else [])
                      ++ (if stdout_running g
                          then [Called
                                  (sys_pthread_kill stdout_thread SIGUSR1) k2]
                          else [])
               /\ stdin_running g' = stdin_running g
               /\ stdout_running g' = stdout_running g).
  { intros message.
    destruct (when_print (debug (args g)) message w) as (w0 & E0 & T0 & _).
    destruct (fifos_socket_close_runs g w0)
      as (g' & w1 & E1 & _ & _ & Hi & Ho & _).
    destruct (kill_if_runs (stdin_running g') stdin_thread w1)
      as (w2 & E2 & T2 & _).
    destruct (kill_if_runs (stdout_running g') stdout_thread w2)
      as (w3 & E3 & T3 & _).
    exists w0, g', w1, w3, (next_result w1), (next_result w2).
    split; [exact T0|]. split; [exact E1|].
    rewrite (bind_ok _ _ _ _ _ E0), (bind_ok _ _ _ _ _ E1),
      (bind_ok _ _ _ _ _ E2), (bind_ok _ _ _ _ _ E3).
    split; [reflexivity|].
    split; [rewrite T3, T2, Hi, Ho, <- app_assoc; reflexivity|].
    split; assumption. }
  split.
  - exact (H "Keyboard interrupt").
  - exact (H "Pipe has been broken").
Qed.

End CoordinatorProperties.

(** ** Option parsing *)

Section OptionsProperties.

Variable atoi : string -> Z.
Variable realloc_succeeds : list string -> nat -> bool.
Variable ARGP_KEY_ARG : Z.
Variable ARGP_KEY_END : Z.
Variable ARGP_ERR_UNKNOWN : Z.
Variable ENOMEM : Z.

Local Abbreviation parse :=
  (opt_parse atoi realloc_succeeds ARGP_KEY_ARG ARGP_KEY_END
     ARGP_ERR_UNKNOWN ENOMEM).
Local Abbreviation parse_each :=
  (opt_parse_each atoi realloc_succeeds ARGP_KEY_ARG ARGP_KEY_END
     ARGP_ERR_UNKNOWN ENOMEM).

(** What one call does to the reverse flag and to the stdout path. *)
Lemma opt_parse_reverse_step (key : Z) (arg : string) (arg_num : nat)
    (g : state) (count : nat) :
  let g' := snd (fst (parse key arg arg_num g count)) in
  (if key =? key_of "i"
   then fifo_reverse g' = fifo_reverse g || stdout_given g
        /\ stdout_given g' = stdout_given g
   else if key =? key_of "o"
        then fifo_reverse g' = fifo_reverse g /\ stdout_given g' = true
        else fifo_reverse g' = fifo_reverse g
             /\ stdout_given g' = stdout_given g).
Proof.
  cbv zeta. unfold opt_parse, stdout_given. cbv zeta.
  destruct (key =? key_of "i").
  - destruct (stdout_path (args g)) eqn:E; cbn; rewrite ?E;
      destruct (fifo_reverse g); split; reflexivity.
  - destruct (key =? key_of "o"); [cbn; split; reflexivity|].
    repeat match goal with
           | |- context [if ?a =? ?b then _ else _] => destruct (a =? b)
           end;
      try destruct (realloc_succeeds _ _); cbn; split; reflexivity.
Qed.

(** X21.  After any series of calls of [opt_parse] the reverse flag is set
    exactly when it was set before, or an ['i'] option came when a stdout
    path was there: given before the series, or by an ['o'] option earlier
    in it.  No call clears the flag. *)
Theorem reverse_flag_after_options
    (calls : list (Z * string * nat)) (g : state) (count : nat) :
  fifo_reverse (fst (parse_each calls g count))
  = fifo_reverse g
    || stdin_after_stdout (stdout_given g)
         (map (fun c => fst (fst c)) calls).
Proof.
  revert g count. induction calls as [|[[key arg] arg_num] calls IH];
    intros g count.
  - cbn. rewrite orb_false_r. reflexivity.
  - cbn [opt_parse_each map fst].
    pose proof (opt_parse_reverse_step key arg arg_num g count) as Hstep.
    cbv zeta in Hstep.
    destruct (opt_parse atoi realloc_succeeds ARGP_KEY_ARG ARGP_KEY_END
                ARGP_ERR_UNKNOWN ENOMEM key arg arg_num g count)
      as [[code g1] count1].
    cbn [fst snd] in Hstep. rewrite IH.
    cbn [stdin_after_stdout].
    destruct (key =? key_of "i").
    + destruct Hstep as [-> ->].
      destruct (fifo_reverse g), (stdout_given g); reflexivity.
    + destruct (key =? key_of "o"); destruct Hstep as [-> ->]; reflexivity.
Qed.

(** X22.  Positional arguments pile up in order.  When [arg_count] is the
    length of the array, the calls come with [arg_num] counting on from it
    (as the option parser of the library numbers them) and every [realloc]
    succeeds, the array is afterwards the old one with the new texts behind
    it, [arg_count] is again its length, and nothing else has changed.
    The key of a positional argument must be none of the option letters. *)
Theorem positional_arguments_accumulate
    (texts : list string) (g : state) (count : nat) :
  (forall array n, realloc_succeeds array n = true) ->
  ARGP_KEY_ARG <> key_of "i" -> ARGP_KEY_ARG <> key_of "o" ->
  ARGP_KEY_ARG <> key_of "a" -> ARGP_KEY_ARG <> key_of "p" ->
  ARGP_KEY_ARG <> key_of "r" -> ARGP_KEY_ARG <> key_of "d" ->
  count = List.length (arg_list (args g)) ->
  let g' := fst (parse_each (positional_calls ARGP_KEY_ARG count texts)
                   g count) in
  let count' := snd (parse_each (positional_calls ARGP_KEY_ARG count texts)
                       g count) in
  arg_list (args g') = arg_list (args g) ++ texts
  /\ count' = List.length (arg_list (args g'))
  /\ stdin_path (args g') = stdin_path (args g)
  /\ stdout_path (args g') = stdout_path (args g)
  /\ address (args g') = address (args g)
  /\ port (args g') = port (args g)
  /\ debug (args g') = debug (args g)
  /\ fifo_reverse g' = fifo_reverse g.
Proof.
  intros Hre Hi Ho Ha Hp Hr Hd. cbv zeta.
  revert g count. induction texts as [|text texts IH]; intros g count Hcount.
  - cbn. rewrite app_nil_r. repeat split; auto.
  - cbn [positional_calls opt_parse_each].
    apply Z.eqb_neq in Hi, Ho, Ha, Hp, Hr, Hd.
    assert (Hres : resized count (arg_list (args g)) = arg_list (args g)).
    { unfold resized. rewrite Hcount, firstn_all, Nat.sub_diag.
      apply app_nil_r. }
    assert (E : parse ARGP_KEY_ARG text count g count
                = (0,
                   set_args
                     {| arg_list := arg_list (args g) ++ [text];
                        stdin_path := stdin_path (args g);
                        stdout_path := stdout_path (args g);
                        address := address (args g);
                        port := port (args g);
                        reverse := reverse (args g);
                        debug := debug (args g) |} g,
                   S count)).
    { unfold opt_parse. cbv zeta.
      rewrite Hi, Ho, Ha, Hp, Hr, Hd, Z.eqb_refl, Hre, Hres.
      replace (count + 1)%nat with (S count) by lia. reflexivity. }
    rewrite E.
    match goal with
    | |- context [opt_parse_each _ _ _ _ _ _ _ ?g1 ?c1] =>
        specialize (IH g1 c1)
    end.
    cbn [args set_args arg_list stdin_path stdout_path address port debug
         fifo_reverse] in IH.
    destruct IH as (H1 & H2 & H3 & H4 & H5 & H6 & H7 & H8).
    { rewrite length_app. cbn. lia. }
    rewrite H2, H1, <- app_assoc. repeat split; assumption.
Qed.

(** X23.  After any series of calls the port is the number of the last
    ['p'] option whose text [atoi] turns into something other than 0, and
    the port from before when there is none: a port option of 0, or one
    that is no number, is passed over. *)
Theorem port_after_options
    (calls : list (Z * string * nat)) (g : state) (count : nat) :
  port (args (fst (parse_each calls g count)))
  = fold_left
      (fun p c =>
         if (fst (fst c) =? key_of "p") && negb (atoi (snd (fst c)) =? 0)
         then atoi (snd (fst c)) else p)
      calls (port (args g)).
Proof.
  revert g count. induction calls as [|[[key arg] arg_num] calls IH];
    intros g count; [reflexivity|].
  cbn [opt_parse_each fold_left fst snd].
  destruct (opt_parse atoi realloc_succeeds ARGP_KEY_ARG ARGP_KEY_END
              ARGP_ERR_UNKNOWN ENOMEM key arg arg_num g count)
    as [[code g1] count1] eqn:E.
  rewrite IH. f_equal.
  unfold opt_parse in E. cbv zeta in E.
  destruct (Z.eqb_spec key (key_of "p")) as [->|Hp].
  - cbn in E. injection E as _ <- _. cbn.
    destruct (atoi arg =? 0); reflexivity.
  - cbn [andb].
    repeat match type of E with
           | context [if ?c then _ else _] => destruct c
           end;
      injection E as _ <- _; reflexivity.
Qed.

End OptionsProperties.

Lemma positional_arguments_accumulate_witness :
  arg_list (args (fst (opt_parse_each (fun _ => 0) (fun _ _ => true)
                         0 16777217 7 12
                         (positional_calls 0 0 ["one"; "two"])
                         (session (-1) (-1) (-1) (-1) false) 0)))
  = [] ++ ["one"; "two"]
  /\ snd (opt_parse_each (fun _ => 0) (fun _ _ => true) 0 16777217 7 12
            (positional_calls 0 0 ["one"; "two"])
            (session (-1) (-1) (-1) (-1) false) 0)
     = List.length
         (arg_list (args (fst (opt_parse_each (fun _ => 0) (fun _ _ => true)
                                 0 16777217 7 12
                                 (positional_calls 0 0 ["one"; "two"])
                                 (session (-1) (-1) (-1) (-1) false) 0)))).
Proof.
  destruct (positional_arguments_accumulate (fun _ => 0) (fun _ _ => true)
              0 16777217 7 12 ["one"; "two"]
              (session (-1) (-1) (-1) (-1) false) 0)
    as (H1 & H2 & _); try discriminate; try reflexivity.
  split; [exact H1 | exact H2].
Defined.
